(** * gohye card ingestion scripts: MDFILES/automate.py and MDFILES/promoauto.py

    A shallow embedding of the two ingestion scripts and the properties of
    their directory-to-catalog pipeline.

    Conventions of the embedding.
    - A Python [str] is a [list ascii]; string literals are read through the
      coercion [list_ascii_of_string].  Characters are bytes: the classes
      [\d] and [\w] of the [re] module are their ASCII ranges, [str.lower]
      is ASCII lower-casing and [int] reads ASCII digits between ASCII
      white space.  The embedding follows the scripts on strings of ASCII
      characters ([ascii_only]); a statement about which characters a name
      may hold, or about what lower-casing does to them, is made of such
      strings.
    - A Python [int] is a [Z].
    - The document store ([db.collections], [db.cards]) and the JSON arrays
      ([collections.json], [cards.json]) are lists in insertion order.
    - The object store is the list of the objects written so far, and an
      oracle says, per local file path, whether [s3_client.upload_file]
      succeeds.
    - An exception is a value of [exn]; a call that may raise returns a
      [result].  Writes made before an exception stay in the state.
    - The worker pool of [upload_files] is a completion order: a
      rearrangement of the submitted tasks. *)

From Stdlib Require Import List Ascii String ZArith Lia Bool Permutation.
From Stdlib Require Import Numbers.DecimalString.
From Stdlib Require Numbers.DecimalZ.
Import ListNotations.

Open Scope string_scope.
Open Scope list_scope.
Open Scope Z_scope.

Set Implicit Arguments.

(** ** Python strings *)

Definition str := list ascii.

Coercion list_ascii_of_string : string >-> list.

Definition str_eq_dec : forall a b : str, {a = b} + {a <> b} :=
  list_eq_dec ascii_dec.

Definition str_eqb (a b : str) : bool :=
  if str_eq_dec a b then true else false.

Module Py.

(** Character classes on ASCII characters: [\d] is [0-9]. *)
Definition in_range (lo hi : nat) (c : ascii) : bool :=
  (Nat.leb lo (nat_of_ascii c) && Nat.leb (nat_of_ascii c) hi)%bool.

Definition is_digit (c : ascii) : bool := in_range 48 57 c.
Definition is_upper (c : ascii) : bool := in_range 65 90 c.
Definition is_lower (c : ascii) : bool := in_range 97 122 c.

(** [\w] on ASCII characters: letters, digits and the underscore. *)
Definition is_word (c : ascii) : bool :=
  (is_digit c || is_upper c || is_lower c || Ascii.eqb c "_")%bool.

(** The white space that [int] skips around the numeral of an ASCII string:
    space, \t, \n, \v, \f and \r. *)
Definition is_space (c : ascii) : bool :=
  (Ascii.eqb c " " || in_range 9 13 c)%bool.

(** The characters of ASCII: the code points below 128. *)
Definition is_ascii (c : ascii) : bool := Nat.ltb (nat_of_ascii c) 128.

(** [str.lower] on ASCII strings: the letters [A-Z] are lowered, one
    character for one. *)
Definition lower_char (c : ascii) : ascii :=
  if is_upper c then ascii_of_nat (nat_of_ascii c + 32) else c.

Definition lower (s : str) : str := map lower_char s.

(** [str.upper] on ASCII strings. *)
Definition upper_char (c : ascii) : ascii :=
  if is_lower c then ascii_of_nat (nat_of_ascii c - 32) else c.

Definition upper (s : str) : str := map upper_char s.

(** [s.replace(a, b)] for one-character [a] and [b]. *)
Definition replace (a b : ascii) (s : str) : str :=
  map (fun c => if Ascii.eqb c a then b else c) s.

(** [s.split(sep)] for a one-character separator: never the empty list. *)
Fixpoint split (sep : ascii) (s : str) : list str :=
  match s with
  | [] => [[]]
  | c :: s' =>
      if Ascii.eqb c sep then [] :: split sep s'
      else match split sep s' with
           | [] => [[c]]
           | w :: ws => (c :: w) :: ws
           end
  end.

(** [sep.join(parts)]. *)
Fixpoint join (sep : str) (parts : list str) : str :=
  match parts with
  | [] => []
  | [p] => p
  | p :: ps => p ++ sep ++ join sep ps
  end.

(** [s.rfind(c)]: the highest index of [c] in [s], or -1. *)
Fixpoint rfind_from (i : Z) (c : ascii) (s : str) (found : Z) : Z :=
  match s with
  | [] => found
  | x :: s' => rfind_from (i + 1) c s' (if Ascii.eqb x c then i else found)
  end.

Definition rfind (c : ascii) (s : str) : Z := rfind_from 0 c s (-1).

(** The slice [s[i:j]] for [0 <= i]. *)
Definition slice (s : str) (i j : Z) : str :=
  firstn (Z.to_nat (j - i)) (skipn (Z.to_nat i) s).

(** [os.path.splitext] (posixpath): the extension starts at the last dot
    of the last path component, unless only dots precede it there. *)
Definition splitext (p : str) : str * str :=
  let sepIndex := rfind "/" p in
  let dotIndex := rfind "." p in
  if sepIndex <? dotIndex then
    if forallb (Ascii.eqb ".") (slice p (sepIndex + 1) dotIndex)
    then (p, [])
    else (firstn (Z.to_nat dotIndex) p, skipn (Z.to_nat dotIndex) p)
  else (p, []).

(** [os.path.basename] (posixpath): what follows the last slash. *)
Definition basename (p : str) : str :=
  skipn (Z.to_nat (rfind "/" p + 1)) p.

(** [os.path.dirname] with its trailing slash kept, so that
    [dirpart p ++ basename p = p]. *)
Definition dirpart (p : str) : str :=
  firstn (Z.to_nat (rfind "/" p + 1)) p.

(** [os.path.join(a, b)] for a relative [b]. *)
Definition path_join (a b : str) : str :=
  match rev a with
  | [] => b
  | c :: _ => if Ascii.eqb c "/" then a ++ b else a ++ "/" ++ b
  end.

(** [int(s)] in base 10 on ASCII strings: surrounding white space is
    dropped, one sign is allowed, then one or more digits ([split('_')]
    leaves no underscore in the argument).  [None] is [ValueError]. *)
Fixpoint lstrip (s : str) : str :=
  match s with
  | c :: s' => if is_space c then lstrip s' else s
  | [] => []
  end.

Definition strip (s : str) : str := rev (lstrip (rev (lstrip s))).

Definition digit_val (c : ascii) : Z := Z.of_nat (nat_of_ascii c) - 48.

Fixpoint digits_val (acc : Z) (s : str) : option Z :=
  match s with
  | [] => Some acc
  | c :: s' =>
      if is_digit c then digits_val (10 * acc + digit_val c) s' else None
  end.

Definition unsigned_int (s : str) : option Z :=
  match s with
  | [] => None
  | _ => digits_val 0 s
  end.

Definition int (s : str) : option Z :=
  match strip s with
  | c :: s' =>
      if Ascii.eqb c "-" then option_map Z.opp (unsigned_int s')
      else if Ascii.eqb c "+" then unsigned_int s'
      else unsigned_int (c :: s')
  | [] => None
  end.

(** [str(n)], as an f-string renders an [int]. *)
Definition str_of_int (n : Z) : str :=
  list_ascii_of_string (NilZero.string_of_int (Z.to_int n)).

(** [s.startswith(prefix)]. *)
Fixpoint starts_with (prefix s : str) : bool :=
  match prefix, s with
  | [], _ => true
  | _ :: _, [] => false
  | a :: prefix', c :: s' => Ascii.eqb a c && starts_with prefix' s'
  end.

(** [sub in s]. *)
Fixpoint contains (sub s : str) : bool :=
  starts_with sub s ||
  match s with
  | [] => false
  | _ :: s' => contains sub s'
  end.

(** [s.replace(old, new)] for a non-empty [old]: the occurrences are
    replaced from the left, without overlap; [skip] counts the characters
    of an occurrence still to be passed over. *)
Fixpoint replace_from (old new : str) (skip : nat) (s : str) : str :=
  match s with
  | [] => []
  | c :: s' =>
      match skip with
      | S k => replace_from old new k s'
      | O =>
          if starts_with old s
          then new ++ replace_from old new (List.length old - 1) s'
          else c :: replace_from old new 0 s'
      end
  end.

Definition replace_str (old new s : str) : str := replace_from old new 0 s.

(** [l[-k]] for [k >= 1]: the [k]-th element from the end; [None] is
    [IndexError]. *)
Definition index_from_end {A : Type} (l : list A) (k : nat) : option A :=
  if Nat.leb k (List.length l) then nth_error l (List.length l - k) else None.

(** How an f-string renders [None] or an [int]. *)
Definition str_of_optional_int (n : option Z) : str :=
  match n with
  | Some k => str_of_int k
  | None => "None"
  end.

End Py.

(** ** Regular expressions: the fragment of [re] that the scripts use *)

Module Re.

Inductive regex : Type :=
| Void : regex
| Eps : regex
| Cls : (ascii -> bool) -> regex
| Seq : regex -> regex -> regex
| Alt : regex -> regex -> regex
| Star : regex -> regex.

Definition Chr (c : ascii) : regex := Cls (Ascii.eqb c).
Definition Plus (r : regex) : regex := Seq r (Star r).
Definition Opt (r : regex) : regex := Alt r Eps.

(** [\d], [\w] and [.] (any character but a newline). *)
Definition digit : regex := Cls Py.is_digit.
Definition word : regex := Cls Py.is_word.

(** The strings a pattern matches in full. *)
Inductive lang : regex -> str -> Prop :=
| L_eps : lang Eps []
| L_cls p c : p c = true -> lang (Cls p) [c]
| L_seq r1 r2 s1 s2 : lang r1 s1 -> lang r2 s2 -> lang (Seq r1 r2) (s1 ++ s2)
| L_alt_l r1 r2 s : lang r1 s -> lang (Alt r1 r2) s
| L_alt_r r1 r2 s : lang r2 s -> lang (Alt r1 r2) s
| L_star_nil r : lang (Star r) []
| L_star_app r s1 s2 :
    lang r s1 -> lang (Star r) s2 -> lang (Star r) (s1 ++ s2).

Fixpoint nullable (r : regex) : bool :=
  match r with
  | Void => false
  | Eps => true
  | Cls _ => false
  | Seq r1 r2 => nullable r1 && nullable r2
  | Alt r1 r2 => nullable r1 || nullable r2
  | Star _ => true
  end.

(** What is left of the pattern once the character [c] is consumed. *)
Fixpoint deriv (c : ascii) (r : regex) : regex :=
  match r with
  | Void => Void
  | Eps => Void
  | Cls p => if p c then Eps else Void
  | Seq r1 r2 =>
      if nullable r1 then Alt (Seq (deriv c r1) r2) (deriv c r2)
      else Seq (deriv c r1) r2
  | Alt r1 r2 => Alt (deriv c r1) (deriv c r2)
  | Star r1 => Seq (deriv c r1) (Star r1)
  end.

(** [pattern.match(s) is not None]: some prefix of [s], starting at index
    0, is matched by the pattern. *)
Fixpoint re_match (r : regex) (s : str) : bool :=
  nullable r ||
  match s with
  | [] => false
  | c :: s' => re_match (deriv c r) s'
  end.

(** [pattern.fullmatch(s) is not None]. *)
Fixpoint fullmatch (r : regex) (s : str) : bool :=
  match s with
  | [] => nullable r
  | c :: s' => fullmatch (deriv c r) s'
  end.

End Re.

(** ** What both scripts share: exceptions, the object store, directories *)

Inductive exn : Type :=
| CardProcessingError (error_code : Z)
| ValueError.

Inductive result (A : Type) : Type :=
| Ok (a : A)
| Raise (e : exn).

Arguments Ok {A} a.
Arguments Raise {A} e.

(** One object of the bucket: its key, the local file it was read from (none
    for a folder marker) and the [ExtraArgs] of the call. *)
Record s3_object : Type := {
  s3_key : str;
  s3_body : option str;
  s3_acl : option str;
  s3_content_type : option str
}.

(** An input directory: its path and the files [os.walk] finds below it, as
    paths relative to it, in the order [os.walk] yields them. *)
Record local_dir : Type := {
  dir_path : str;
  dir_files : list str
}.

Module Common.

(** The new name [rename_files] gives one file of a directory. *)
Definition new_file_name (file : str) : str :=
  let (file_name, file_ext) := Py.splitext file in
  let new_file_name := Py.replace " " "_" (Py.lower file_name) in
  new_file_name ++ file_ext.

(** [rename_files]: every file is renamed inside the directory that holds
    it; [os.rename] replaces a file that already carries the new name, so
    a name reached twice is listed once afterwards. *)
Definition rename_files (files : list str) : list str :=
  nodup str_eq_dec
    (map (fun rel => Py.dirpart rel ++ new_file_name (Py.basename rel)) files).

(** [check_name_duplicates], on the names of the loaded cards: the set of
    the names that [Counter] counts more than once (the set it prints). *)
Definition check_name_duplicates (names : list str) : list str :=
  nodup str_eq_dec
    (filter (fun name => 1 <? Z.of_nat (count_occ str_eq_dec names name)) names).

(** The loop of [upload_files] over the finished futures: results are
    taken in completion order, [None] is dropped, and [future.result()]
    raises what the task raised. *)
Fixpoint gather (results : list (result (option str))) (valid_files : list str)
  : result (list str) :=
  match results with
  | [] => Ok valid_files
  | Ok None :: rest => gather rest valid_files
  | Ok (Some r) :: rest => gather rest (valid_files ++ [r])
  | Raise e :: _ => Raise e
  end.

End Common.

(** ** automate.py: the document-store variant *)

Module Automate.

Definition ACCEPTED_EXTENSIONS : list str :=
  [".jpg" : str; ".png" : str; ".jpeg" : str; ".gif" : str].

(** The pattern [\d+_\w+(\_\w+)?\.\w+]. *)
Definition pattern : Re.regex :=
  Re.Seq (Re.Plus Re.digit)
    (Re.Seq (Re.Chr "_")
       (Re.Seq (Re.Plus Re.word)
          (Re.Seq (Re.Opt (Re.Seq (Re.Chr "_") (Re.Plus Re.word)))
             (Re.Seq (Re.Chr ".") (Re.Plus Re.word))))).

Definition is_valid_filename (filename : str) : bool :=
  Re.re_match pattern filename.

(** Documents of [db.collections] and [db.cards]; the time stamp [added]
    is left out. *)
Record collection : Type := {
  col_id : str;
  col_name : str;
  col_origin : option str;
  col_aliases : list str;
  col_promo : bool;
  col_compressed : bool;
  col_rarity : Z;
  col_tags : list str
}.

Record card : Type := {
  id : Z;
  name : str;
  level : Z;
  col : str;
  animated : bool;
  tags : str;
  url : str;
  shorturl : str
}.

Record database : Type := {
  collections : list collection;
  cards : list card
}.

Record world : Type := {
  store : list s3_object;
  db : database
}.

(** [create_folder]: the folder marker. *)
Definition create_folder (folder_name target_directory : str)
    (st : list s3_object) : list s3_object :=
  st ++ [ {| s3_key := "cards/" ++ target_directory ++ "/" ++ folder_name ++ "/";
             s3_body := None; s3_acl := None; s3_content_type := None |} ].

(** [db.collections.find_one({'id': folder_name})]. *)
Definition find_collection (folder_name : str) (cs : list collection)
  : option collection :=
  find (fun c => str_eqb (col_id c) folder_name) cs.

(** [find_one(sort=[('id', -1)])] and [find_one(sort=[('id', 1)])]: a
    document whose id no other document beats. *)
Fixpoint find_one_sorted (beats : Z -> Z -> bool) (cs : list card)
  : option card :=
  match cs with
  | [] => None
  | c :: rest =>
      match find_one_sorted beats rest with
      | None => Some c
      | Some c' => if beats (id c') (id c) then Some c' else Some c
      end
  end.

Definition find_last_card (cs : list card) : option card :=
  find_one_sorted Z.gtb cs.

Definition find_first_card (cs : list card) : option card :=
  find_one_sorted Z.ltb cs.

(** The next available card id, as the loop of [update_database] reads
    it before each insertion. *)
Definition next_id (cs : list card) : Z :=
  match find_last_card cs with
  | Some last_card => id last_card + 1
  | None => 0
  end.

(** The key [upload_file] writes for a relative path. *)
Definition s3_path (folder_name target_directory relative_path : str) : str :=
  let (file_name, file_ext) := Py.splitext relative_path in
  let new_file_ext :=
    if str_eqb (Py.lower file_ext) ".gif" then file_ext else ".jpg" : str in
  let relative_path_new_ext := file_name ++ new_file_ext in
  "cards/" ++ target_directory ++ "/" ++ folder_name ++ "/" ++ relative_path_new_ext.

Definition content_type (relative_path : str) : str :=
  let (_, file_ext) := Py.splitext relative_path in
  if str_eqb (Py.lower file_ext) ".gif" then "image/gif" else "image/jpeg".

(** The card [update_database] builds for one uploaded file, given the
    parsed level and the id read from the store. *)
Definition new_card (folder_name target_directory file : str)
    (level : Z) (next_id : Z) : card :=
  let (file_name, file_ext) := Py.splitext file in
  let is_animated := str_eqb (Py.lower file_ext) ".gif" in
  let card_id := Py.lower file_name in
  let name_without_prefix := Py.join "_" (tl (Py.split "_" card_id)) in
  let base_path : str :=
    "/cards/" ++ target_directory ++ "/" ++ folder_name ++ "/"
      ++ Py.str_of_int level ++ "_" ++ name_without_prefix ++ ".jpg" in
  {| id := next_id;
     name := name_without_prefix;
     level := level;
     col := folder_name;
     animated := is_animated;
     tags := target_directory;
     url := "https://hyejoo.sfo2.digitaloceanspaces.com" ++ base_path;
     shorturl := "https://cards.hyejoobot.com" ++ base_path |}.

(** [int(card_id.split('_')[0])] for a file of [valid_files]. *)
Definition level_of (file : str) : option Z :=
  let (file_name, _) := Py.splitext file in
  let card_id := Py.lower file_name in
  Py.int (hd [] (Py.split "_" card_id)).

(** The loop of [update_database] over [valid_files]. *)
Fixpoint insert_cards (folder_name target_directory : str)
    (valid_files : list str) (cs : list card) : list card * result unit :=
  match valid_files with
  | [] => (cs, Ok tt)
  | file :: rest =>
      match level_of file with
      | None => (cs, Raise ValueError)
      | Some level =>
          let c := new_card folder_name target_directory file level (next_id cs) in
          insert_cards folder_name target_directory rest (cs ++ [c])
      end
  end.

Definition new_collection (folder_name target_directory : str) : collection :=
  {| col_id := folder_name;
     col_name := Py.upper folder_name;
     col_origin := None;
     col_aliases := [folder_name];
     col_promo := false;
     col_compressed := true;
     col_rarity := -1;
     col_tags := [target_directory] |}.

(** The first block of [update_database], which the specification calls
    [ensure_collection]: the collection is looked up by its id and inserted
    when absent; the flag is the local variable [new_collection_added]. *)
Definition ensure_collection (folder_name target_directory : str)
    (cs : list collection) : list collection * bool :=
  match find_collection folder_name cs with
  | Some _ => (cs, false)
  | None => (cs ++ [new_collection folder_name target_directory], true)
  end.

(** One block of the report file. *)
Record report_block : Type := {
  group_type : str;
  collection_name : str;
  number_of_cards : Z;
  uploaded_files : list str;
  first_card_id : option Z;
  last_card_id : option Z;
  errors : list str
}.

Section Pipeline.

(** Whether [s3_client.upload_file] succeeds for a local file path. *)
Variable upload_ok : str -> bool.

(** The order in which the futures of the pool complete. *)
Variable completion : list str -> list str.

(** [upload_file]; the file is named by its path relative to
    [directory]. *)
Definition upload_file (directory relative_path folder_name target_directory : str)
    (st : list s3_object) : list s3_object * result (option str) :=
  if negb (is_valid_filename relative_path) then (st, Ok None)
  else
    let file_path := Py.path_join directory relative_path in
    if upload_ok file_path then
      (st ++ [ {| s3_key := s3_path folder_name target_directory relative_path;
                  s3_body := Some file_path;
                  s3_acl := Some ("public-read" : str);
                  s3_content_type := Some (content_type relative_path) |} ],
       Ok (Some relative_path))
    else (st, Raise (CardProcessingError 1)).

(** The tasks of the pool: every submitted task runs to its end. *)
Fixpoint run_tasks (directory folder_name target_directory : str)
    (tasks : list str) (st : list s3_object)
  : list s3_object * list (result (option str)) :=
  match tasks with
  | [] => (st, [])
  | relative_path :: rest =>
      let (st1, r) := upload_file directory relative_path folder_name target_directory st in
      let (st2, rs) := run_tasks directory folder_name target_directory rest st1 in
      (st2, r :: rs)
  end.

Definition upload_files (directory : str) (all_files : list str)
    (folder_name target_directory : str) (st : list s3_object)
  : list s3_object * result (list str) :=
  let (st', results) :=
    run_tasks directory folder_name target_directory (completion all_files) st in
  (st', Common.gather results []).

(** [update_database]: whatever is raised inside is raised again as
    [CardProcessingError] with code 2; the documents written before stay
    in the store.  The flag [new_collection_added] is not used after the
    first block: the value returned is the constant [True]. *)
Definition update_database (directory target_directory : str)
    (valid_files : list str) (d : database) : database * result bool :=
  let folder_name := Py.basename directory in
  let (collections', new_collection_added) :=
    ensure_collection folder_name target_directory (collections d) in
  let (cards', r) := insert_cards folder_name target_directory valid_files (cards d) in
  ({| collections := collections'; cards := cards' |},
   match r with
   | Ok _ => Ok true
   | Raise _ => Raise (CardProcessingError 2)
   end).

(** [process_directory]: both handlers return [([], False)]. *)
Definition process_directory (input_directory : local_dir)
    (target_directory : str) (w : world) : world * (list str * bool) :=
  let folder_name := Py.basename (dir_path input_directory) in
  let st1 := create_folder folder_name target_directory (store w) in
  let files := Common.rename_files (dir_files input_directory) in
  let (st2, uploaded) :=
    upload_files (dir_path input_directory) files folder_name target_directory st1 in
  match uploaded with
  | Raise _ => ({| store := st2; db := db w |}, ([], false))
  | Ok valid_files =>
      let (d', updated) :=
        update_database (dir_path input_directory) target_directory valid_files (db w) in
      match updated with
      | Raise _ => ({| store := st2; db := d' |}, ([], false))
      | Ok new_collection_added =>
          ({| store := st2; db := d' |}, (valid_files, new_collection_added))
      end
  end.

Definition write_output_file (input_directory : local_dir)
    (valid_files : list str) (target_directory : str)
    (error_messages : list str) (d : database) : report_block :=
  let collection := Py.basename (dir_path input_directory) in
  let of_collection := filter (fun c => str_eqb (col c) collection) (cards d) in
  {| group_type := target_directory;
     collection_name := collection;
     number_of_cards := Z.of_nat (List.length valid_files);
     uploaded_files := valid_files;
     first_card_id := option_map id (find_first_card of_collection);
     last_card_id := option_map id (find_last_card of_collection);
     errors := error_messages |}.

(** The inner loop of [main] over the directories of one group;
    [process_directory] raises nothing, so the handler of [main] is
    never entered and [error_messages] stays empty. *)
Fixpoint process_group (target_directory : str) (dirs : list local_dir)
    (w : world) (report : list report_block) : world * list report_block :=
  match dirs with
  | [] => (w, report)
  | input_directory :: rest =>
      let error_messages : list str := [] in
      let '(w', (valid_files, _)) :=
        process_directory input_directory target_directory w in
      let block :=
        write_output_file input_directory valid_files target_directory
          error_messages (db w') in
      process_group target_directory rest w' (report ++ [block])
  end.

(** [main]: the girl groups, then the boy groups. *)
Definition main (girlgroups boygroups : list local_dir)
    (w : world) (report : list report_block) : world * list report_block :=
  let (w1, report1) := process_group "girlgroups" girlgroups w report in
  process_group "boygroups" boygroups w1 report1.

End Pipeline.

End Automate.

(** ** promoauto.py: the JSON-file variant *)

Module Promoauto.

Definition ACCEPTED_EXTENSIONS : list str :=
  [".jpg" : str; ".png" : str; ".jpeg" : str; ".gif" : str].

(** The pattern [\d+_\w+_\w+\.\w+]. *)
Definition pattern : Re.regex :=
  Re.Seq (Re.Plus Re.digit)
    (Re.Seq (Re.Chr "_")
       (Re.Seq (Re.Plus Re.word)
          (Re.Seq (Re.Chr "_")
             (Re.Seq (Re.Plus Re.word)
                (Re.Seq (Re.Chr ".") (Re.Plus Re.word)))))).

Definition is_valid_filename (filename : str) : bool :=
  Re.re_match pattern filename.

(** Entries of [collections.json] and [cards.json]; the time stamp [added]
    is left out. *)
Record collection : Type := {
  col_id : str;
  col_name : str;
  col_origin : option str;
  col_aliases : list str;
  col_promo : bool;
  col_compressed : bool;
  col_rarity : Z;
  col_tags : list str
}.

Record card : Type := {
  name : str;
  level : Z;
  animated : bool;
  col : str;
  id : Z;
  tags : str
}.

Record catalog : Type := {
  cards_data : list card;
  collections_data : list collection
}.

Record world : Type := {
  store : list s3_object;
  files : catalog
}.

Definition create_folder (folder_name target_directory : str)
    (st : list s3_object) : list s3_object :=
  st ++ [ {| s3_key := target_directory ++ "/" ++ folder_name ++ "/";
             s3_body := None; s3_acl := None; s3_content_type := None |} ].

Definition s3_path (folder_name target_directory relative_path : str) : str :=
  let (file_name, file_ext) := Py.splitext relative_path in
  let new_file_ext :=
    if str_eqb (Py.lower file_ext) ".gif" then file_ext else ".jpg" : str in
  let relative_path_new_ext := file_name ++ new_file_ext in
  target_directory ++ "/" ++ folder_name ++ "/" ++ relative_path_new_ext.

Definition content_type (relative_path : str) : str :=
  let (_, file_ext) := Py.splitext relative_path in
  if str_eqb (Py.lower file_ext) ".gif" then "image/gif" else "image/jpeg".

(** [max(card["id"] for card in cards_data if "id" in card) + 1 if
    cards_data else 0]; every card of the embedding carries an id. *)
Definition first_next_id (cards_data : list card) : Z :=
  match cards_data with
  | [] => 0
  | c :: rest => fold_left Z.max (map id rest) (id c) + 1
  end.

Definition new_collection (folder_name target_directory : str) : collection :=
  {| col_id := folder_name;
     col_name := Py.upper folder_name;
     col_origin := None;
     col_aliases := [folder_name];
     col_promo := false;
     col_compressed := true;
     col_rarity := -1;
     col_tags := [target_directory] |}.

(** The block of [update_json_files] that the specification calls
    [ensure_collection]; the flag is the local variable
    [new_collection_added]. *)
Definition ensure_collection (folder_name target_directory : str)
    (cs : list collection) : list collection * bool :=
  if negb (existsb (fun c => str_eqb (col_id c) folder_name) cs)
  then (cs ++ [new_collection folder_name target_directory], true)
  else (cs, false).

(** [next((card for card in cards_data if card["name"] == name and
    card["col"] == folder_name), None)]. *)
Definition existing_card (name_without_prefix folder_name : str)
    (cards_data : list card) : option card :=
  find (fun c => str_eqb (name c) name_without_prefix && str_eqb (col c) folder_name)
    cards_data.

(** The loop of [update_json_files] over the file names [os.walk] yields.
    An exception leaves the loop; the lists in memory are then dropped. *)
Fixpoint add_cards (folder_name target_directory : str) (valid_files : list str)
    (walked : list str) (cards_data : list card) (next_id : Z)
  : result (list card) :=
  match walked with
  | [] => Ok cards_data
  | file :: rest =>
      if negb (existsb (str_eqb file) valid_files) then
        add_cards folder_name target_directory valid_files rest cards_data next_id
      else
        let (file_name, file_ext) := Py.splitext file in
        let is_animated := str_eqb (Py.lower file_ext) ".gif" in
        if existsb (str_eqb (Py.lower file_ext))
             (ACCEPTED_EXTENSIONS ++ [".gif" : str]) then
          let card_id := Py.lower file_name in
          match Py.int (hd [] (Py.split "_" card_id)) with
          | None => Raise ValueError
          | Some level =>
              let name_without_prefix := Py.join "_" (tl (Py.split "_" card_id)) in
              match existing_card name_without_prefix folder_name cards_data with
              | Some _ =>
                  add_cards folder_name target_directory valid_files rest
                    cards_data next_id
              | None =>
                  let new_card :=
                    {| name := name_without_prefix;
                       level := level;
                       animated := is_animated;
                       col := folder_name;
                       id := next_id;
                       tags := target_directory |} in
                  add_cards folder_name target_directory valid_files rest
                    (cards_data ++ [new_card]) (next_id + 1)
              end
          end
        else
          add_cards folder_name target_directory valid_files rest cards_data next_id
  end.

Section Pipeline.

Variable upload_ok : str -> bool.
Variable completion : list str -> list str.

Definition upload_file (directory relative_path folder_name target_directory : str)
    (st : list s3_object) : list s3_object * result (option str) :=
  if negb (is_valid_filename relative_path) then (st, Ok None)
  else
    let file_path := Py.path_join directory relative_path in
    if upload_ok file_path then
      (st ++ [ {| s3_key := s3_path folder_name target_directory relative_path;
                  s3_body := Some file_path;
                  s3_acl := Some ("public-read" : str);
                  s3_content_type := Some (content_type relative_path) |} ],
       Ok (Some relative_path))
    else (st, Raise (CardProcessingError 1)).

Fixpoint run_tasks (directory folder_name target_directory : str)
    (tasks : list str) (st : list s3_object)
  : list s3_object * list (result (option str)) :=
  match tasks with
  | [] => (st, [])
  | relative_path :: rest =>
      let (st1, r) := upload_file directory relative_path folder_name target_directory st in
      let (st2, rs) := run_tasks directory folder_name target_directory rest st1 in
      (st2, r :: rs)
  end.

Definition upload_files (directory : str) (all_files : list str)
    (folder_name target_directory : str) (st : list s3_object)
  : list s3_object * result (list str) :=
  let (st', results) :=
    run_tasks directory folder_name target_directory (completion all_files) st in
  (st', Common.gather results []).

(** [update_json_files]: the two files are read, the lists are changed in
    memory and written back at the end; an exception in between is raised
    again as [CardProcessingError] with code 2 and the files keep their
    content.  The function has no [return]: the flag
    [new_collection_added] stays inside and the caller receives [None]. *)
Definition update_json_files (directory : local_dir) (target_directory : str)
    (valid_files : list str) (f : catalog) : catalog * result (option bool) :=
  let folder_name := Py.basename (dir_path directory) in
  let next_id := first_next_id (cards_data f) in
  let (collections', new_collection_added) :=
    ensure_collection folder_name target_directory (collections_data f) in
  match add_cards folder_name target_directory valid_files
          (map Py.basename (dir_files directory)) (cards_data f) next_id with
  | Ok cards' =>
      ({| cards_data := cards'; collections_data := collections' |}, Ok None)
  | Raise _ => (f, Raise (CardProcessingError 2))
  end.

(** [process_directory]; [None] stands for the value of a call that
    returns nothing. *)
Definition process_directory (input_directory : local_dir)
    (target_directory promo_prefix : str) (w : world)
  : world * (list str * option bool) :=
  let folder_name := Py.basename (dir_path input_directory) in
  let st1 := create_folder folder_name (promo_prefix ++ target_directory) (store w) in
  let renamed := Common.rename_files (dir_files input_directory) in
  let (st2, uploaded) :=
    upload_files (dir_path input_directory) renamed folder_name
      (promo_prefix ++ target_directory) st1 in
  match uploaded with
  | Raise _ => ({| store := st2; files := files w |}, ([], Some false))
  | Ok valid_files =>
      let (f', updated) :=
        update_json_files
          {| dir_path := dir_path input_directory; dir_files := renamed |}
          target_directory valid_files (files w) in
      match updated with
      | Raise _ => ({| store := st2; files := f' |}, ([], Some false))
      | Ok new_collection_added =>
          ({| store := st2; files := f' |}, (valid_files, new_collection_added))
      end
  end.

(** An exception that nothing catches: it ends the run. *)
Inductive uncaught : Type :=
| IndexError.

(** Whether an [if] takes the value of [new_collection_added] for true. *)
Definition truthy (flag : option bool) : bool :=
  match flag with
  | Some true => true
  | _ => false
  end.

(** [write_output_file]; the report file is the list of the strings
    written to it, one for each call of [f.write] and without the newline
    that ends it (a string is one line of the file unless a file or folder
    name in it holds a newline).  The strings up to the uploaded files are
    written before [cards.json] is read: they are in the file when
    [cards_data[-len(valid_files)]] is out of range ([indexed] is then
    [None]). *)
Definition write_output_file (out : list str) (input_directory : str)
    (valid_files : list str) (last_card_id : option Z)
    (new_collection_added : option bool) (cards_data : list card)
    (target_directory : str) (error_messages : list str)
  : list str * option uncaught :=
  let collection := Py.basename input_directory in
  let out1 :=
    out
    ++ [ "Group Type: " ++ target_directory;
         "Collection Name: " ++ collection;
         "Number of Cards: " ++ Py.str_of_int (Z.of_nat (List.length valid_files));
         "Uploaded Files:" : str ]
    ++ map (fun file => "  " ++ file) valid_files in
  let indexed : option (option Z) :=
    match cards_data, valid_files with
    | _ :: _, _ :: _ =>
        option_map (fun c => Some (id c))
          (Py.index_from_end cards_data (List.length valid_files))
    | _, _ => Some None
    end in
  match indexed with
  | None => (out1, Some IndexError)
  | Some first_card_id =>
      (out1
       ++ [ "First Card ID: " ++ Py.str_of_optional_int first_card_id;
            "Last Card ID: " ++ Py.str_of_optional_int last_card_id ]
       ++ match error_messages with
          | [] => []
          | _ :: _ => ["Errors:" : str]
          end
       ++ map (fun error_message => "  " ++ error_message) error_messages
       ++ [ [] : str ]
       ++ [ if truthy new_collection_added
            then "New collection '" ++ collection ++ "' added."
            else "Collection '" ++ collection ++ "' updated." ]
       ++ [ [] : str ],
       None)
  end.

(** The inner loop of [main] over the directories of one group.
    [process_directory] raises nothing, so the handler of [main] is never
    entered; [write_output_file] is called outside of it. *)
Fixpoint process_group (target_directory promo_prefix actual_target_directory : str)
    (dirs : list local_dir) (w : world) (out : list str)
  : world * list str * option uncaught :=
  match dirs with
  | [] => (w, out, None)
  | input_directory :: rest =>
      let error_messages : list str := [] in
      let '(w', (valid_files, new_collection_added)) :=
        process_directory input_directory actual_target_directory promo_prefix w in
      let cards := cards_data (files w') in
      let last_card_id := option_map id (Py.index_from_end cards 1) in
      let (out', raised) :=
        write_output_file out (dir_path input_directory) valid_files last_card_id
          new_collection_added cards target_directory error_messages in
      match raised with
      | Some e => (w', out', Some e)
      | None =>
          process_group target_directory promo_prefix actual_target_directory
            rest w' out'
      end
  end.

(** The outer loop of [main] over the groups. *)
Fixpoint process_groups (targets : list str) (input_directories : str -> list local_dir)
    (w : world) (out : list str) : world * list str * option uncaught :=
  match targets with
  | [] => (w, out, None)
  | target_directory :: rest =>
      let promo_prefix : str :=
        if Py.contains "promo" target_directory then "promo/" else "" in
      let actual_target_directory := Py.replace_str "promo_" "" target_directory in
      let '(w', out', raised) :=
        process_group target_directory promo_prefix actual_target_directory
          (input_directories target_directory) w out in
      match raised with
      | Some e => (w', out', Some e)
      | None => process_groups rest input_directories w' out'
      end
  end.

Definition main (input_directories : str -> list local_dir)
    (w : world) (out : list str) : world * list str * option uncaught :=
  process_groups
    ["girlgroups" : str; "boygroups" : str; "promo_girlgroups" : str;
     "promo_boygroups" : str]
    input_directories w out.

End Pipeline.

End Promoauto.

(** ** The specification's wording of the accepted shape *)

Module Spec.



End Spec.

Unset Implicit Arguments.

(** ** Vocabulary of the statements *)

(** The length of the stem that [os.path.splitext] cuts off. *)
Definition stem_length (p : str) : nat := List.length (fst (Py.splitext p)).

(** What [rename_files] does to one character of the stem. *)
Definition norm_char (c : ascii) : ascii :=
  if Ascii.eqb (Py.lower_char c) " " then "_"%char else Py.lower_char c.

(** A non-empty run of digits, of word characters. *)
Definition digits_run (s : str) : Prop :=
  s <> [] /\ forallb Py.is_digit s = true.

Definition word_run (s : str) : Prop :=
  s <> [] /\ forallb Py.is_word s = true.



(** The specification's next identifier: [max(existing IDs) + 1], or [0]
    if the catalog is empty. *)
Definition max_plus_one (ids : list Z) (n : Z) : Prop :=
  match ids with
  | [] => n = 0
  | _ => exists m, In m ids /\ (forall k, In k ids -> k <= m) /\ n = m + 1
  end.

(** The identifiers [start, start + 1, ..., start + n - 1]. *)
Definition id_range (start : Z) (n : nat) : list Z :=
  map (fun k => start + Z.of_nat k) (seq 0 n).

(** A card of automate.py built from a file of [valid_files]. *)
Definition built_from (folder_name target_directory file : str)
    (c : Automate.card) : Prop :=
  exists level,
    Automate.level_of file = Some level
    /\ c = Automate.new_card folder_name target_directory file level (Automate.id c).

(** What one upload task returns: nothing for a rejected name, the relative
    path after a successful upload, an error of code 1 otherwise. *)
Definition task_outcome (valid : str -> bool) (upload_ok : str -> bool)
    (directory relative_path : str) : result (option str) :=
  if negb (valid relative_path) then Ok None
  else if upload_ok (Py.path_join directory relative_path)
       then Ok (Some relative_path)
       else Raise (CardProcessingError 1).

(** A validly named file whose upload fails. *)
Definition upload_fails (valid : str -> bool) (upload_ok : str -> bool)
    (directory relative_path : str) : bool :=
  valid relative_path && negb (upload_ok (Py.path_join directory relative_path)).

(** The object [upload_file] of automate.py writes for a relative path. *)
Definition automate_object (directory folder_name target_directory relative_path : str)
  : s3_object :=
  {| s3_key := Automate.s3_path folder_name target_directory relative_path;
     s3_body := Some (Py.path_join directory relative_path);
     s3_acl := Some ("public-read" : str);
     s3_content_type := Some (Automate.content_type relative_path) |}.

(** The tasks of a directory: its renamed files in completion order. *)
Definition tasks_of (completion : list str -> list str) (d : local_dir) : list str :=
  completion (Common.rename_files (dir_files d)).

(** The bucket after the uploads of a directory. *)
Definition store_after (upload_ok : str -> bool) (completion : list str -> list str)
    (d : local_dir) (target_directory : str) (st : list s3_object)
  : list s3_object :=
  Automate.create_folder (Py.basename (dir_path d)) target_directory st
  ++ map (automate_object (dir_path d) (Py.basename (dir_path d)) target_directory)
       (filter (fun rel => Automate.is_valid_filename rel
                           && upload_ok (Py.path_join (dir_path d) rel))
          (tasks_of completion d)).

(** A card of promoauto.py built from a file name. *)
Definition promo_built_from (folder_name target_directory file : str)
    (c : Promoauto.card) : Prop :=
  let card_id := Py.lower (fst (Py.splitext file)) in
  exists level,
    Py.int (hd [] (Py.split "_" card_id)) = Some level
    /\ c = {| Promoauto.name := Py.join "_" (tl (Py.split "_" card_id));
              Promoauto.level := level;
              Promoauto.animated := str_eqb (Py.lower (snd (Py.splitext file))) ".gif";
              Promoauto.col := folder_name;
              Promoauto.id := Promoauto.id c;
              Promoauto.tags := target_directory |}.

(** The name [update_json_files] gives the card of a file: the lower-cased
    stem without its level. *)
Definition promo_name (file : str) : str :=
  Py.join "_" (tl (Py.split "_" (Py.lower (fst (Py.splitext file))))).

(** A file name of the walk that [update_json_files] does not pass over: it
    is among the uploaded files, its name is validated and its extension is
    an accepted one. *)
Definition cataloged (valid_files : list str) (file : str) : Prop :=
  In file valid_files
  /\ Promoauto.is_valid_filename file = true
  /\ In (Py.lower (snd (Py.splitext file))) Promoauto.ACCEPTED_EXTENSIONS.

(** The object [upload_file] of promoauto.py writes for a relative path. *)
Definition promoauto_object (directory folder_name target_directory relative_path : str)
  : s3_object :=
  {| s3_key := Promoauto.s3_path folder_name target_directory relative_path;
     s3_body := Some (Py.path_join directory relative_path);
     s3_acl := Some ("public-read" : str);
     s3_content_type := Some (Promoauto.content_type relative_path) |}.

(** A string of ASCII characters.  On these [\d] is [0-9], [\w] is
    [A-Za-z0-9_] and [str.lower] changes the letters [A-Z] only. *)
Definition ascii_only (s : str) : Prop := forallb Py.is_ascii s = true.

(** The path of a file after [rename_files]: the directory that holds it is
    kept, the file gets its new name. *)
Definition renamed_path (rel : str) : str :=
  Py.dirpart rel ++ Common.new_file_name (Py.basename rel).

(** What [rename_files] may do to one character: keep it, or lower-case it
    and turn a space into an underscore. *)
Definition renames_to (a b : ascii) : Prop := b = a \/ b = norm_char a.

(** Every card of a database of automate.py names a collection of that
    database. *)
Definition references_ok (d : Automate.database) : Prop :=
  forall c, In c (Automate.cards d) ->
    exists k, In k (Automate.collections d) /\ Automate.col_id k = Automate.col c.

(** The key under which [update_json_files] looks for an existing card. *)
Definition card_key (c : Promoauto.card) : str * str :=
  (Promoauto.name c, Promoauto.col c).

(** The invariants of the store of automate.py: card identifiers and
    collection ids are unique and every card names a stored collection. *)
Definition catalog_ok (d : Automate.database) : Prop :=
  NoDup (map Automate.id (Automate.cards d))
  /\ NoDup (map Automate.col_id (Automate.collections d))
  /\ references_ok d.

(** A store that holds the documents of another, in their order, and
    possibly more after them. *)
Definition extends (d d' : Automate.database) : Prop :=
  (exists new, Automate.cards d' = Automate.cards d ++ new)
  /\ (exists added, Automate.collections d' = Automate.collections d ++ added).

(** What [write_output_file] of promoauto.py writes of a block before it
    reads [cards.json]: one string for each call of [f.write]. *)
Definition block_head (target_directory input_directory : str)
    (valid_files : list str) : list str :=
  [ "Group Type: " ++ target_directory;
    "Collection Name: " ++ Py.basename input_directory;
    "Number of Cards: " ++ Py.str_of_int (Z.of_nat (List.length valid_files));
    "Uploaded Files:" : str ]
  ++ map (fun file => "  " ++ file) valid_files.

(** A string written to the report that neither announces a new collection
    nor opens the list of errors. *)
Definition plain_write (written : str) : Prop :=
  Py.starts_with "New collection" written = false
  /\ Py.starts_with "Errors:" written = false.

(** A decimal numeral the way [str] writes a non-negative [int]: digits,
    with no leading zero unless it is ["0"] itself. *)
Definition canonical_digits (s : str) : Prop :=
  forallb Py.is_digit s = true
  /\ (s = ["0"%char] \/ exists c s', s = c :: s' /\ c <> "0"%char).

(** * Properties *)

(** ** The models of the library functions on sample inputs *)

Example splitext_png : Py.splitext "3_iu.png" = ("3_iu" : str, ".png" : str).
Proof. reflexivity. Qed.

Example splitext_hidden : Py.splitext ".cshrc" = (".cshrc" : str, [] : str).
Proof. reflexivity. Qed.

Example splitext_dir : Py.splitext "1_a.b/c" = ("1_a.b/c" : str, [] : str).
Proof. reflexivity. Qed.

Example split_ex :
  Py.split "_" "12_red_velvet" = ["12" : str; "red" : str; "velvet" : str].
Proof. reflexivity. Qed.

Example int_ex : Py.int "012" = Some 12 /\ Py.int "" = None /\ Py.int "1a" = None.
Proof. repeat split; reflexivity. Qed.

Example str_of_int_ex :
  Py.str_of_int 12 = ("12" : str) /\ Py.str_of_int 0 = ("0" : str)
  /\ Py.str_of_int (-3) = ("-3" : str).
Proof. repeat split; reflexivity. Qed.

Example valid_names :
  Automate.is_valid_filename "3_iu.png" = true
  /\ Automate.is_valid_filename "iu.png" = false
  /\ Promoauto.is_valid_filename "3_iu.png" = false
  /\ Promoauto.is_valid_filename "12_red_velvet_irene.jpg" = true.
Proof. repeat split; reflexivity. Qed.

Example new_file_name_ex :
  Common.new_file_name "My File.JPG" = ("my_file.JPG" : str).
Proof. reflexivity. Qed.

(** ** The regular-expression matcher agrees with the language of a pattern *)

Section RegexFacts.

Import Re.

Lemma lang_seq_inv r1 r2 s :
  lang (Seq r1 r2) s <-> exists s1 s2, s = s1 ++ s2 /\ lang r1 s1 /\ lang r2 s2.
Proof.
  split.
  - intros H. inversion H; subst. eauto.
  - intros (s1 & s2 & -> & H1 & H2). now constructor.
Qed.

Lemma lang_alt_inv r1 r2 s : lang (Alt r1 r2) s <-> lang r1 s \/ lang r2 s.
Proof.
  split.
  - intros H. inversion H; subst; auto.
  - intros [H | H]; [now apply L_alt_l | now apply L_alt_r].
Qed.

Lemma lang_eps_inv s : lang Eps s <-> s = [].
Proof.
  split.
  - intros H. now inversion H.
  - intros ->. constructor.
Qed.

Lemma lang_cls_inv p s : lang (Cls p) s <-> exists c, s = [c] /\ p c = true.
Proof.
  split.
  - intros H. inversion H; subst. eauto.
  - intros (c & -> & H). now constructor.
Qed.

Lemma lang_void_inv s : ~ lang Void s.
Proof. intros H. inversion H. Qed.

Lemma nullable_lang r : nullable r = true <-> lang r [].
Proof.
  split.
  - induction r; simpl; intros H; try discriminate.
    + constructor.
    + apply andb_true_iff in H as [H1 H2].
      change (@nil ascii) with (@nil ascii ++ []). constructor; auto.
    + apply orb_true_iff in H as [H | H]; [apply L_alt_l | apply L_alt_r]; auto.
    + constructor.
  - intros H. remember [] as s eqn:E. induction H; simpl; auto.
    + discriminate.
    + apply app_eq_nil in E as [-> ->]. rewrite IHlang1, IHlang2; auto.
    + rewrite IHlang; auto.
    + rewrite IHlang; auto. apply orb_true_r.
Qed.

Lemma deriv_sound c r : forall s, lang (deriv c r) s -> lang r (c :: s).
Proof.
  induction r; simpl; intros s H.
  - inversion H.
  - inversion H.
  - destruct (b c) eqn:E; inversion H; subst. now constructor.
  - assert (Hseq : lang (Seq (deriv c r1) r2) s -> lang (Seq r1 r2) (c :: s)).
    { intros H'. apply lang_seq_inv in H' as (s1 & s2 & -> & H1 & H2).
      change (c :: s1 ++ s2) with ((c :: s1) ++ s2). constructor; auto. }
    destruct (nullable r1) eqn:N; auto.
    apply lang_alt_inv in H as [H | H]; auto.
    change (c :: s) with ([] ++ c :: s). constructor; auto.
    now apply nullable_lang.
  - apply lang_alt_inv in H as [H | H]; [apply L_alt_l | apply L_alt_r]; auto.
  - apply lang_seq_inv in H as (s1 & s2 & -> & H1 & H2).
    change (c :: s1 ++ s2) with ((c :: s1) ++ s2). constructor; auto.
Qed.

Lemma deriv_complete c r w :
  lang r w -> forall t, w = c :: t -> lang (deriv c r) t.
Proof.
  induction 1; intros t E; simpl.
  - discriminate.
  - injection E as -> <-. rewrite H. constructor.
  - destruct s1 as [|c1 s1]; simpl in E.
    + subst s2. assert (N : nullable r1 = true) by now apply nullable_lang.
      rewrite N. apply L_alt_r. auto.
    + injection E as -> <-.
      assert (Hs : lang (Seq (deriv c r1) r2) (s1 ++ s2)) by (constructor; auto).
      destruct (nullable r1); auto. now apply L_alt_l.
  - apply L_alt_l; auto.
  - apply L_alt_r; auto.
  - discriminate.
  - destruct s1 as [|c1 s1]; simpl in E.
    + auto.
    + injection E as -> <-. constructor; auto.
Qed.

Lemma deriv_lang c r s : lang (deriv c r) s <-> lang r (c :: s).
Proof.
  split; [apply deriv_sound | intros H; eapply deriv_complete; eauto].
Qed.

(** [fullmatch] decides the language. *)
Lemma fullmatch_lang s : forall r, fullmatch r s = true <-> lang r s.
Proof.
  induction s as [|c s IH]; intros r; simpl.
  - apply nullable_lang.
  - rewrite IH. apply deriv_lang.
Qed.

(** [re_match] succeeds exactly when a prefix of the subject is in the
    language of the pattern. *)
Lemma re_match_prefix s :
  forall r, re_match r s = true <-> exists p q, s = p ++ q /\ lang r p.
Proof.
  induction s as [|c s IH]; intros r; simpl.
  - rewrite orb_false_r, nullable_lang. split.
    + intros H. exists [], []. auto.
    + intros (p & q & E & H). symmetry in E. apply app_eq_nil in E as [-> _]. auto.
  - rewrite orb_true_iff, nullable_lang, IH. split.
    + intros [H | (p & q & -> & H)].
      * exists [], (c :: s). auto.
      * exists (c :: p), q. split; auto. now apply deriv_lang.
    + intros (p & q & E & H). destruct p as [|c' p]; auto.
      simpl in E. injection E as <- ->. right. exists p, q. split; auto.
      now apply deriv_lang.
Qed.

Lemma lang_star_cls p s : lang (Star (Cls p)) s <-> forallb p s = true.
Proof.
  split.
  - intros H. remember (Star (Cls p)) as r eqn:E.
    induction H; try discriminate; auto.
    injection E as ->. apply lang_cls_inv in H as (c & -> & Hc).
    simpl. rewrite Hc. auto.
  - induction s as [|c s IH]; simpl; intros H.
    + constructor.
    + apply andb_true_iff in H as [Hc Hs].
      change (c :: s) with ([c] ++ s). constructor; auto. now constructor.
Qed.

(** [\d+], [\w+]: a non-empty run of characters of the class. *)
Lemma lang_plus_cls p s :
  lang (Plus (Cls p)) s <-> s <> [] /\ forallb p s = true.
Proof.
  unfold Plus. rewrite lang_seq_inv. split.
  - intros (s1 & s2 & -> & H1 & H2).
    apply lang_cls_inv in H1 as (c & -> & Hc). apply lang_star_cls in H2.
    simpl. rewrite Hc, H2. split; [discriminate | reflexivity].
  - intros [Hn H]. destruct s as [|c s]; [congruence|].
    simpl in H. apply andb_true_iff in H as [Hc Hs].
    exists [c], s. repeat split; auto.
    + now constructor.
    + now apply lang_star_cls.
Qed.

Lemma lang_chr c s : lang (Chr c) s <-> s = [c].
Proof.
  unfold Chr. rewrite lang_cls_inv. split.
  - intros (c' & -> & H). apply Ascii.eqb_eq in H. now subst.
  - intros ->. exists c. split; auto. apply Ascii.eqb_refl.
Qed.

End RegexFacts.

(** ** Paths and strings *)

Section PathFacts.

Import Py.

Lemma rfind_from_bounds c s : forall i found,
  let r := rfind_from i c s found in
  r = found \/ (i <= r < i + Z.of_nat (List.length s)).
Proof.
  induction s as [|x s IH]; intros i found; simpl; auto.
  specialize (IH (i + 1) (if Ascii.eqb x c then i else found)). simpl in IH.
  destruct IH as [IH | IH].
  - rewrite IH. destruct (Ascii.eqb x c); auto. right. lia.
  - right. lia.
Qed.

Lemma rfind_bounds c s : -1 <= rfind c s < Z.of_nat (List.length s).
Proof.
  unfold rfind. pose proof (rfind_from_bounds c s 0 (-1)) as H. simpl in H. lia.
Qed.

Lemma rfind_from_lower c s : forall i found,
  found < i -> found <= rfind_from i c s found.
Proof.
  induction s as [|x s IH]; intros i found Hi; simpl; try lia.
  destruct (Ascii.eqb x c).
  - pose proof (IH (i + 1) i). lia.
  - pose proof (IH (i + 1) found). lia.
Qed.

(** A character that occurs is found at its place or further right. *)
Lemma rfind_from_occurs c a b : forall i found,
  i + Z.of_nat (List.length a) <= rfind_from i c (a ++ c :: b) found.
Proof.
  induction a as [|x a IH]; intros i found; simpl.
  - rewrite Ascii.eqb_refl. pose proof (rfind_from_lower c b (i + 1) i). lia.
  - pose proof (IH (i + 1) (if Ascii.eqb x c then i else found)). lia.
Qed.

Lemma rfind_occurs c a b : Z.of_nat (List.length a) <= rfind c (a ++ c :: b).
Proof. unfold rfind. pose proof (rfind_from_occurs c a b 0 (-1)). lia. Qed.

(** [rfind] sees a string only through the places where the character
    stands. *)
Lemma rfind_from_ext c s : forall t i found,
  map (fun x => Ascii.eqb x c) s = map (fun x => Ascii.eqb x c) t ->
  rfind_from i c s found = rfind_from i c t found.
Proof.
  induction s as [|x s IH]; intros [|y t] i found E; simpl in *;
    try discriminate; auto.
  injection E as E1 E2. rewrite E1. auto.
Qed.

Lemma rfind_ext c p q :
  map (Ascii.eqb c) p = map (Ascii.eqb c) q -> rfind c p = rfind c q.
Proof.
  intros E. apply rfind_from_ext.
  rewrite !(map_ext (fun x => Ascii.eqb x c) (Ascii.eqb c)); auto;
    intros; apply Ascii.eqb_sym.
Qed.

Lemma forallb_through_map (f : ascii -> bool) s :
  forallb f s = forallb (fun b : bool => b) (map f s).
Proof. induction s as [|x s IH]; simpl; congruence. Qed.

Lemma splitext_app p : fst (splitext p) ++ snd (splitext p) = p.
Proof.
  unfold splitext.
  destruct (rfind "/" p <? rfind "." p).
  - destruct (forallb _ _); simpl.
    + apply app_nil_r.
    + apply firstn_skipn.
  - simpl. apply app_nil_r.
Qed.

(** What precedes a dot of the path belongs to the stem. *)
Lemma splitext_stem_prefix a b :
  exists t, fst (splitext (a ++ "."%char :: b)) = a ++ t.
Proof.
  unfold splitext. set (p := a ++ "."%char :: b).
  pose proof (rfind_occurs "." a b) as Hdot. fold p in Hdot.
  assert (Hfirst :
    exists t, firstn (Z.to_nat (rfind "." p)) p = a ++ t).
  { replace (Z.to_nat (rfind "." p))
      with (List.length a + (Z.to_nat (rfind "." p) - List.length a))%nat by lia.
    unfold p at 2. rewrite firstn_app_2. eauto. }
  destruct (rfind "/" p <? rfind "." p).
  - destruct (forallb _ _); simpl; auto. unfold p. eauto.
  - simpl. unfold p. eauto.
Qed.

Lemma splitext_by_length p :
  splitext p = (firstn (stem_length p) p, skipn (stem_length p) p).
Proof.
  unfold stem_length. pose proof (splitext_app p) as H.
  destruct (splitext p) as [a b]; simpl in *. subst p.
  rewrite firstn_app, firstn_all, Nat.sub_diag, skipn_app, skipn_all, Nat.sub_diag.
  simpl. now rewrite app_nil_r.
Qed.

Lemma stem_length_ext p q :
  map (Ascii.eqb ".") p = map (Ascii.eqb ".") q ->
  map (Ascii.eqb "/") p = map (Ascii.eqb "/") q ->
  stem_length p = stem_length q.
Proof.
  intros Hd Hs. unfold stem_length, splitext.
  assert (Hlen : List.length p = List.length q).
  { rewrite <- (length_map (Ascii.eqb ".") p), Hd. apply length_map. }
  assert (Ed : rfind "." p = rfind "." q) by now apply rfind_ext.
  assert (Es : rfind "/" p = rfind "/" q) by now apply rfind_ext.
  rewrite Ed, Es.
  assert (Ef : forallb (Ascii.eqb ".") (slice p (rfind "/" q + 1) (rfind "." q))
             = forallb (Ascii.eqb ".") (slice q (rfind "/" q + 1) (rfind "." q))).
  { unfold slice.
    rewrite (forallb_through_map (Ascii.eqb ".") (firstn _ (skipn _ p))).
    rewrite (forallb_through_map (Ascii.eqb ".") (firstn _ (skipn _ q))).
    rewrite <- !firstn_map, <- !skipn_map, Hd. reflexivity. }
  rewrite Ef. clear Ef.
  destruct (rfind "/" q <? rfind "." q); simpl; auto.
  destruct (forallb _ _); simpl; auto.
  rewrite !length_firstn. lia.
Qed.

End PathFacts.

(** ** Normalisation of file names *)

Section Normalisation.

Import Py.

(** Every character is one of the 256 bytes: a property of one character is
    settled by running through them. *)
Ltac by_bytes c :=
  destruct c as [[] [] [] [] [] [] [] []]; vm_compute; reflexivity.

Lemma replace_lower s : replace " " "_" (lower s) = map norm_char s.
Proof. unfold replace, lower. now rewrite map_map. Qed.

Lemma norm_char_dot c : Ascii.eqb "." (norm_char c) = Ascii.eqb "." c.
Proof. by_bytes c. Qed.

Lemma norm_char_sep c : Ascii.eqb "/" (norm_char c) = Ascii.eqb "/" c.
Proof. by_bytes c. Qed.

Lemma norm_char_idem c : norm_char (norm_char c) = norm_char c.
Proof. by_bytes c. Qed.

Lemma firstn_at_length (a b : str) n :
  List.length a = n -> firstn n (a ++ b) = a.
Proof.
  intros <-. rewrite firstn_app, firstn_all, Nat.sub_diag. simpl. apply app_nil_r.
Qed.

Lemma skipn_at_length (a b : str) n :
  List.length a = n -> skipn n (a ++ b) = b.
Proof.
  intros <-. rewrite skipn_app, skipn_all, Nat.sub_diag. reflexivity.
Qed.

Lemma new_file_name_eq x :
  Common.new_file_name x
  = map norm_char (firstn (stem_length x) x) ++ skipn (stem_length x) x.
Proof.
  unfold Common.new_file_name. rewrite splitext_by_length.
  now rewrite replace_lower.
Qed.

Lemma stem_length_le x : (stem_length x <= List.length x)%nat.
Proof.
  unfold stem_length. pose proof (splitext_app x) as H.
  rewrite <- H at 2. rewrite length_app. lia.
Qed.

Lemma stem_length_new_file_name x :
  stem_length (Common.new_file_name x) = stem_length x.
Proof.
  rewrite new_file_name_eq. symmetry.
  rewrite <- (firstn_skipn (stem_length x) x) at 1.
  apply stem_length_ext; rewrite !map_app, map_map; f_equal;
    apply map_ext; intros c; symmetry;
    [apply norm_char_dot | apply norm_char_sep].
Qed.

(** C7.  Normalising a file name twice gives what normalising it once
    gives: [normalize (normalize x) = normalize x] for the new name that
    [rename_files] computes (stem lower-cased, spaces replaced by
    underscores, extension kept). *)
Theorem normalize_idempotent (x : str) :
  Common.new_file_name (Common.new_file_name x) = Common.new_file_name x.
Proof.
  rewrite (new_file_name_eq (Common.new_file_name x)).
  rewrite stem_length_new_file_name, new_file_name_eq.
  set (k := stem_length x).
  assert (Hk : List.length (map norm_char (firstn k x)) = k).
  { rewrite length_map, length_firstn. pose proof (stem_length_le x). lia. }
  rewrite (firstn_at_length _ _ _ Hk), (skipn_at_length _ _ _ Hk), map_map.
  f_equal.
  apply map_ext. intros c. apply norm_char_idem.
Qed.

End Normalisation.

(** ** The file-name validators *)

Section Validators.

Import Re.

Lemma word_run_join w1 w2 :
  word_run w1 -> word_run w2 -> word_run (w1 ++ "_"%char :: w2).
Proof.
  intros [N1 F1] [N2 F2]. split.
  - destruct w1; [congruence | discriminate].
  - rewrite forallb_app, F1. simpl. now rewrite F2.
Qed.

(** The strings that [\d+_\w+(\_\w+)?\.\w+] matches in full. *)
Lemma automate_pattern_lang p :
  lang Automate.pattern p <->
  exists d w e,
    p = d ++ "_"%char :: w ++ "."%char :: e
    /\ digits_run d /\ word_run w /\ word_run e.
Proof.
  unfold Automate.pattern, digits_run, word_run, digit, word. split.
  - intros H.
    apply lang_seq_inv in H as (d & p1 & -> & Hd & H).
    apply lang_seq_inv in H as (u & p2 & -> & Hu & H).
    apply lang_seq_inv in H as (w1 & p3 & -> & Hw1 & H).
    apply lang_seq_inv in H as (o & p4 & -> & Ho & H).
    apply lang_seq_inv in H as (dot & e & -> & Hdot & He).
    apply lang_plus_cls in Hd, Hw1, He.
    apply lang_chr in Hu, Hdot. subst u dot.
    apply lang_alt_inv in Ho as [Ho | Ho].
    + apply lang_seq_inv in Ho as (u & w2 & -> & Hu & Hw2).
      apply lang_chr in Hu. subst u. apply lang_plus_cls in Hw2.
      exists d, (w1 ++ "_"%char :: w2), e. repeat split; try tauto.
      * simpl. now rewrite <- !app_assoc.
      * destruct w1; [tauto | discriminate].
      * now apply word_run_join.
    + apply lang_eps_inv in Ho. subst o.
      exists d, w1, e. repeat split; tauto.
  - intros (d & w & e & -> & Hd & Hw & He).
    apply lang_plus_cls in Hd, Hw, He.
    constructor; auto.
    change ("_"%char :: w ++ "."%char :: e) with (["_"%char] ++ w ++ "."%char :: e).
    constructor; [now apply lang_chr|].
    constructor; auto.
    change ("."%char :: e) with ([] ++ ["."%char] ++ e).
    constructor; [apply L_alt_r; constructor|].
    constructor; auto. now apply lang_chr.
Qed.

(** The strings that [\d+_\w+_\w+\.\w+] matches in full. *)
Lemma promoauto_pattern_lang p :
  lang Promoauto.pattern p <->
  exists d w1 w2 e,
    p = d ++ "_"%char :: w1 ++ "_"%char :: w2 ++ "."%char :: e
    /\ digits_run d /\ word_run w1 /\ word_run w2 /\ word_run e.
Proof.
  unfold Promoauto.pattern, digits_run, word_run, digit, word. split.
  - intros H.
    apply lang_seq_inv in H as (d & p1 & -> & Hd & H).
    apply lang_seq_inv in H as (u & p2 & -> & Hu & H).
    apply lang_seq_inv in H as (w1 & p3 & -> & Hw1 & H).
    apply lang_seq_inv in H as (u' & p4 & -> & Hu' & H).
    apply lang_seq_inv in H as (w2 & p5 & -> & Hw2 & H).
    apply lang_seq_inv in H as (dot & e & -> & Hdot & He).
    apply lang_plus_cls in Hd, Hw1, Hw2, He.
    apply lang_chr in Hu, Hu', Hdot. subst u u' dot.
    exists d, w1, w2, e. repeat split; tauto.
  - intros (d & w1 & w2 & e & -> & Hd & Hw1 & Hw2 & He).
    apply lang_plus_cls in Hd, Hw1, Hw2, He.
    constructor; auto.
    change ("_"%char :: w1 ++ "_"%char :: w2 ++ "."%char :: e)
      with (["_"%char] ++ w1 ++ ["_"%char] ++ w2 ++ ["."%char] ++ e).
    constructor; [now apply lang_chr|].
    constructor; auto.
    constructor; [now apply lang_chr|].
    constructor; auto.
    constructor; auto. now apply lang_chr.
Qed.

(** What [is_valid_filename] of automate.py accepts. *)
Lemma automate_valid_iff path :
  Automate.is_valid_filename path = true <->
  exists d w e rest,
    path = d ++ "_"%char :: w ++ "."%char :: e ++ rest
    /\ digits_run d /\ word_run w /\ word_run e.
Proof.
  unfold Automate.is_valid_filename. rewrite re_match_prefix. split.
  - intros (p & rest & -> & H).
    apply automate_pattern_lang in H as (d & w & e & -> & Hd & Hw & He).
    exists d, w, e, rest. split; [|tauto].
    rewrite <- !app_assoc. simpl. now rewrite <- !app_assoc.
  - intros (d & w & e & rest & -> & Hd & Hw & He).
    exists (d ++ "_"%char :: w ++ "."%char :: e), rest. split.
    + rewrite <- !app_assoc. simpl. now rewrite <- !app_assoc.
    + apply automate_pattern_lang. exists d, w, e. tauto.
Qed.

(** What [is_valid_filename] of promoauto.py accepts. *)
Lemma promoauto_valid_iff path :
  Promoauto.is_valid_filename path = true <->
  exists d w1 w2 e rest,
    path = d ++ "_"%char :: w1 ++ "_"%char :: w2 ++ "."%char :: e ++ rest
    /\ digits_run d /\ word_run w1 /\ word_run w2 /\ word_run e.
Proof.
  unfold Promoauto.is_valid_filename. rewrite re_match_prefix. split.
  - intros (p & rest & -> & H).
    apply promoauto_pattern_lang in H as (d & w1 & w2 & e & -> & Hd & Hw1 & Hw2 & He).
    exists d, w1, w2, e, rest. split; [|tauto].
    rewrite <- !app_assoc. simpl. rewrite <- !app_assoc. simpl.
    now rewrite <- !app_assoc.
  - intros (d & w1 & w2 & e & rest & -> & Hd & Hw1 & Hw2 & He).
    exists (d ++ "_"%char :: w1 ++ "_"%char :: w2 ++ "."%char :: e), rest. split.
    + rewrite <- !app_assoc. simpl. rewrite <- !app_assoc. simpl.
      now rewrite <- !app_assoc.
    + apply promoauto_pattern_lang. exists d, w1, w2, e. tauto.
Qed.

(** A name promoauto.py accepts is one automate.py accepts. *)
Lemma promoauto_valid_automate_valid path :
  Promoauto.is_valid_filename path = true ->
  Automate.is_valid_filename path = true.
Proof.
  intros H. apply promoauto_valid_iff in H
    as (d & w1 & w2 & e & rest & -> & Hd & Hw1 & Hw2 & He).
  apply automate_valid_iff.
  exists d, (w1 ++ "_"%char :: w2), e, rest.
  split; [| split; [assumption | split; [now apply word_run_join | assumption]]].
  rewrite <- !app_assoc. reflexivity.
Qed.

End Validators.

(** ** The accepted shape *)




(** ** Parsing the level of a validated name *)

Section LevelParsing.

Import Py.

Ltac by_bytes_hyp c :=
  destruct c as [[] [] [] [] [] [] [] []]; vm_compute; intros; congruence.

Lemma digit_not_underscore c : is_digit c = true -> Ascii.eqb c "_" = false.
Proof. by_bytes_hyp c. Qed.

Lemma digit_lower c : is_digit c = true -> lower_char c = c.
Proof. by_bytes_hyp c. Qed.

Lemma digit_not_space c : is_digit c = true -> is_space c = false.
Proof. by_bytes_hyp c. Qed.

Lemma digit_not_sign c :
  is_digit c = true -> Ascii.eqb c "-" = false /\ Ascii.eqb c "+" = false.
Proof.
  destruct c as [[] [] [] [] [] [] [] []]; vm_compute; intros; split; congruence.
Qed.

Lemma digit_val_nonneg c : is_digit c = true -> 0 <= digit_val c.
Proof. by_bytes_hyp c. Qed.

Lemma split_after_digits d t :
  forallb is_digit d = true ->
  split "_" (d ++ "_"%char :: t) = d :: split "_" t.
Proof.
  induction d as [|c d IH]; simpl; intros H.
  - reflexivity.
  - apply andb_true_iff in H as [Hc Hd].
    rewrite (digit_not_underscore c Hc), (IH Hd). reflexivity.
Qed.

Lemma lower_digits d : forallb is_digit d = true -> lower d = d.
Proof.
  induction d as [|c d IH]; simpl; intros H; auto.
  apply andb_true_iff in H as [Hc Hd].
  now rewrite (digit_lower c Hc), (IH Hd).
Qed.

Lemma lstrip_digits d : forallb is_digit d = true -> lstrip d = d.
Proof.
  destruct d as [|c d]; simpl; intros H; auto.
  apply andb_true_iff in H as [Hc _]. now rewrite (digit_not_space c Hc).
Qed.

Lemma forallb_rev (f : ascii -> bool) s :
  forallb f s = true -> forallb f (rev s) = true.
Proof.
  rewrite !forallb_forall. intros H x Hx. apply H. now apply in_rev.
Qed.

Lemma strip_digits d : forallb is_digit d = true -> strip d = d.
Proof.
  intros H. unfold strip.
  rewrite (lstrip_digits d H), (lstrip_digits (rev d) (forallb_rev _ _ H)).
  apply rev_involutive.
Qed.

Lemma digits_val_total d : forall acc,
  forallb is_digit d = true -> 0 <= acc ->
  exists n, digits_val acc d = Some n /\ 0 <= n.
Proof.
  induction d as [|c d IH]; intros acc H Hacc; cbn [digits_val].
  - eauto.
  - simpl in H. apply andb_true_iff in H as [Hc Hd]. rewrite Hc.
    apply IH; auto. pose proof (digit_val_nonneg c Hc). lia.
Qed.

(** [int] of a non-empty run of digits is a number, not [ValueError]. *)
Lemma int_digits d :
  digits_run d -> exists n, int d = Some n /\ 0 <= n.
Proof.
  intros [Hn Hd]. unfold int. rewrite (strip_digits d Hd).
  destruct d as [|c d]; [congruence|].
  pose proof Hd as Hd'. simpl in Hd'. apply andb_true_iff in Hd' as [Hc _].
  destruct (digit_not_sign c Hc) as [-> ->].
  unfold unsigned_int. apply digits_val_total; auto. lia.
Qed.

(** The first underscore-split component of the lower-cased stem of a
    path that starts with digits, an underscore and, further on, a dot. *)
Lemma leading_segment d w rest :
  digits_run d ->
  hd [] (split "_" (lower (fst (splitext (d ++ "_"%char :: w ++ "."%char :: rest))))) = d.
Proof.
  intros [_ Hd].
  replace (d ++ "_"%char :: w ++ "."%char :: rest)
    with ((d ++ "_"%char :: w) ++ "."%char :: rest)
    by (rewrite <- app_assoc; reflexivity).
  destruct (splitext_stem_prefix (d ++ "_"%char :: w) rest) as [t ->].
  rewrite <- !app_assoc. simpl.
  unfold lower. rewrite map_app. simpl.
  fold (lower d). rewrite (lower_digits d Hd).
  replace (lower_char "_") with "_"%char by reflexivity.
  rewrite split_after_digits; auto.
Qed.

Lemma valid_level path :
  Automate.is_valid_filename path = true ->
  exists digits level,
    hd [] (split "_" (lower (fst (splitext path)))) = digits
    /\ digits_run digits
    /\ int digits = Some level
    /\ 0 <= level
    /\ Automate.level_of path = Some level.
Proof.
  intros H. apply automate_valid_iff in H as (d & w & e & rest & -> & Hd & _).
  destruct (int_digits d Hd) as (n & Hn & Hpos).
  exists d, n.
  pose proof (leading_segment d w (e ++ rest) Hd) as Hseg.
  split; [exact Hseg|]. split; [exact Hd|]. split; [exact Hn|].
  split; [exact Hpos|].
  unfold Automate.level_of.
  destruct (splitext _) as [stem ext]. cbn [fst] in Hseg. cbv beta iota.
  now rewrite Hseg.
Qed.

End LevelParsing.

(** C9.  For every relative path that a validator accepts, the part of the
    stem before the first underscore, as the catalog step computes it
    ([card_id.split('_')[0]] of the lower-cased stem), is a non-empty run of
    digits, and [int] of it is a number: the parse of the level does not
    raise. *)
Theorem level_parse_total (path : str) :
  Automate.is_valid_filename path = true
  \/ Promoauto.is_valid_filename path = true ->
  exists digits level,
    hd [] (Py.split "_" (Py.lower (fst (Py.splitext path)))) = digits
    /\ digits_run digits
    /\ Py.int digits = Some level
    /\ 0 <= level
    /\ Automate.level_of path = Some level.
Proof.
  intros [H | H].
  - now apply valid_level.
  - apply valid_level. now apply promoauto_valid_automate_valid.
Qed.

(** The level of ["12_red_velvet_irene.jpg"] parses. *)
Lemma level_parse_total_witness :
  Automate.is_valid_filename "12_red_velvet_irene.jpg" = true
  /\ exists digits level,
       hd [] (Py.split "_" (Py.lower (fst (Py.splitext "12_red_velvet_irene.jpg"))))
         = digits
       /\ digits_run digits
       /\ Py.int digits = Some level
       /\ 0 <= level
       /\ Automate.level_of "12_red_velvet_irene.jpg" = Some level.
Proof.
  split; [reflexivity|].
  apply (level_parse_total "12_red_velvet_irene.jpg"). left. reflexivity.
Defined.

(** ** Card identifiers *)

Section Identifiers.

Lemma max_plus_one_unique ids n n' :
  max_plus_one ids n -> max_plus_one ids n' -> n = n'.
Proof.
  destruct ids as [|i ids]; simpl.
  - congruence.
  - intros (m & Hm & Hmax & ->) (m' & Hm' & Hmax' & ->).
    pose proof (Hmax _ Hm'). pose proof (Hmax' _ Hm). lia.
Qed.

Lemma max_plus_one_lower ids n k :
  max_plus_one ids n -> In k ids -> k < n.
Proof.
  destruct ids as [|i ids]; simpl; [tauto|].
  intros (m & _ & Hmax & ->) Hk. pose proof (Hmax _ Hk). lia.
Qed.

(** Once the next identifier is given out, the next one is one more. *)
Lemma max_plus_one_snoc ids n :
  max_plus_one ids n -> max_plus_one (ids ++ [n]) (n + 1).
Proof.
  intros H.
  assert (Hlt : forall k, In k ids -> k < n)
    by (intros k; now apply max_plus_one_lower).
  destruct (ids ++ [n]) as [|j l] eqn:E.
  - destruct ids; discriminate.
  - cbn [max_plus_one]. rewrite <- E. exists n. split; [|split; auto].
    + apply in_or_app. right. now left.
    + intros k Hk. apply in_app_or in Hk as [Hk | [<- | []]]; try lia.
      pose proof (Hlt _ Hk). lia.
Qed.

Lemma id_range_succ start n :
  id_range start (S n) = start :: id_range (start + 1) n.
Proof.
  unfold id_range. simpl. rewrite Z.add_0_r. f_equal.
  rewrite <- seq_shift, map_map. apply map_ext. intros k. lia.
Qed.

Lemma find_one_sorted_none beats cs :
  Automate.find_one_sorted beats cs = None <-> cs = [].
Proof.
  destruct cs as [|c cs]; simpl; [tauto|].
  split; [|discriminate].
  destruct (Automate.find_one_sorted beats cs) as [c'|]; [|discriminate].
  destruct (beats _ _); discriminate.
Qed.

Lemma find_last_card_max cs c :
  Automate.find_last_card cs = Some c ->
  In c cs /\ forall c', In c' cs -> Automate.id c' <= Automate.id c.
Proof.
  unfold Automate.find_last_card. revert c.
  induction cs as [|x cs IH]; simpl; intros c H; [discriminate|].
  destruct (Automate.find_one_sorted Z.gtb cs) as [c'|] eqn:E.
  - destruct (IH c' eq_refl) as [Hin Hmax].
    destruct (Automate.id c' >? Automate.id x) eqn:G; injection H as <-.
    + split; auto. intros y [<- | Hy]; auto. lia.
    + split; auto. intros y [<- | Hy]; [lia|].
      pose proof (Hmax y Hy). lia.
  - injection H as <-. apply find_one_sorted_none in E. subst cs.
    split; auto. intros y [<- | []]. lia.
Qed.

(** The identifier [update_database] reads before an insertion. *)
Lemma automate_next_id_spec cs :
  max_plus_one (map Automate.id cs) (Automate.next_id cs).
Proof.
  unfold Automate.next_id.
  destruct (Automate.find_last_card cs) as [c|] eqn:E.
  - destruct (find_last_card_max cs c E) as [Hin Hmax].
    destruct cs as [|x cs]; [contradiction|].
    exists (Automate.id c). split; [now apply in_map|]. split; auto.
    intros k Hk. apply in_map_iff in Hk as (y & <- & Hy). auto.
  - apply find_one_sorted_none in E. now subst cs.
Qed.

Lemma fold_left_max_spec l : forall a,
  let m := fold_left Z.max l a in
  In m (a :: l) /\ forall k, In k (a :: l) -> k <= m.
Proof.
  induction l as [|x l IH]; intros a; simpl.
  - split; auto. intros k [<- | []]. lia.
  - destruct (IH (Z.max a x)) as [Hin Hmax]. split.
    + destruct Hin as [Hin | Hin]; auto.
      rewrite <- Hin. destruct (Z.max_spec a x) as [[_ ->] | [_ ->]]; auto.
    + intros k [<- | [<- | Hk]].
      * pose proof (Hmax _ (or_introl eq_refl)). lia.
      * pose proof (Hmax _ (or_introl eq_refl)). lia.
      * apply Hmax. now right.
Qed.

(** The identifier [update_json_files] computes from the loaded cards. *)
Lemma promoauto_next_id_spec cards_data :
  max_plus_one (map Promoauto.id cards_data) (Promoauto.first_next_id cards_data).
Proof.
  destruct cards_data as [|c cs]; simpl; auto.
  destruct (fold_left_max_spec (map Promoauto.id cs) (Promoauto.id c)) as [Hin Hmax].
  eexists. split; [exact Hin|]. split; auto.
Qed.

Lemma automate_next_id_snoc cs c :
  Automate.id c = Automate.next_id cs ->
  Automate.next_id (cs ++ [c]) = Automate.next_id cs + 1.
Proof.
  intros Hc. apply (max_plus_one_unique (map Automate.id (cs ++ [c]))).
  - apply automate_next_id_spec.
  - rewrite map_app. simpl. rewrite Hc.
    apply max_plus_one_snoc, automate_next_id_spec.
Qed.

Lemma promoauto_next_id_snoc cs c :
  Promoauto.id c = Promoauto.first_next_id cs ->
  Promoauto.first_next_id (cs ++ [c]) = Promoauto.first_next_id cs + 1.
Proof.
  intros Hc. apply (max_plus_one_unique (map Promoauto.id (cs ++ [c]))).
  - apply promoauto_next_id_spec.
  - rewrite map_app. simpl. rewrite Hc.
    apply max_plus_one_snoc, promoauto_next_id_spec.
Qed.

End Identifiers.

(** ** The insertion loops *)

Section InsertionLoops.

Lemma str_eqb_eq a b : str_eqb a b = true <-> a = b.
Proof.
  unfold str_eqb. destruct (str_eq_dec a b); split; congruence.
Qed.

Lemma str_eqb_refl a : str_eqb a a = true.
Proof. now apply str_eqb_eq. Qed.

Lemma new_card_id folder target file level n :
  Automate.id (Automate.new_card folder target file level n) = n.
Proof.
  unfold Automate.new_card. now destruct (Py.splitext file).
Qed.

Lemma new_card_col folder target file level n :
  Automate.col (Automate.new_card folder target file level n) = folder.
Proof.
  unfold Automate.new_card. now destruct (Py.splitext file).
Qed.

(** Every card the loop of [update_database] inserts carries the
    identifier read from the catalog as it stands before the insertion,
    whether or not the loop ends with an exception. *)
Lemma insert_cards_follow folder target files : forall cs cs' r,
  Automate.insert_cards folder target files cs = (cs', r) ->
  exists new,
    cs' = cs ++ new
    /\ forall a c b, new = a ++ c :: b ->
         Automate.id c = Automate.next_id (cs ++ a).
Proof.
  induction files as [|file files IH]; simpl; intros cs cs' r H.
  - injection H as <- _. exists []. split; [now rewrite app_nil_r|].
    intros [|] ? ? E; discriminate.
  - destruct (Automate.level_of file) as [level|].
    + pose proof (new_card_id folder target file level (Automate.next_id cs)) as Hid.
      remember (Automate.new_card folder target file level (Automate.next_id cs))
        as c0 eqn:Ec0. clear Ec0.
      apply IH in H as (new & -> & Hnew).
      exists (c0 :: new). split; [now rewrite <- app_assoc|].
      intros [|x a] c b E; simpl in E; injection E as E1 E2.
      * subst c. now rewrite app_nil_r.
      * subst x. rewrite (Hnew a c b E2), <- app_assoc. reflexivity.
    + injection H as <- _. exists []. split; [now rewrite app_nil_r|].
      intros [|] ? ? E; discriminate.
Qed.

(** [update_database], with its two tuples opened. *)
Lemma update_database_unfold directory target files d :
  Automate.update_database directory target files d
  = ({| Automate.collections :=
          fst (Automate.ensure_collection (Py.basename directory) target
                 (Automate.collections d));
        Automate.cards :=
          fst (Automate.insert_cards (Py.basename directory) target files
                 (Automate.cards d)) |},
     match snd (Automate.insert_cards (Py.basename directory) target files
                  (Automate.cards d)) with
     | Ok _ => Ok true
     | Raise _ => Raise (CardProcessingError 2)
     end).
Proof.
  unfold Automate.update_database.
  destruct (Automate.ensure_collection _ _ _), (Automate.insert_cards _ _ _ _).
  reflexivity.
Qed.

(** On validated names the loop ends without an exception, inserts one
    card per file, in the order of the files, and numbers them from the
    next identifier upwards without a gap. *)
Lemma insert_cards_ok folder target files : forall cs,
  Forall (fun file => Automate.is_valid_filename file = true) files ->
  exists new,
    Automate.insert_cards folder target files cs = (cs ++ new, Ok tt)
    /\ map Automate.id new = id_range (Automate.next_id cs) (List.length files)
    /\ Forall2 (built_from folder target) files new.
Proof.
  induction files as [|file files IH]; intros cs Hv; simpl.
  - exists []. rewrite app_nil_r. repeat split. constructor.
  - inversion Hv as [|? ? Hfile Hrest]; subst.
    destruct (valid_level file Hfile) as (digits & level & _ & _ & _ & _ & Hlevel).
    rewrite Hlevel.
    set (c0 := Automate.new_card folder target file level (Automate.next_id cs)).
    assert (Hid : Automate.id c0 = Automate.next_id cs) by apply new_card_id.
    destruct (IH (cs ++ [c0]) Hrest) as (new & Hrun & Hids & Hbuilt).
    exists (c0 :: new). split; [|split].
    + rewrite Hrun, <- app_assoc. reflexivity.
    + rewrite id_range_succ. simpl. rewrite Hid, Hids.
      now rewrite (automate_next_id_snoc cs c0 Hid).
    + constructor; auto. exists level. split; auto.
      unfold c0. now rewrite new_card_id.
Qed.

End InsertionLoops.

Section JsonLoop.

(** Every card the loop of [update_json_files] appends carries
    [max + 1] of the cards in memory before it, and the appended
    identifiers run upwards without a gap. *)
Lemma add_cards_follow folder target valid_files walked :
  forall cards_data cards',
  Promoauto.add_cards folder target valid_files walked cards_data
    (Promoauto.first_next_id cards_data) = Ok cards' ->
  exists new,
    cards' = cards_data ++ new
    /\ (forall a c b, new = a ++ c :: b ->
          Promoauto.id c = Promoauto.first_next_id (cards_data ++ a))
    /\ map Promoauto.id new
       = id_range (Promoauto.first_next_id cards_data) (List.length new).
Proof.
  induction walked as [|file walked IH]; intros cards_data cards' H;
    cbn [Promoauto.add_cards] in H.
  - injection H as <-. exists []. split; [now rewrite app_nil_r|].
    split; [|reflexivity]. intros [|] ? ? E; discriminate.
  - destruct (negb (existsb (str_eqb file) valid_files)); [now apply IH|].
    destruct (Py.splitext file) as [file_name file_ext].
    destruct (existsb _ _); [|now apply IH].
    destruct (Py.int _) as [level|]; [|discriminate].
    destruct (Promoauto.existing_card _ _ _); [now apply IH|].
    match type of H with
    | Promoauto.add_cards _ _ _ _ (_ ++ [?c]) _ = _ => remember c as c0 eqn:Ec0
    end.
    assert (Hid : Promoauto.id c0 = Promoauto.first_next_id cards_data)
      by (subst c0; reflexivity).
    clear Ec0. rewrite <- (promoauto_next_id_snoc cards_data c0 Hid) in H.
    apply IH in H as (new & -> & Hnew & Hids).
    exists (c0 :: new). split; [now rewrite <- app_assoc|]. split.
    + intros [|x a] c b E; simpl in E; injection E as E1 E2.
      * subst c. now rewrite app_nil_r.
      * subst x. rewrite (Hnew a c b E2), <- app_assoc. reflexivity.
    + cbn [List.length map]. rewrite id_range_succ, Hid, Hids.
      now rewrite (promoauto_next_id_snoc cards_data c0 Hid).
Qed.

(** On validated names the loop of [update_json_files] raises nothing. *)
Lemma add_cards_total folder target valid_files walked :
  Forall (fun file => Promoauto.is_valid_filename file = true) valid_files ->
  forall cards_data next_id,
  exists cards',
    Promoauto.add_cards folder target valid_files walked cards_data next_id
    = Ok cards'.
Proof.
  intros Hv.
  induction walked as [|file walked IH]; intros cards_data next_id;
    cbn [Promoauto.add_cards].
  - eauto.
  - destruct (existsb (str_eqb file) valid_files) eqn:Ein; cbn [negb]; [|apply IH].
    apply existsb_exists in Ein as (f & Hf & Ef).
    apply str_eqb_eq in Ef. subst f.
    rewrite Forall_forall in Hv. pose proof (Hv _ Hf) as Hvalid.
    apply promoauto_valid_automate_valid in Hvalid.
    destruct (valid_level file Hvalid) as (digits & level & Hseg & _ & Hint & _).
    destruct (Py.splitext file) as [file_name file_ext]. cbn [fst] in Hseg.
    destruct (existsb _ _); [|apply IH].
    rewrite Hseg, Hint.
    destruct (Promoauto.existing_card _ _ _); apply IH.
Qed.

Lemma existing_card_snoc name folder cards c :
  Promoauto.existing_card name folder cards = None ->
  Promoauto.name c <> name ->
  Promoauto.existing_card name folder (cards ++ [c]) = None.
Proof.
  unfold Promoauto.existing_card. intros H Hc.
  induction cards as [|x cards IH]; simpl in *.
  - destruct (str_eqb (Promoauto.name c) name) eqn:E; [|reflexivity].
    apply str_eqb_eq in E. contradiction.
  - destruct (_ && _); [discriminate|]. now apply IH.
Qed.

(** The loop of [update_json_files] appends one card for every file of the
    walk, in the order of the walk and numbered upwards from [next_id],
    when each file is one it does not pass over and no two of them, nor
    one of them and a card of the collection, share a card name. *)
Lemma add_cards_all folder target valid_files walked :
  Forall (cataloged valid_files) walked ->
  NoDup (map promo_name walked) ->
  forall cards_data next_id,
  (forall file, In file walked ->
     Promoauto.existing_card (promo_name file) folder cards_data = None) ->
  exists new,
    Promoauto.add_cards folder target valid_files walked cards_data next_id
    = Ok (cards_data ++ new)
    /\ map Promoauto.id new = id_range next_id (List.length walked)
    /\ Forall2 (promo_built_from folder target) walked new.
Proof.
  induction walked as [|file walked IH]; intros Hc Hnd cards_data next_id Hnew;
    cbn [Promoauto.add_cards].
  - exists []. rewrite app_nil_r. repeat split. constructor.
  - inversion Hc as [|? ? (Hin & Hvalid & Hext) Hc']; subst.
    inversion Hnd as [|? ? Hfresh Hnd']; subst.
    assert (Ein : existsb (str_eqb file) valid_files = true).
    { apply existsb_exists. exists file. split; [assumption|apply str_eqb_refl]. }
    rewrite Ein. cbn [negb].
    apply promoauto_valid_automate_valid in Hvalid.
    destruct (valid_level file Hvalid) as (digits & level & Hseg & _ & Hint & _).
    pose proof (Hnew file (or_introl eq_refl)) as Hfile.
    unfold promo_name in Hfile.
    assert (Eext : existsb (str_eqb (Py.lower (snd (Py.splitext file))))
                     (Promoauto.ACCEPTED_EXTENSIONS ++ [".gif" : str]) = true).
    { apply existsb_exists. exists (Py.lower (snd (Py.splitext file))).
      split; [apply in_or_app; now left|apply str_eqb_refl]. }
    assert (Hbuilt : forall n,
              promo_built_from folder target file
                {| Promoauto.name := promo_name file;
                   Promoauto.level := level;
                   Promoauto.animated :=
                     str_eqb (Py.lower (snd (Py.splitext file))) ".gif";
                   Promoauto.col := folder;
                   Promoauto.id := n;
                   Promoauto.tags := target |}).
    { intros n. exists level. rewrite Hseg. split; [exact Hint|reflexivity]. }
    unfold promo_name in Hbuilt, Hfresh at 1.
    destruct (Py.splitext file) as [file_name file_ext].
    cbn [fst snd] in *.
    rewrite Eext, Hseg, Hint, Hfile.
    match goal with
    | |- context [Promoauto.add_cards _ _ _ _ (_ ++ [?c]) _] => set (c0 := c)
    end.
    destruct (IH Hc' Hnd' (cards_data ++ [c0]) (next_id + 1))
      as (new & Hrun & Hids & Hall).
    { intros file' Hin'. apply existing_card_snoc.
      - apply Hnew. now right.
      - subst c0. cbn [Promoauto.name]. intros E. apply Hfresh.
        rewrite E. now apply in_map. }
    exists (c0 :: new). rewrite Hrun, <- app_assoc. split; [reflexivity|].
    split.
    + cbn [map List.length]. rewrite id_range_succ, Hids. reflexivity.
    + constructor; [apply Hbuilt|assumption].
Qed.

End JsonLoop.

(** C1.  In every state of the catalog the identifier read before an
    insertion is [max(existing IDs) + 1], or [0] when the catalog is empty,
    in both variants; every card that a run inserts carries the identifier
    so computed from the cards present before it; and a batch of [N] files
    put into an empty catalog makes [N] cards with the identifiers
    [0 .. N-1] in insertion order: in automate.py for [N] validated files,
    in promoauto.py for the [N] files of the walk when each is an uploaded,
    validated file with an accepted extension and no two of them give the
    same card name.  In promoauto.py the same batch put into a catalog that
    holds none of these names makes [N] cards numbered upwards from
    [max + 1], and on validated files the step raises nothing and leaves
    the identifiers of an empty catalog without a gap. *)
Theorem card_id_assignment :
  (forall cs, max_plus_one (map Automate.id cs) (Automate.next_id cs))
  /\ (forall cards_data,
        max_plus_one (map Promoauto.id cards_data)
          (Promoauto.first_next_id cards_data))
  /\ (forall folder target files cs cs' r,
        Automate.insert_cards folder target files cs = (cs', r) ->
        exists new,
          cs' = cs ++ new
          /\ forall a c b, new = a ++ c :: b ->
               Automate.id c = Automate.next_id (cs ++ a))
  /\ (forall folder target valid_files walked cards_data cards',
        Promoauto.add_cards folder target valid_files walked cards_data
          (Promoauto.first_next_id cards_data) = Ok cards' ->
        exists new,
          cards' = cards_data ++ new
          /\ forall a c b, new = a ++ c :: b ->
               Promoauto.id c = Promoauto.first_next_id (cards_data ++ a))
  /\ (forall directory target files d,
        Automate.cards d = [] ->
        Forall (fun file => Automate.is_valid_filename file = true) files ->
        exists d',
          Automate.update_database directory target files d = (d', Ok true)
          /\ map Automate.id (Automate.cards d') = id_range 0 (List.length files)
          /\ Forall2 (built_from (Py.basename directory) target) files
               (Automate.cards d'))
  /\ (forall directory target valid_files f,
        Promoauto.cards_data f = [] ->
        Forall (cataloged valid_files) (map Py.basename (dir_files directory)) ->
        NoDup (map promo_name (map Py.basename (dir_files directory))) ->
        exists f',
          Promoauto.update_json_files directory target valid_files f = (f', Ok None)
          /\ map Promoauto.id (Promoauto.cards_data f')
             = id_range 0 (List.length (dir_files directory))
          /\ Forall2 (promo_built_from (Py.basename (dir_path directory)) target)
               (map Py.basename (dir_files directory))
               (Promoauto.cards_data f'))
  /\ (forall directory target valid_files f,
        Forall (cataloged valid_files) (map Py.basename (dir_files directory)) ->
        NoDup (map promo_name (map Py.basename (dir_files directory))) ->
        (forall file, In file (map Py.basename (dir_files directory)) ->
           Promoauto.existing_card (promo_name file)
             (Py.basename (dir_path directory)) (Promoauto.cards_data f) = None) ->
        exists f' new,
          Promoauto.update_json_files directory target valid_files f = (f', Ok None)
          /\ Promoauto.cards_data f' = Promoauto.cards_data f ++ new
          /\ map Promoauto.id new
             = id_range (Promoauto.first_next_id (Promoauto.cards_data f))
                 (List.length (dir_files directory))
          /\ Forall2 (promo_built_from (Py.basename (dir_path directory)) target)
               (map Py.basename (dir_files directory)) new)
  /\ (forall directory target valid_files f,
        Promoauto.cards_data f = [] ->
        Forall (fun file => Promoauto.is_valid_filename file = true) valid_files ->
        exists f',
          Promoauto.update_json_files directory target valid_files f = (f', Ok None)
          /\ map Promoauto.id (Promoauto.cards_data f')
             = id_range 0 (List.length (Promoauto.cards_data f'))).
Proof.
  assert (Hgeneral :
    forall directory target valid_files f,
      Forall (cataloged valid_files) (map Py.basename (dir_files directory)) ->
      NoDup (map promo_name (map Py.basename (dir_files directory))) ->
      (forall file, In file (map Py.basename (dir_files directory)) ->
         Promoauto.existing_card (promo_name file)
           (Py.basename (dir_path directory)) (Promoauto.cards_data f) = None) ->
      exists f' new,
        Promoauto.update_json_files directory target valid_files f = (f', Ok None)
        /\ Promoauto.cards_data f' = Promoauto.cards_data f ++ new
        /\ map Promoauto.id new
           = id_range (Promoauto.first_next_id (Promoauto.cards_data f))
               (List.length (dir_files directory))
        /\ Forall2 (promo_built_from (Py.basename (dir_path directory)) target)
             (map Py.basename (dir_files directory)) new).
  { intros directory target valid_files f Hc Hnd Hnew.
    unfold Promoauto.update_json_files.
    destruct (Promoauto.ensure_collection _ _ _) as [collections' flag].
    destruct (add_cards_all (Py.basename (dir_path directory)) target valid_files
                (map Py.basename (dir_files directory)) Hc Hnd
                (Promoauto.cards_data f)
                (Promoauto.first_next_id (Promoauto.cards_data f)) Hnew)
      as (new & Hrun & Hids & Hall).
    rewrite Hrun. rewrite length_map in Hids.
    eexists. exists new. split; [reflexivity|]. cbn [Promoauto.cards_data].
    auto. }
  split; [exact automate_next_id_spec|].
  split; [exact promoauto_next_id_spec|].
  split; [exact insert_cards_follow|].
  split; [|split; [|split; [|split; [exact Hgeneral|]]]].
  - intros folder target valid_files walked cards_data cards' H.
    apply add_cards_follow in H as (new & -> & Hnew & _). eauto.
  - intros directory target files d Hempty Hv.
    rewrite update_database_unfold.
    destruct (insert_cards_ok (Py.basename directory) target files (Automate.cards d) Hv)
      as (new & Hrun & Hids & Hbuilt).
    rewrite Hrun, Hempty in *. simpl in *.
    eexists. split; [reflexivity|]. simpl. split; auto.
  - intros directory target valid_files f Hempty Hc Hnd.
    destruct (Hgeneral directory target valid_files f Hc Hnd)
      as (f' & new & Hrun & Hcards & Hids & Hall).
    { intros file _. now rewrite Hempty. }
    rewrite Hempty in Hcards, Hids. cbn [app Promoauto.first_next_id] in Hcards, Hids.
    exists f'. rewrite Hcards. auto.
  - intros directory target valid_files f Hempty Hv.
    unfold Promoauto.update_json_files.
    destruct (Promoauto.ensure_collection _ _ _) as [collections' flag].
    destruct (add_cards_total (Py.basename (dir_path directory)) target valid_files
                (map Py.basename (dir_files directory)) Hv
                (Promoauto.cards_data f)
                (Promoauto.first_next_id (Promoauto.cards_data f)))
      as (cards' & Hrun).
    rewrite Hrun. eexists. split; [reflexivity|]. simpl.
    apply add_cards_follow in Hrun as (new & -> & _ & Hids).
    rewrite Hempty in *. simpl in *. exact Hids.
Qed.

(** Three validated files put into an empty catalog get the identifiers 0, 1
    and 2, in the document store of automate.py and in [cards.json] of
    promoauto.py. *)
Lemma card_id_assignment_witness :
  (exists d',
     Automate.update_database "in/girlgroups/twice" "girlgroups"
       ["1_nayeon.jpg" : str; "2_jihyo.png" : str; "3_momo.gif" : str]
       {| Automate.collections := []; Automate.cards := [] |}
     = (d', Ok true)
     /\ map Automate.id (Automate.cards d') = [0; 1; 2])
  /\ (exists f',
        Promoauto.update_json_files
          {| dir_path := "in/girlgroups/twice";
             dir_files := ["1_twice_nayeon.jpg" : str; "2_twice_jihyo.png" : str;
                           "3_twice_momo.gif" : str] |}
          "girlgroups"
          ["1_twice_nayeon.jpg" : str; "2_twice_jihyo.png" : str;
           "3_twice_momo.gif" : str]
          {| Promoauto.cards_data := []; Promoauto.collections_data := [] |}
        = (f', Ok None)
        /\ map Promoauto.id (Promoauto.cards_data f') = [0; 1; 2]
        /\ map Promoauto.name (Promoauto.cards_data f')
           = ["twice_nayeon" : str; "twice_jihyo" : str; "twice_momo" : str]).
Proof.
  split.
  - destruct (proj1 (proj2 (proj2 (proj2 (proj2 card_id_assignment))))
                "in/girlgroups/twice" "girlgroups"
                ["1_nayeon.jpg" : str; "2_jihyo.png" : str; "3_momo.gif" : str]
                {| Automate.collections := []; Automate.cards := [] |})
      as (d' & Hrun & Hids & _).
    + reflexivity.
    + repeat constructor.
    + exists d'. split; [exact Hrun | exact Hids].
  - destruct (proj1 (proj2 (proj2 (proj2 (proj2 (proj2 card_id_assignment)))))
                {| dir_path := "in/girlgroups/twice";
                   dir_files := ["1_twice_nayeon.jpg" : str; "2_twice_jihyo.png" : str;
                                 "3_twice_momo.gif" : str] |}
                "girlgroups"
                ["1_twice_nayeon.jpg" : str; "2_twice_jihyo.png" : str;
                 "3_twice_momo.gif" : str]
                {| Promoauto.cards_data := []; Promoauto.collections_data := [] |})
      as (f' & Hrun & Hids & Hall).
    + reflexivity.
    + repeat (apply Forall_cons || apply Forall_nil);
        (split; [simpl; tauto | split; [reflexivity | vm_compute; tauto]]).
    + vm_compute. repeat constructor; simpl; intuition discriminate.
    + exists f'. split; [exact Hrun|]. split; [exact Hids|].
      vm_compute in Hrun. injection Hrun as <-. reflexivity.
Defined.

(** ** The uploader *)

Section Uploader.

Variable upload_ok : str -> bool.

Lemma Permutation_filter (f : str -> bool) l l' :
  Permutation l l' -> Permutation (filter f l) (filter f l').
Proof.
  induction 1; simpl.
  - constructor.
  - destruct (f x); auto.
  - destruct (f x), (f y); auto. constructor.
  - eapply Permutation_trans; eauto.
Qed.

(** The loop over the finished futures, on the outcomes of the tasks. *)
Lemma gather_outcomes valid directory tasks : forall acc,
  Common.gather (map (task_outcome valid upload_ok directory) tasks) acc
  = if existsb (upload_fails valid upload_ok directory) tasks
    then Raise (CardProcessingError 1)
    else Ok (acc ++ filter valid tasks).
Proof.
  induction tasks as [|rel tasks IH]; intros acc; simpl.
  - now rewrite app_nil_r.
  - unfold task_outcome at 1, upload_fails at 1.
    destruct (valid rel); simpl.
    + destruct (upload_ok _); simpl; auto.
      rewrite IH. destruct (existsb _ _); auto.
      now rewrite <- app_assoc.
    + apply IH.
Qed.

Lemma automate_upload_file_outcome directory rel folder target st :
  snd (Automate.upload_file upload_ok directory rel folder target st)
  = task_outcome Automate.is_valid_filename upload_ok directory rel.
Proof.
  unfold Automate.upload_file, task_outcome.
  destruct (negb _); auto. destruct (upload_ok _); auto.
Qed.

Lemma automate_upload_file_store directory rel folder target st :
  fst (Automate.upload_file upload_ok directory rel folder target st)
  = st ++ (if Automate.is_valid_filename rel
              && upload_ok (Py.path_join directory rel)
           then [automate_object directory folder target rel] else []).
Proof.
  unfold Automate.upload_file.
  destruct (Automate.is_valid_filename rel); simpl.
  - destruct (upload_ok _); simpl; auto. now rewrite app_nil_r.
  - now rewrite app_nil_r.
Qed.

Lemma automate_run_tasks directory folder target tasks : forall st,
  Automate.run_tasks upload_ok directory folder target tasks st
  = (st ++ map (automate_object directory folder target)
             (filter (fun rel => Automate.is_valid_filename rel
                                 && upload_ok (Py.path_join directory rel)) tasks),
     map (task_outcome Automate.is_valid_filename upload_ok directory) tasks).
Proof.
  induction tasks as [|rel tasks IH]; intros st; simpl.
  - now rewrite app_nil_r.
  - pose proof (automate_upload_file_outcome directory rel folder target st) as Ho.
    pose proof (automate_upload_file_store directory rel folder target st) as Hs.
    destruct (Automate.upload_file upload_ok directory rel folder target st)
      as [st1 r]. simpl in Ho, Hs. subst st1 r.
    rewrite IH. f_equal.
    destruct (Automate.is_valid_filename rel && upload_ok _); simpl;
      now rewrite <- app_assoc.
Qed.

Lemma promoauto_upload_file_outcome directory rel folder target st :
  snd (Promoauto.upload_file upload_ok directory rel folder target st)
  = task_outcome Promoauto.is_valid_filename upload_ok directory rel.
Proof.
  unfold Promoauto.upload_file, task_outcome.
  destruct (negb _); auto. destruct (upload_ok _); auto.
Qed.

Lemma promoauto_run_tasks directory folder target tasks : forall st,
  snd (Promoauto.run_tasks upload_ok directory folder target tasks st)
  = map (task_outcome Promoauto.is_valid_filename upload_ok directory) tasks.
Proof.
  induction tasks as [|rel tasks IH]; intros st; simpl; auto.
  pose proof (promoauto_upload_file_outcome directory rel folder target st) as Ho.
  destruct (Promoauto.upload_file upload_ok directory rel folder target st)
    as [st1 r]. simpl in Ho. subst r.
  specialize (IH st1).
  destruct (Promoauto.run_tasks upload_ok directory folder target tasks st1).
  simpl in *. now rewrite IH.
Qed.

End Uploader.

(** ** The directory processor of automate.py *)

Section DirectoryProcessor.

Variable upload_ok : str -> bool.
Variable completion : list str -> list str.

Lemma filter_valid_all (valid : str -> bool) l :
  Forall (fun file => valid file = true) (filter valid l).
Proof.
  apply Forall_forall. intros x Hx. now apply filter_In in Hx.
Qed.

Lemma automate_upload_files directory files folder target st :
  Automate.upload_files upload_ok completion directory files folder target st
  = (st ++ map (automate_object directory folder target)
             (filter (fun rel => Automate.is_valid_filename rel
                                 && upload_ok (Py.path_join directory rel))
                (completion files)),
     if existsb (upload_fails Automate.is_valid_filename upload_ok directory)
          (completion files)
     then Raise (CardProcessingError 1)
     else Ok (filter Automate.is_valid_filename (completion files))).
Proof.
  unfold Automate.upload_files. rewrite automate_run_tasks.
  now rewrite gather_outcomes.
Qed.

(** When a validly named file fails to upload, the catalog is not touched
    and the result is [([], False)]. *)
Lemma process_directory_failed d target w :
  existsb (upload_fails Automate.is_valid_filename upload_ok (dir_path d))
    (tasks_of completion d) = true ->
  Automate.process_directory upload_ok completion d target w
  = ({| Automate.store := store_after upload_ok completion d target (Automate.store w);
        Automate.db := Automate.db w |},
     ([], false)).
Proof.
  intros H. unfold Automate.process_directory, store_after, tasks_of in *.
  rewrite automate_upload_files, H. reflexivity.
Qed.

(** When no upload fails, the validly named files are uploaded and one
    card is inserted for each of them, in completion order. *)
Lemma process_directory_uploaded d target w :
  existsb (upload_fails Automate.is_valid_filename upload_ok (dir_path d))
    (tasks_of completion d) = false ->
  let valid_files := filter Automate.is_valid_filename (tasks_of completion d) in
  exists new,
    Automate.process_directory upload_ok completion d target w
    = ({| Automate.store := store_after upload_ok completion d target (Automate.store w);
          Automate.db :=
            {| Automate.collections :=
                 fst (Automate.ensure_collection (Py.basename (dir_path d)) target
                        (Automate.collections (Automate.db w)));
               Automate.cards := Automate.cards (Automate.db w) ++ new |} |},
       (valid_files, true))
    /\ map Automate.id new
       = id_range (Automate.next_id (Automate.cards (Automate.db w)))
           (List.length valid_files)
    /\ Forall2 (built_from (Py.basename (dir_path d)) target) valid_files new.
Proof.
  intros H valid_files.
  destruct (insert_cards_ok (Py.basename (dir_path d)) target valid_files
              (Automate.cards (Automate.db w))
              (filter_valid_all Automate.is_valid_filename _))
    as (new & Hrun & Hids & Hbuilt).
  exists new. split; [|split; assumption].
  unfold Automate.process_directory, store_after, tasks_of in *.
  rewrite automate_upload_files, H.
  rewrite update_database_unfold. fold valid_files. rewrite Hrun. reflexivity.
Qed.

End DirectoryProcessor.

(** C5.  If the upload of one validly named file of a directory fails,
    [process_directory] writes nothing to the catalog and returns the empty
    upload list with the no-new-collection signal, raising nothing; the
    loop of [main] then writes the block of the directory and goes on with
    the next directory from the unchanged catalog. *)
Theorem upload_failure_all_or_nothing
    (upload_ok : str -> bool) (completion : list str -> list str)
    (d : local_dir) (target_directory : str) (w : Automate.world) (rel : str) :
  (forall l, Permutation (completion l) l) ->
  In rel (Common.rename_files (dir_files d)) ->
  Automate.is_valid_filename rel = true ->
  upload_ok (Py.path_join (dir_path d) rel) = false ->
  exists st',
    let w' := {| Automate.store := st'; Automate.db := Automate.db w |} in
    Automate.process_directory upload_ok completion d target_directory w
    = (w', ([], false))
    /\ (forall rest report,
          Automate.process_group upload_ok completion target_directory
            (d :: rest) w report
          = Automate.process_group upload_ok completion target_directory rest w'
              (report ++ [Automate.write_output_file d [] target_directory []
                            (Automate.db w)]))
    /\ (forall girlgroups boygroups report,
          Automate.main upload_ok completion (d :: girlgroups) boygroups w report
          = Automate.main upload_ok completion girlgroups boygroups
              {| Automate.store :=
                   store_after upload_ok completion d "girlgroups" (Automate.store w);
                 Automate.db := Automate.db w |}
              (report ++ [Automate.write_output_file d [] "girlgroups" []
                            (Automate.db w)])).
Proof.
  intros Hperm Hin Hvalid Hfail.
  assert (Hex : existsb (upload_fails Automate.is_valid_filename upload_ok (dir_path d))
                  (tasks_of completion d) = true).
  { apply existsb_exists. exists rel. split.
    - unfold tasks_of. eapply Permutation_in; [apply Permutation_sym, Hperm|exact Hin].
    - unfold upload_fails. now rewrite Hvalid, Hfail. }
  exists (store_after upload_ok completion d target_directory (Automate.store w)).
  cbv zeta. split; [|split].
  - now apply process_directory_failed.
  - intros rest report. cbn [Automate.process_group].
    now rewrite (process_directory_failed upload_ok completion d target_directory w Hex).
  - intros girlgroups boygroups report. unfold Automate.main.
    cbn [Automate.process_group].
    now rewrite (process_directory_failed upload_ok completion d "girlgroups" w Hex).
Qed.

(** Five files, the upload of the third fails: nothing reaches the catalog. *)
Lemma upload_failure_all_or_nothing_witness :
  let upload_ok := fun p : str => negb (str_eqb p "in/twice/3_momo.jpg") in
  let completion := fun l : list str => l in
  let d := {| dir_path := "in/twice";
              dir_files := ["1_nayeon.jpg" : str; "2_jihyo.png" : str;
                            "3_momo.jpg" : str; "1_sana.gif" : str;
                            "2_mina.jpeg" : str] |} in
  let w := {| Automate.store := [];
              Automate.db := {| Automate.collections := [];
                                Automate.cards := [] |} |} in
  exists st',
    Automate.process_directory upload_ok completion d "girlgroups" w
    = ({| Automate.store := st'; Automate.db := Automate.db w |}, ([], false)).
Proof.
  intros upload_ok completion d w.
  destruct (upload_failure_all_or_nothing upload_ok completion d "girlgroups" w
              "3_momo.jpg") as (st' & H & _).
  - intros l. apply Permutation_refl.
  - vm_compute. tauto.
  - reflexivity.
  - reflexivity.
  - exists st'. exact H.
Defined.

(** ** The directory processor of promoauto.py *)

Section PromoProcessor.

Variable upload_ok : str -> bool.
Variable completion : list str -> list str.

Lemma promoauto_upload_files directory files folder target st :
  snd (Promoauto.upload_files upload_ok completion directory files folder target st)
  = if existsb (upload_fails Promoauto.is_valid_filename upload_ok directory)
         (completion files)
    then Raise (CardProcessingError 1)
    else Ok (filter Promoauto.is_valid_filename (completion files)).
Proof.
  unfold Promoauto.upload_files.
  pose proof (promoauto_run_tasks upload_ok directory folder target
                (completion files) st) as H.
  destruct (Promoauto.run_tasks _ _ _ _ _ _) as [st' results]. simpl in *.
  subst results. now rewrite gather_outcomes.
Qed.

(** The cards the loop of [update_json_files] appends are built from
    names found in [valid_files]. *)
Lemma add_cards_built folder target valid_files walked :
  forall cards_data next_id cards',
  Promoauto.add_cards folder target valid_files walked cards_data next_id
    = Ok cards' ->
  exists new,
    cards' = cards_data ++ new
    /\ Forall (fun c => exists file,
                 In file valid_files /\ In file walked
                 /\ promo_built_from folder target file c) new.
Proof.
  induction walked as [|file walked IH]; intros cards_data next_id cards' H;
    cbn [Promoauto.add_cards] in H.
  - injection H as <-. exists []. split; [now rewrite app_nil_r | constructor].
  - assert (Hweak : forall cd n,
      Promoauto.add_cards folder target valid_files walked cd n = Ok cards' ->
      exists new,
        cards' = cd ++ new
        /\ Forall (fun c => exists f,
                     In f valid_files /\ In f (file :: walked)
                     /\ promo_built_from folder target f c) new).
    { intros cd n Hcd. apply IH in Hcd as (new & -> & Hnew).
      exists new. split; auto.
      eapply Forall_impl; [|exact Hnew].
      intros c (f & H1 & H2 & H3). exists f. simpl. auto. }
    destruct (existsb (str_eqb file) valid_files) eqn:Ein; cbn [negb] in H;
      [|now apply Hweak in H].
    apply existsb_exists in Ein as (f & Hf & Ef). apply str_eqb_eq in Ef. subst f.
    unfold promo_built_from in *.
    destruct (Py.splitext file) as [file_name file_ext] eqn:Esplit.
    destruct (existsb _ _); [|now apply Hweak in H].
    destruct (Py.int _) as [level|] eqn:Eint; [|discriminate].
    destruct (Promoauto.existing_card _ _ _); [now apply Hweak in H|].
    apply Hweak in H as (new & -> & Hnew).
    eexists (_ :: new). split; [rewrite <- app_assoc; reflexivity|].
    constructor; auto.
    exists file. split; [assumption|]. split; [now left|].
    rewrite Esplit. cbn [fst snd]. exists level. split; [assumption|reflexivity].
Qed.

(** [process_directory] of promoauto.py: the upload list holds validated
    names only, and every card added is built from one of them. *)
Lemma promo_process_directory d target promo_prefix w :
  forall w' valid_files new_collection_added,
  Promoauto.process_directory upload_ok completion d target promo_prefix w
    = (w', (valid_files, new_collection_added)) ->
  Forall (fun file => Promoauto.is_valid_filename file = true) valid_files
  /\ exists new,
       Promoauto.cards_data (Promoauto.files w')
       = Promoauto.cards_data (Promoauto.files w) ++ new
       /\ Forall (fun c => exists file,
                    In file valid_files
                    /\ promo_built_from (Py.basename (dir_path d)) target file c)
            new.
Proof.
  intros w' valid_files nca. unfold Promoauto.process_directory.
  pose proof (promoauto_upload_files (dir_path d)
                (Common.rename_files (dir_files d)) (Py.basename (dir_path d))
                (promo_prefix ++ target)
                (Promoauto.create_folder (Py.basename (dir_path d))
                   (promo_prefix ++ target) (Promoauto.store w))) as Hup.
  destruct (Promoauto.upload_files _ _ _ _ _ _ _) as [st2 uploaded].
  cbn [snd] in Hup. subst uploaded.
  destruct (existsb _ _).
  - intros H. injection H as <- <- _. split; [constructor|].
    exists []. split; [now rewrite app_nil_r | constructor].
  - set (vf := filter Promoauto.is_valid_filename
                 (completion (Common.rename_files (dir_files d)))).
    assert (Hvf : Forall (fun file => Promoauto.is_valid_filename file = true) vf)
      by apply filter_valid_all.
    unfold Promoauto.update_json_files. cbn [dir_path dir_files].
    destruct (Promoauto.ensure_collection _ _ _) as [collections' flag].
    destruct (add_cards_total (Py.basename (dir_path d)) target vf
                (map Py.basename (Common.rename_files (dir_files d))) Hvf
                (Promoauto.cards_data (Promoauto.files w))
                (Promoauto.first_next_id (Promoauto.cards_data (Promoauto.files w))))
      as (cards' & Hrun).
    rewrite Hrun. intros H. injection H as <- <- _. split; [exact Hvf|].
    apply add_cards_built in Hrun as (new & -> & Hnew).
    exists new. split; [reflexivity|].
    eapply Forall_impl; [|exact Hnew].
    intros c (f & H1 & _ & H3). eauto.
Qed.

End PromoProcessor.

(** C8.  A file whose relative path the validator rejects is skipped in
    silence: [upload_file] returns [None] for it, writes nothing to the
    bucket whatever the storage would answer, and raises nothing; the path
    is in no upload list, and the cards a directory adds are built, one for
    one, from the names of the upload list, so none is built from it.  This
    holds in both variants, each with its own validator. *)
Theorem invalid_names_skipped
    (upload_ok : str -> bool) (completion : list str -> list str) (rel : str) :
  (Automate.is_valid_filename rel = false ->
     (forall directory folder target st,
         Automate.upload_file upload_ok directory rel folder target st
         = (st, Ok None))
     /\ forall d target w w' valid_files new_collection_added,
          Automate.process_directory upload_ok completion d target w
            = (w', (valid_files, new_collection_added)) ->
          ~ In rel valid_files
          /\ Forall (fun file => Automate.is_valid_filename file = true) valid_files
          /\ exists new,
               Automate.cards (Automate.db w')
               = Automate.cards (Automate.db w) ++ new
               /\ Forall2 (built_from (Py.basename (dir_path d)) target)
                    valid_files new)
  /\ (Promoauto.is_valid_filename rel = false ->
        (forall directory folder target st,
            Promoauto.upload_file upload_ok directory rel folder target st
            = (st, Ok None))
        /\ forall d target promo_prefix w w' valid_files new_collection_added,
             Promoauto.process_directory upload_ok completion d target promo_prefix w
               = (w', (valid_files, new_collection_added)) ->
             ~ In rel valid_files
             /\ Forall (fun file => Promoauto.is_valid_filename file = true)
                  valid_files
             /\ exists new,
                  Promoauto.cards_data (Promoauto.files w')
                  = Promoauto.cards_data (Promoauto.files w) ++ new
                  /\ Forall (fun c => exists file,
                               In file valid_files
                               /\ promo_built_from (Py.basename (dir_path d))
                                    target file c) new).
Proof.
  split; intros Hrel; split.
  - intros directory folder target st. unfold Automate.upload_file.
    now rewrite Hrel.
  - intros d target w w' valid_files nca Hrun.
    destruct (existsb (upload_fails Automate.is_valid_filename upload_ok (dir_path d))
                (tasks_of completion d)) eqn:Ex.
    + rewrite (process_directory_failed upload_ok completion d target w Ex) in Hrun.
      injection Hrun as <- <- _. cbn [Automate.db].
      split; [intros []|]. split; [constructor|].
      exists []. split; [now rewrite app_nil_r | constructor].
    + destruct (process_directory_uploaded upload_ok completion d target w Ex)
        as (new & Hpd & _ & Hbuilt).
      rewrite Hpd in Hrun. injection Hrun as <- <- _.
      cbn [Automate.db Automate.cards].
      split; [|split; [apply filter_valid_all | eauto]].
      intros Hin. apply filter_In in Hin as [_ Hv]. congruence.
  - intros directory folder target st. unfold Promoauto.upload_file.
    now rewrite Hrel.
  - intros d target promo_prefix w w' valid_files nca Hrun.
    destruct (promo_process_directory upload_ok completion d target promo_prefix w
                w' valid_files nca Hrun) as (Hv & Hnew).
    split; [|split; assumption].
    intros Hin. rewrite Forall_forall in Hv. specialize (Hv rel Hin). congruence.
Qed.

(** ["bad!name.jpg"] is skipped. *)
Lemma invalid_names_skipped_witness :
  Automate.is_valid_filename "bad!name.jpg" = false
  /\ forall st,
       Automate.upload_file (fun _ => true) "in/twice" "bad!name.jpg" "twice"
         "girlgroups" st
       = (st, Ok None).
Proof.
  split; [reflexivity|].
  intros st.
  apply (proj1 (invalid_names_skipped (fun _ => true) (fun l => l) "bad!name.jpg")).
  reflexivity.
Defined.

(** ** Extensions *)

(** C10.  In both scripts [upload_file] uploads every file whose name the
    validator accepts, whatever its extension, gif included: the storage
    alone decides between the upload and the error of code 1, and
    [ACCEPTED_EXTENSIONS] is not consulted.  For an extension other than
    gif the key ends in [.jpg] after the stem and the content type is
    [image/jpeg]; for a gif the key keeps the extension and the content
    type is [image/gif].  Names with an extension outside
    [ACCEPTED_EXTENSIONS], such as ["1_a.txt"], pass the validator and are
    uploaded in this way. *)
Theorem upload_ignores_accepted_extensions
    (upload_ok : str -> bool) (directory rel folder target : str)
    (st : list s3_object) :
  let stem := fst (Py.splitext rel) in
  let ext := snd (Py.splitext rel) in
  let file_path := Py.path_join directory rel in
  (Automate.is_valid_filename rel = true ->
     Automate.upload_file upload_ok directory rel folder target st
     = if upload_ok file_path
       then (st ++ [automate_object directory folder target rel], Ok (Some rel))
       else (st, Raise (CardProcessingError 1)))
  /\ (str_eqb (Py.lower ext) ".gif" = false ->
        automate_object directory folder target rel
        = {| s3_key := "cards/" ++ target ++ "/" ++ folder ++ "/" ++ stem ++ ".jpg";
             s3_body := Some file_path;
             s3_acl := Some ("public-read" : str);
             s3_content_type := Some ("image/jpeg" : str) |})
  /\ (str_eqb (Py.lower ext) ".gif" = true ->
        automate_object directory folder target rel
        = {| s3_key := "cards/" ++ target ++ "/" ++ folder ++ "/" ++ stem ++ ext;
             s3_body := Some file_path;
             s3_acl := Some ("public-read" : str);
             s3_content_type := Some ("image/gif" : str) |})
  /\ (Promoauto.is_valid_filename rel = true ->
        Promoauto.upload_file upload_ok directory rel folder target st
        = if upload_ok file_path
          then (st ++ [promoauto_object directory folder target rel], Ok (Some rel))
          else (st, Raise (CardProcessingError 1)))
  /\ (str_eqb (Py.lower ext) ".gif" = false ->
        promoauto_object directory folder target rel
        = {| s3_key := target ++ "/" ++ folder ++ "/" ++ stem ++ ".jpg";
             s3_body := Some file_path;
             s3_acl := Some ("public-read" : str);
             s3_content_type := Some ("image/jpeg" : str) |})
  /\ (str_eqb (Py.lower ext) ".gif" = true ->
        promoauto_object directory folder target rel
        = {| s3_key := target ++ "/" ++ folder ++ "/" ++ stem ++ ext;
             s3_body := Some file_path;
             s3_acl := Some ("public-read" : str);
             s3_content_type := Some ("image/gif" : str) |})
  /\ (Automate.is_valid_filename "1_a.txt" = true
      /\ Promoauto.is_valid_filename "1_a_b.txt" = true
      /\ ~ In (".txt" : str) Automate.ACCEPTED_EXTENSIONS
      /\ ~ In (".txt" : str) Promoauto.ACCEPTED_EXTENSIONS
      /\ Automate.s3_path "twice" "girlgroups" "1_a.txt"
         = ("cards/girlgroups/twice/1_a.jpg" : str)
      /\ Promoauto.s3_path "twice" "girlgroups" "1_a_b.txt"
         = ("girlgroups/twice/1_a_b.jpg" : str)).
Proof.
  cbv zeta.
  split; [|split; [|split; [|split; [|split; [|split]]]]].
  - intros Hv. unfold Automate.upload_file. rewrite Hv. reflexivity.
  - intros Hgif. unfold automate_object, Automate.s3_path, Automate.content_type.
    destruct (Py.splitext rel) as [stem ext]. cbn [fst snd] in *.
    now rewrite Hgif.
  - intros Hgif. unfold automate_object, Automate.s3_path, Automate.content_type.
    destruct (Py.splitext rel) as [stem ext]. cbn [fst snd] in *.
    now rewrite Hgif.
  - intros Hv. unfold Promoauto.upload_file, promoauto_object.
    rewrite Hv. reflexivity.
  - intros Hgif.
    unfold promoauto_object, Promoauto.s3_path, Promoauto.content_type.
    destruct (Py.splitext rel) as [stem ext]. cbn [fst snd] in *.
    now rewrite Hgif.
  - intros Hgif.
    unfold promoauto_object, Promoauto.s3_path, Promoauto.content_type.
    destruct (Py.splitext rel) as [stem ext]. cbn [fst snd] in *.
    now rewrite Hgif.
  - repeat split; try reflexivity;
      intros H; vm_compute in H; intuition discriminate.
Qed.

(** ["1_a.txt"] is uploaded as [1_a.jpg] by automate.py; promoauto.py
    uploads ["1_a_b.txt"] as [1_a_b.jpg] and ["1_a_b.GIF"] under its own
    name. *)
Lemma upload_ignores_accepted_extensions_witness :
  Automate.is_valid_filename "1_a.txt" = true
  /\ Automate.upload_file (fun _ => true) "in/twice" "1_a.txt" "twice" "girlgroups" []
     = ([ {| s3_key := "cards/girlgroups/twice/1_a.jpg" : str;
             s3_body := Some ("in/twice/1_a.txt" : str);
             s3_acl := Some ("public-read" : str);
             s3_content_type := Some ("image/jpeg" : str) |} ],
        Ok (Some ("1_a.txt" : str)))
  /\ Promoauto.upload_file (fun _ => true) "in/twice" "1_a_b.txt" "twice"
       "girlgroups" []
     = ([ {| s3_key := "girlgroups/twice/1_a_b.jpg" : str;
             s3_body := Some ("in/twice/1_a_b.txt" : str);
             s3_acl := Some ("public-read" : str);
             s3_content_type := Some ("image/jpeg" : str) |} ],
        Ok (Some ("1_a_b.txt" : str)))
  /\ Promoauto.upload_file (fun _ => true) "in/twice" "1_a_b.GIF" "twice"
       "girlgroups" []
     = ([ {| s3_key := "girlgroups/twice/1_a_b.GIF" : str;
             s3_body := Some ("in/twice/1_a_b.GIF" : str);
             s3_acl := Some ("public-read" : str);
             s3_content_type := Some ("image/gif" : str) |} ],
        Ok (Some ("1_a_b.GIF" : str))).
Proof.
  split; [reflexivity|]. split; [|split].
  - rewrite (proj1 (upload_ignores_accepted_extensions
                      (fun _ => true) "in/twice" "1_a.txt" "twice" "girlgroups" []));
      reflexivity.
  - rewrite (proj1 (proj2 (proj2 (proj2 (upload_ignores_accepted_extensions
                      (fun _ => true) "in/twice" "1_a_b.txt" "twice" "girlgroups" [])))));
      reflexivity.
  - rewrite (proj1 (proj2 (proj2 (proj2 (upload_ignores_accepted_extensions
                      (fun _ => true) "in/twice" "1_a_b.GIF" "twice" "girlgroups" [])))));
      reflexivity.
Defined.

(** C2.  What the code does with an animated file: the key under which
    [upload_file] stores ["1_abc.gif"] keeps the extension [.gif], while the
    [url] and [shorturl] that [update_database] writes on its card end in
    [.jpg], as they do for every card. *)
Theorem animated_card_url_is_jpg :
  (forall folder target file level n,
      exists base,
        Automate.url (Automate.new_card folder target file level n)
        = "https://hyejoo.sfo2.digitaloceanspaces.com" ++ base ++ ".jpg"
        /\ Automate.shorturl (Automate.new_card folder target file level n)
           = "https://cards.hyejoobot.com" ++ base ++ ".jpg")
  /\ (forall folder target rel,
        str_eqb (Py.lower (snd (Py.splitext rel))) ".gif" = true ->
        Automate.s3_path folder target rel
        = "cards/" ++ target ++ "/" ++ folder ++ "/" ++ rel)
  /\ Automate.process_directory (fun _ => true) (fun l => l)
       {| dir_path := "in/twice"; dir_files := ["1_abc.gif" : str] |}
       "girlgroups"
       {| Automate.store := [];
          Automate.db := {| Automate.collections := []; Automate.cards := [] |} |}
     = ({| Automate.store :=
             [ {| s3_key := "cards/girlgroups/twice/" : str;
                  s3_body := None; s3_acl := None; s3_content_type := None |};
               {| s3_key := "cards/girlgroups/twice/1_abc.gif" : str;
                  s3_body := Some ("in/twice/1_abc.gif" : str);
                  s3_acl := Some ("public-read" : str);
                  s3_content_type := Some ("image/gif" : str) |} ];
           Automate.db :=
             {| Automate.collections :=
                  [Automate.new_collection "twice" "girlgroups"];
                Automate.cards :=
                  [ {| Automate.id := 0;
                       Automate.name := "abc" : str;
                       Automate.level := 1;
                       Automate.col := "twice" : str;
                       Automate.animated := true;
                       Automate.tags := "girlgroups" : str;
                       Automate.url :=
                         "https://hyejoo.sfo2.digitaloceanspaces.com/cards/girlgroups/twice/1_abc.jpg" : str;
                       Automate.shorturl :=
                         "https://cards.hyejoobot.com/cards/girlgroups/twice/1_abc.jpg" : str |} ] |} |},
        (["1_abc.gif" : str], true)).
Proof.
  split; [|split].
  - intros folder target file level n. unfold Automate.new_card.
    destruct (Py.splitext file) as [stem ext]. cbn [Automate.url Automate.shorturl].
    exists ("/cards/" ++ target ++ "/" ++ folder ++ "/" ++ Py.str_of_int level
              ++ "_" ++ Py.join "_" (tl (Py.split "_" (Py.lower stem)))).
    split; rewrite <- !app_assoc; reflexivity.
  - intros folder target rel Hgif. unfold Automate.s3_path.
    pose proof (splitext_app rel) as Happ.
    destruct (Py.splitext rel) as [stem ext]. cbn [fst snd] in *.
    now rewrite Hgif, Happ.
  - vm_compute. reflexivity.
Qed.

(** ** The collection upsert *)

Section Upsert.

Lemma find_collection_snoc folder target cs :
  Automate.find_collection folder cs = None ->
  Automate.find_collection folder (cs ++ [Automate.new_collection folder target])
  = Some (Automate.new_collection folder target).
Proof.
  unfold Automate.find_collection.
  induction cs as [|c cs IH]; simpl; intros H.
  - now rewrite str_eqb_refl.
  - destruct (str_eqb (Automate.col_id c) folder); [discriminate | auto].
Qed.

(** The upsert block of automate.py, run again on its own result, inserts
    nothing and sets its flag to [False]. *)
Lemma automate_ensure_collection_twice folder target cs :
  Automate.ensure_collection folder target
    (fst (Automate.ensure_collection folder target cs))
  = (fst (Automate.ensure_collection folder target cs), false).
Proof.
  unfold Automate.ensure_collection at 2 3.
  destruct (Automate.find_collection folder cs) as [c|] eqn:E; cbn [fst];
    unfold Automate.ensure_collection.
  - now rewrite E.
  - now rewrite (find_collection_snoc folder target cs E).
Qed.

Lemma promoauto_ensure_collection_twice folder target cs :
  Promoauto.ensure_collection folder target
    (fst (Promoauto.ensure_collection folder target cs))
  = (fst (Promoauto.ensure_collection folder target cs), false).
Proof.
  unfold Promoauto.ensure_collection at 2 3.
  destruct (existsb _ cs) eqn:E; cbn [negb fst]; unfold Promoauto.ensure_collection.
  - now rewrite E.
  - rewrite existsb_app. cbn [existsb Promoauto.new_collection Promoauto.col_id].
    now rewrite str_eqb_refl, orb_true_r.
Qed.

End Upsert.

(** C4.  What the code does when the upsert runs twice for one folder.  The
    block itself is idempotent: the first run adds the collection when it is
    absent, the second run adds nothing and sets the local flag
    [new_collection_added] to [False].  But [update_database] does not
    return that flag: its second call returns [True], the value its caller
    takes for [new_collection_added]; and [update_json_files] returns
    [None] from both calls. *)
Theorem collection_upsert_second_call_reports_true :
  (forall folder target cs,
      Automate.ensure_collection folder target
        (fst (Automate.ensure_collection folder target cs))
      = (fst (Automate.ensure_collection folder target cs), false)
      /\ (Automate.find_collection folder cs = None ->
          Automate.ensure_collection folder target cs
          = (cs ++ [Automate.new_collection folder target], true)))
  /\ (forall folder target cs,
        Promoauto.ensure_collection folder target
          (fst (Promoauto.ensure_collection folder target cs))
        = (fst (Promoauto.ensure_collection folder target cs), false))
  /\ (forall directory target files1 files2 d d1 r1 d2 r2,
        Automate.update_database directory target files1 d = (d1, r1) ->
        Automate.update_database directory target files2 d1 = (d2, r2) ->
        Automate.collections d2 = Automate.collections d1
        /\ (Forall (fun file => Automate.is_valid_filename file = true) files2 ->
            r2 = Ok true))
  /\ (let d0 := {| Automate.collections := []; Automate.cards := [] |} in
      let d1 := {| Automate.collections :=
                     [Automate.new_collection "twice" "girlgroups"];
                   Automate.cards := [] |} in
      Automate.update_database "in/girlgroups/twice" "girlgroups" [] d0 = (d1, Ok true)
      /\ Automate.update_database "in/girlgroups/twice" "girlgroups" [] d1
         = (d1, Ok true))
  /\ (let d := {| dir_path := "in/girlgroups/twice"; dir_files := [] |} in
      let f0 := {| Promoauto.cards_data := []; Promoauto.collections_data := [] |} in
      let f1 := {| Promoauto.cards_data := [];
                   Promoauto.collections_data :=
                     [Promoauto.new_collection "twice" "girlgroups"] |} in
      Promoauto.update_json_files d "girlgroups" [] f0 = (f1, Ok None)
      /\ Promoauto.update_json_files d "girlgroups" [] f1 = (f1, Ok None)).
Proof.
  split; [|split; [|split; [|split; split; reflexivity]]].
  - intros folder target cs. split.
    + apply automate_ensure_collection_twice.
    + intros H. unfold Automate.ensure_collection. now rewrite H.
  - apply promoauto_ensure_collection_twice.
  - intros directory target files1 files2 d d1 r1 d2 r2 H1 H2.
    rewrite update_database_unfold in H1, H2.
    injection H1 as <- _. cbn [Automate.collections Automate.cards] in H2.
    rewrite automate_ensure_collection_twice in H2. cbn [fst] in H2.
    injection H2 as <- <-. cbn [Automate.collections]. split; [reflexivity|].
    intros Hv.
    destruct (insert_cards_ok (Py.basename directory) target files2
                (fst (Automate.insert_cards (Py.basename directory) target files1
                        (Automate.cards d))) Hv)
      as (new & Hrun & _).
    now rewrite Hrun.
Qed.

(** ** Duplicate names *)

Section Duplicates.

Lemma check_name_duplicates_spec names n :
  In n (Common.check_name_duplicates names)
  <-> (1 < count_occ str_eq_dec names n)%nat.
Proof.
  unfold Common.check_name_duplicates. rewrite nodup_In, filter_In. split.
  - intros [_ H]. apply Z.ltb_lt in H. lia.
  - intros H. split.
    + apply (count_occ_In str_eq_dec). lia.
    + apply Z.ltb_lt. lia.
Qed.

Lemma existsb_never (f : str -> bool) l :
  (forall x, f x = false) -> existsb f l = false.
Proof.
  intros H. induction l as [|x l IH]; simpl; auto. now rewrite H, IH.
Qed.

Lemma new_card_name folder target file level n :
  Automate.name (Automate.new_card folder target file level n)
  = Py.join "_" (tl (Py.split "_" (Py.lower (fst (Py.splitext file))))).
Proof.
  unfold Automate.new_card. now destruct (Py.splitext file).
Qed.

Lemma built_from_name folder target file c :
  built_from folder target file c ->
  Automate.name c
  = Py.join "_" (tl (Py.split "_" (Py.lower (fst (Py.splitext file)))))
  /\ Automate.col c = folder.
Proof.
  intros (level & _ & ->). rewrite new_card_name, new_card_col. auto.
Qed.

End Duplicates.

(** C6, as stated, fails for promoauto.py: its validator rejects
    ["1_abc.jpg"] and ["2_abc.jpg"], so nothing is uploaded and no card is
    inserted; and where two accepted files give one name, the second is
    uploaded and skipped by the catalog step. *)
Lemma promoauto_blocks_duplicate_names :
  let w0 := {| Promoauto.store := [];
               Promoauto.files := {| Promoauto.cards_data := [];
                                     Promoauto.collections_data := [] |} |} in
  (exists w',
      Promoauto.process_directory (fun _ => true) (fun l => l)
        {| dir_path := "in/twice";
           dir_files := ["1_abc.jpg" : str; "2_abc.jpg" : str; "bad!name.jpg" : str] |}
        "girlgroups" "" w0
      = (w', ([], None))
      /\ Promoauto.cards_data (Promoauto.files w') = [])
  /\ (exists w',
        Promoauto.process_directory (fun _ => true) (fun l => l)
          {| dir_path := "in/twice";
             dir_files := ["1_a_bc.jpg" : str; "2_a_bc.jpg" : str] |}
          "girlgroups" "" w0
        = (w', (["1_a_bc.jpg" : str; "2_a_bc.jpg" : str], None))
        /\ map Promoauto.name (Promoauto.cards_data (Promoauto.files w'))
           = ["a_bc" : str]).
Proof.
  split; eexists; split; vm_compute; reflexivity.
Qed.

(** C6, amended to automate.py.  For a directory that holds ["1_abc.jpg"],
    ["2_abc.jpg"] and the invalidly named ["bad!name.jpg"], with a storage
    that accepts the uploads and whatever the completion order,
    [process_directory] uploads the two valid files, skips the third,
    inserts two cards named ["abc"] in the collection of the folder, and
    [check_name_duplicates] over the names of the resulting catalog reports
    ["abc"] (and nothing else when the catalog was empty). *)
Theorem duplicate_names_inserted
    (upload_ok : str -> bool) (completion : list str -> list str)
    (path target : str) (w : Automate.world) :
  (forall l, Permutation (completion l) l) ->
  (forall p, upload_ok p = true) ->
  let d := {| dir_path := path;
              dir_files := ["1_abc.jpg" : str; "2_abc.jpg" : str;
                            "bad!name.jpg" : str] |} in
  let folder := Py.basename path in
  exists w' valid_files objs c1 c2,
    Automate.process_directory upload_ok completion d target w
    = (w', (valid_files, true))
    /\ Permutation valid_files ["1_abc.jpg" : str; "2_abc.jpg" : str]
    /\ Automate.store w'
       = Automate.create_folder folder target (Automate.store w) ++ objs
    /\ Permutation objs
         [automate_object path folder target "1_abc.jpg";
          automate_object path folder target "2_abc.jpg"]
    /\ Automate.cards (Automate.db w') = Automate.cards (Automate.db w) ++ [c1; c2]
    /\ Automate.name c1 = ("abc" : str) /\ Automate.name c2 = ("abc" : str)
    /\ Automate.col c1 = folder /\ Automate.col c2 = folder
    /\ In ("abc" : str)
         (Common.check_name_duplicates
            (map Automate.name (Automate.cards (Automate.db w'))))
    /\ (Automate.cards (Automate.db w) = [] ->
        Common.check_name_duplicates
          (map Automate.name (Automate.cards (Automate.db w')))
        = ["abc" : str]).
Proof.
  intros Hperm Hok d folder.
  assert (Hex : existsb (upload_fails Automate.is_valid_filename upload_ok (dir_path d))
                  (tasks_of completion d) = false).
  { apply existsb_never. intros x. unfold upload_fails.
    rewrite Hok. apply andb_false_r. }
  destruct (process_directory_uploaded upload_ok completion d target w Hex)
    as (new & Hpd & _ & Hbuilt).
  set (valid_files := filter Automate.is_valid_filename (tasks_of completion d)) in *.
  assert (Hvf : Permutation valid_files ["1_abc.jpg" : str; "2_abc.jpg" : str]).
  { unfold valid_files, tasks_of.
    eapply Permutation_trans; [apply Permutation_filter, Hperm|].
    vm_compute. apply Permutation_refl. }
  assert (Hobjs : filter (fun rel => Automate.is_valid_filename rel
                            && upload_ok (Py.path_join (dir_path d) rel))
                    (tasks_of completion d) = valid_files).
  { apply filter_ext. intros rel. rewrite Hok. apply andb_true_r. }
  assert (Hnames : exists c1 c2,
    new = [c1; c2]
    /\ Automate.name c1 = ("abc" : str) /\ Automate.name c2 = ("abc" : str)
    /\ Automate.col c1 = folder /\ Automate.col c2 = folder).
  { apply Permutation_sym, Permutation_length_2_inv in Hvf.
    destruct Hvf as [Hvf | Hvf]; rewrite Hvf in Hbuilt;
      inversion Hbuilt as [|f1 c1 l1 n1 B1 Hrest]; subst;
      inversion Hrest as [|f2 c2 l2 n2 B2 Hnil]; subst;
      inversion Hnil; subst;
      apply built_from_name in B1 as [N1 C1];
      apply built_from_name in B2 as [N2 C2];
      exists c1, c2; repeat split; auto. }
  destruct Hnames as (c1 & c2 & -> & N1 & N2 & C1 & C2).
  eexists _, valid_files, _, c1, c2.
  split; [exact Hpd|]. split; [exact Hvf|].
  cbn [Automate.store Automate.db Automate.cards].
  split; [reflexivity|]. split.
  { rewrite Hobjs. cbn [dir_path].
    apply (Permutation_map (automate_object path (Py.basename path) target)) in Hvf.
    exact Hvf. }
  split; [reflexivity|].
  split; [exact N1|]. split; [exact N2|]. split; [exact C1|]. split; [exact C2|].
  split.
  - apply check_name_duplicates_spec.
    rewrite map_app, count_occ_app. cbn [map]. rewrite N1, N2.
    cbn [count_occ]. destruct (str_eq_dec "abc" "abc"); [lia | congruence].
  - intros ->. cbn [app map]. rewrite N1, N2. reflexivity.
Qed.

(** The three files of the example, the pool finishing in reverse order. *)
Lemma duplicate_names_inserted_witness :
  let w0 := {| Automate.store := [];
               Automate.db := {| Automate.collections := [];
                                 Automate.cards := [] |} |} in
  exists w' valid_files,
    Automate.process_directory (fun _ => true) (@rev str)
      {| dir_path := "in/girlgroups/twice";
         dir_files := ["1_abc.jpg" : str; "2_abc.jpg" : str; "bad!name.jpg" : str] |}
      "girlgroups" w0
    = (w', (valid_files, true))
    /\ Common.check_name_duplicates
         (map Automate.name (Automate.cards (Automate.db w')))
       = ["abc" : str].
Proof.
  intros w0.
  destruct (duplicate_names_inserted (fun _ => true) (@rev str)
              "in/girlgroups/twice" "girlgroups" w0)
    as (w' & valid_files & objs & c1 & c2 & Hpd & _ & _ & _ & _ & _ & _ & _ & _ & _ & Hdup).
  - intros l. apply Permutation_sym, Permutation_rev.
  - reflexivity.
  - exists w', valid_files. split; [exact Hpd|]. apply Hdup. reflexivity.
Defined.

(** * Further properties of the code *)

(** ** Trailing text and renaming against the validators *)

Section ValidatorsAndRenaming.

Ltac by_bytes_hyp c :=
  destruct c as [[] [] [] [] [] [] [] []]; vm_compute; intros; congruence.

Lemma norm_char_digit c : Py.is_digit c = true -> norm_char c = c.
Proof. by_bytes_hyp c. Qed.

Lemma norm_char_word c : Py.is_word c = true -> Py.is_word (norm_char c) = true.
Proof. by_bytes_hyp c. Qed.

Lemma renames_to_digit a b :
  renames_to a b -> Py.is_digit a = true -> Py.is_digit b = true.
Proof.
  intros [-> | ->] H; auto. now rewrite (norm_char_digit a H).
Qed.

Lemma renames_to_word a b :
  renames_to a b -> Py.is_word a = true -> Py.is_word b = true.
Proof.
  intros [-> | ->] H; auto. now apply norm_char_word.
Qed.

Lemma renames_to_underscore b : renames_to "_" b -> b = "_"%char.
Proof. intros [-> | ->]; reflexivity. Qed.

Lemma renames_to_dot b : renames_to "." b -> b = "."%char.
Proof. intros [-> | ->]; reflexivity. Qed.

Lemma renames_to_sep a b :
  renames_to a b -> Ascii.eqb "/" b = Ascii.eqb "/" a.
Proof. intros [-> | ->]; auto. apply norm_char_sep. Qed.

Lemma renames_run (cls : ascii -> bool) s s' :
  (forall a b, renames_to a b -> cls a = true -> cls b = true) ->
  Forall2 renames_to s s' ->
  s <> [] /\ forallb cls s = true -> s' <> [] /\ forallb cls s' = true.
Proof.
  intros Hcls HF [Hne Hall]. split.
  - destruct HF; [congruence | discriminate].
  - clear Hne. induction HF as [|a b s s' Hab HF IH]; simpl in *; auto.
    apply andb_true_iff in Hall as [Ha Hs].
    now rewrite (Hcls a b Hab Ha), (IH Hs).
Qed.

Lemma Forall2_renames_refl s : Forall2 renames_to s s.
Proof. induction s; constructor; auto. now left. Qed.

Lemma Forall2_renames_norm s : Forall2 renames_to s (map norm_char s).
Proof. induction s; simpl; constructor; auto. now right. Qed.

(** The new name differs from the old one character by character only. *)
Lemma new_file_name_pointwise x :
  Forall2 renames_to x (Common.new_file_name x).
Proof.
  rewrite new_file_name_eq.
  rewrite <- (firstn_skipn (stem_length x) x) at 1.
  apply Forall2_app; [apply Forall2_renames_norm | apply Forall2_renames_refl].
Qed.

Lemma dirpart_basename rel : Py.dirpart rel ++ Py.basename rel = rel.
Proof. apply firstn_skipn. Qed.

Lemma renamed_path_pointwise rel : Forall2 renames_to rel (renamed_path rel).
Proof.
  unfold renamed_path. rewrite <- (dirpart_basename rel) at 1.
  apply Forall2_app; [apply Forall2_renames_refl | apply new_file_name_pointwise].
Qed.

(** A path that differs from a valid one by renaming steps is valid. *)
Lemma automate_valid_pointwise s s' :
  Forall2 renames_to s s' ->
  Automate.is_valid_filename s = true -> Automate.is_valid_filename s' = true.
Proof.
  intros HF H.
  apply automate_valid_iff in H as (d & w & e & rest & -> & Hd & Hw & He).
  apply Forall2_app_inv_l in HF as (d' & t1 & Fd & HF & ->).
  inversion HF as [|u u' t t2 Fu HF1]; subst.
  apply Forall2_app_inv_l in HF1 as (w' & t3 & Fw & HF2 & ->).
  inversion HF2 as [|o o' t t4 Fo HF3]; subst.
  apply Forall2_app_inv_l in HF3 as (e' & rest' & Fe & _ & ->).
  apply renames_to_underscore in Fu. apply renames_to_dot in Fo. subst.
  apply automate_valid_iff. exists d', w', e', rest'.
  split; [reflexivity|].
  split; [exact (renames_run Py.is_digit d d' renames_to_digit Fd Hd)|].
  split; [exact (renames_run Py.is_word w w' renames_to_word Fw Hw)|].
  exact (renames_run Py.is_word e e' renames_to_word Fe He).
Qed.

Lemma promoauto_valid_pointwise s s' :
  Forall2 renames_to s s' ->
  Promoauto.is_valid_filename s = true -> Promoauto.is_valid_filename s' = true.
Proof.
  intros HF H.
  apply promoauto_valid_iff in H
    as (d & w1 & w2 & e & rest & -> & Hd & Hw1 & Hw2 & He).
  apply Forall2_app_inv_l in HF as (d' & t1 & Fd & HF & ->).
  inversion HF as [|u u' t t2 Fu HF1]; subst.
  apply Forall2_app_inv_l in HF1 as (w1' & t3 & Fw1 & HF2 & ->).
  inversion HF2 as [|v v' t t4 Fv HF3]; subst.
  apply Forall2_app_inv_l in HF3 as (w2' & t5 & Fw2 & HF4 & ->).
  inversion HF4 as [|o o' t t6 Fo HF5]; subst.
  apply Forall2_app_inv_l in HF5 as (e' & rest' & Fe & _ & ->).
  apply renames_to_underscore in Fu, Fv. apply renames_to_dot in Fo. subst.
  apply promoauto_valid_iff. exists d', w1', w2', e', rest'.
  split; [reflexivity|].
  split; [exact (renames_run Py.is_digit d d' renames_to_digit Fd Hd)|].
  split; [exact (renames_run Py.is_word w1 w1' renames_to_word Fw1 Hw1)|].
  split; [exact (renames_run Py.is_word w2 w2' renames_to_word Fw2 Hw2)|].
  exact (renames_run Py.is_word e e' renames_to_word Fe He).
Qed.

End ValidatorsAndRenaming.

(** X1.  The validators use [pattern.match] on a pattern without an end
    anchor: whatever is appended to an accepted path, the result is
    accepted. *)
Theorem valid_path_extends (path rest : str) :
  (Automate.is_valid_filename path = true ->
   Automate.is_valid_filename (path ++ rest) = true)
  /\ (Promoauto.is_valid_filename path = true ->
      Promoauto.is_valid_filename (path ++ rest) = true).
Proof.
  split; intros H.
  - apply automate_valid_iff in H as (d & w & e & r & -> & Hd & Hw & He).
    apply automate_valid_iff. exists d, w, e, (r ++ rest).
    split; [|tauto].
    rewrite <- !app_assoc. simpl. rewrite <- !app_assoc. simpl.
    now rewrite <- !app_assoc.
  - apply promoauto_valid_iff in H
      as (d & w1 & w2 & e & r & -> & Hd & Hw1 & Hw2 & He).
    apply promoauto_valid_iff. exists d, w1, w2, e, (r ++ rest).
    split; [|tauto].
    rewrite <- !app_assoc. simpl. rewrite <- !app_assoc. simpl.
    rewrite <- !app_assoc. simpl. now rewrite <- !app_assoc.
Qed.

(** ["1_a.jpg"] with trailing text, and a file below a directory whose name
    has the accepted shape. *)
Lemma valid_path_extends_witness :
  Automate.is_valid_filename ("1_a.jpg" ++ ".exe") = true
  /\ Automate.is_valid_filename ("1_a.b" ++ "/notes.txt") = true.
Proof.
  split.
  - apply (proj1 (valid_path_extends "1_a.jpg" ".exe")). reflexivity.
  - apply (proj1 (valid_path_extends "1_a.b" "/notes.txt")). reflexivity.
Defined.

(** X2.  Renaming never spoils a name made of ASCII characters: a file
    with such a path that a validator accepts before [rename_files] has a
    path it accepts afterwards, and that path is in the renamed listing. *)
Theorem rename_keeps_valid (files : list str) (rel : str) :
  ascii_only rel ->
  In rel files ->
  In (renamed_path rel) (Common.rename_files files)
  /\ (Automate.is_valid_filename rel = true ->
      Automate.is_valid_filename (renamed_path rel) = true)
  /\ (Promoauto.is_valid_filename rel = true ->
      Promoauto.is_valid_filename (renamed_path rel) = true).
Proof.
  intros _ Hin. split; [|split].
  - unfold Common.rename_files. apply nodup_In.
    apply (in_map renamed_path). exact Hin.
  - apply automate_valid_pointwise, renamed_path_pointwise.
  - apply promoauto_valid_pointwise, renamed_path_pointwise.
Qed.

Lemma rename_keeps_valid_witness :
  ascii_only "12_Red_Velvet.PNG"
  /\ In ("12_Red_Velvet.PNG" : str)
       ["12_Red_Velvet.PNG" : str; "1 Irene.jpg" : str]
  /\ In (renamed_path "12_Red_Velvet.PNG")
        (Common.rename_files ["12_Red_Velvet.PNG" : str; "1 Irene.jpg" : str])
  /\ Automate.is_valid_filename (renamed_path "12_Red_Velvet.PNG") = true.
Proof.
  assert (Hin : In ("12_Red_Velvet.PNG" : str)
                  ["12_Red_Velvet.PNG" : str; "1 Irene.jpg" : str])
    by (left; reflexivity).
  split; [reflexivity|]. split; [exact Hin|].
  destruct (rename_keeps_valid _ "12_Red_Velvet.PNG" eq_refl Hin) as (H1 & H2 & _).
  split; [exact H1 | apply H2; reflexivity].
Defined.

(** ** What renaming does to a listing *)

Section Renaming.

Ltac by_bytes c :=
  destruct c as [[] [] [] [] [] [] [] []]; vm_compute; reflexivity.

Lemma norm_char_plain c :
  negb (Py.is_upper (norm_char c)) && negb (Ascii.eqb (norm_char c) " ") = true.
Proof. by_bytes c. Qed.

Lemma splitext_new_file_name x :
  Py.splitext (Common.new_file_name x)
  = (map norm_char (fst (Py.splitext x)), snd (Py.splitext x)).
Proof.
  rewrite (splitext_by_length (Common.new_file_name x)).
  rewrite stem_length_new_file_name, new_file_name_eq.
  rewrite (splitext_by_length x). cbn [fst snd].
  assert (Hk : List.length (map norm_char (firstn (stem_length x) x)) = stem_length x).
  { rewrite length_map, length_firstn. pose proof (stem_length_le x). lia. }
  now rewrite (firstn_at_length _ _ _ Hk), (skipn_at_length _ _ _ Hk).
Qed.

(** The second renaming of a name gives the name again. *)
Lemma new_file_name_fixed x :
  Common.new_file_name (Common.new_file_name x) = Common.new_file_name x.
Proof.
  unfold Common.new_file_name at 1. rewrite splitext_new_file_name.
  rewrite replace_lower, map_map.
  rewrite (map_ext _ norm_char) by (intros c; apply norm_char_idem).
  rewrite new_file_name_eq, (splitext_by_length x). reflexivity.
Qed.

Lemma rfind_sep_pointwise a b :
  Forall2 renames_to a b -> Py.rfind "/" a = Py.rfind "/" b.
Proof.
  intros HF. apply rfind_ext.
  induction HF as [|x y a b Hxy HF IH]; cbn [map]; auto.
  now rewrite (renames_to_sep x y Hxy), IH.
Qed.

Lemma dirpart_length rel :
  List.length (Py.dirpart rel) = Z.to_nat (Py.rfind "/" rel + 1).
Proof.
  unfold Py.dirpart. rewrite length_firstn.
  pose proof (rfind_bounds "/" rel). lia.
Qed.

Lemma dirpart_renamed rel : Py.dirpart (renamed_path rel) = Py.dirpart rel.
Proof.
  unfold Py.dirpart at 1.
  rewrite <- (rfind_sep_pointwise _ _ (renamed_path_pointwise rel)).
  unfold renamed_path. apply firstn_at_length, dirpart_length.
Qed.

Lemma basename_renamed rel :
  Py.basename (renamed_path rel) = Common.new_file_name (Py.basename rel).
Proof.
  unfold Py.basename at 1.
  rewrite <- (rfind_sep_pointwise _ _ (renamed_path_pointwise rel)).
  unfold renamed_path. apply skipn_at_length, dirpart_length.
Qed.

Lemma renamed_path_fixed rel : renamed_path (renamed_path rel) = renamed_path rel.
Proof.
  unfold renamed_path at 1.
  now rewrite dirpart_renamed, basename_renamed, new_file_name_fixed.
Qed.

Lemma map_fixed (f : str -> str) l :
  (forall x, In x l -> f x = x) -> map f l = l.
Proof.
  induction l as [|x l IH]; simpl; intros H; auto.
  rewrite (H x (or_introl eq_refl)), IH; auto.
Qed.

Lemma norm_char_ascii c : Py.is_ascii c = true -> Py.is_ascii (norm_char c) = true.
Proof. destruct c as [[] [] [] [] [] [] [] []]; vm_compute; congruence. Qed.

Lemma renamed_ascii x y :
  Forall2 renames_to x y -> ascii_only x -> ascii_only y.
Proof.
  unfold ascii_only. induction 1 as [|a b x y Hab HF IH]; [auto|].
  cbn [forallb]. intros H. apply andb_true_iff in H as [Ha Hx].
  apply andb_true_iff. split; [|now apply IH].
  destruct Hab as [-> | ->]; [assumption | now apply norm_char_ascii].
Qed.

End Renaming.

(** X3.  [rename_files] keeps the extension of every file as it is, casing
    included: the new name splits into the lower-cased stem with its spaces
    turned into underscores and the old extension.  For a name made of
    ASCII characters the new stem holds none of the letters [A-Z] and no
    space, and the new name is as long as the old one and made of ASCII
    characters again. *)
Theorem rename_keeps_extension (x : str) :
  Py.splitext (Common.new_file_name x)
  = (Py.replace " " "_" (Py.lower (fst (Py.splitext x))), snd (Py.splitext x))
  /\ (ascii_only x ->
      forallb (fun c => negb (Py.is_upper c) && negb (Ascii.eqb c " "))
        (fst (Py.splitext (Common.new_file_name x))) = true
      /\ List.length (Common.new_file_name x) = List.length x
      /\ ascii_only (Common.new_file_name x)).
Proof.
  rewrite splitext_new_file_name, replace_lower. cbn [fst].
  split; [reflexivity|]. intros Hascii. split; [|split].
  - apply forallb_forall. intros c Hc.
    apply in_map_iff in Hc as (a & <- & _). apply norm_char_plain.
  - symmetry. apply (Forall2_length (new_file_name_pointwise x)).
  - exact (renamed_ascii _ _ (new_file_name_pointwise x) Hascii).
Qed.

Lemma rename_keeps_extension_witness :
  ascii_only "12 Red Velvet.PNG"
  /\ Py.splitext (Common.new_file_name "12 Red Velvet.PNG")
     = ("12_red_velvet" : str, ".PNG" : str)
  /\ List.length (Common.new_file_name "12 Red Velvet.PNG") = 17%nat.
Proof.
  split; [reflexivity|].
  destruct (rename_keeps_extension "12 Red Velvet.PNG") as (Hsplit & Hrest).
  destruct (Hrest eq_refl) as (_ & Hlen & _).
  split; [exact Hsplit | exact Hlen].
Defined.

(** X4.  A second run of [rename_files] over a renamed directory renames
    nothing: the listing it leaves is the listing it found, and that listing
    names no file twice. *)
Theorem rename_files_twice (files : list str) :
  Common.rename_files (Common.rename_files files) = Common.rename_files files
  /\ NoDup (Common.rename_files files)
  /\ forall rel, In rel (Common.rename_files files) -> renamed_path rel = rel.
Proof.
  assert (Hfix : forall rel, In rel (Common.rename_files files) ->
                             renamed_path rel = rel).
  { intros rel Hin. unfold Common.rename_files in Hin.
    apply nodup_In, in_map_iff in Hin as (y & <- & _).
    apply renamed_path_fixed. }
  split; [|split; [apply NoDup_nodup | exact Hfix]].
  change (Common.rename_files (Common.rename_files files))
    with (nodup str_eq_dec (map renamed_path (Common.rename_files files))).
  rewrite (map_fixed renamed_path _ Hfix).
  apply nodup_fixed_point, NoDup_nodup.
Qed.

(** ** Duplicate detection *)

(** X5.  [check_name_duplicates] reports exactly the names that occur more
    than once among the cards, each of them once, whatever the collections
    of the cards; it reports nothing exactly when no name occurs twice. *)
Theorem name_duplicates_exact (names : list str) :
  (forall n, In n (Common.check_name_duplicates names)
             <-> (1 < count_occ str_eq_dec names n)%nat)
  /\ NoDup (Common.check_name_duplicates names)
  /\ (Common.check_name_duplicates names = [] <-> NoDup names).
Proof.
  split; [intros n; apply check_name_duplicates_spec|].
  split; [apply NoDup_nodup|].
  rewrite (NoDup_count_occ str_eq_dec). split.
  - intros E n.
    destruct (Nat.le_gt_cases (count_occ str_eq_dec names n) 1) as [H | H]; auto.
    apply check_name_duplicates_spec in H. rewrite E in H. destruct H.
  - intros H.
    destruct (Common.check_name_duplicates names) as [|n l] eqn:E; auto.
    assert (Hn : In n (Common.check_name_duplicates names))
      by (rewrite E; now left).
    apply check_name_duplicates_spec in Hn. specialize (H n). lia.
Qed.

(** ** Uploads of a directory in automate.py *)

Section UploadsOfADirectory.

Variable upload_ok : str -> bool.
Variable completion : list str -> list str.
Hypothesis completion_perm : forall l, Permutation (completion l) l.

Lemma completion_in files rel : In rel (completion files) <-> In rel files.
Proof.
  split; apply Permutation_in;
    [apply completion_perm | apply Permutation_sym, completion_perm].
Qed.


Lemma some_upload_fails directory files rel :
  In rel files -> Automate.is_valid_filename rel = true ->
  upload_ok (Py.path_join directory rel) = false ->
  existsb (upload_fails Automate.is_valid_filename upload_ok directory)
    (completion files) = true.
Proof.
  intros Hin Hv Hf. apply existsb_exists. exists rel.
  split; [now apply (proj2 (completion_in files rel))|].
  unfold upload_fails. now rewrite Hv, Hf.
Qed.

End UploadsOfADirectory.



(** X7.  Nothing undoes an upload.  When the upload of one validly named
    file fails, the bucket still receives the folder marker and one object
    for every validly named file whose upload succeeded, while the catalog
    stays as it was: the objects have no card. *)
Theorem failed_directory_keeps_uploads
    (upload_ok : str -> bool) (completion : list str -> list str)
    (d : local_dir) (target : str) (w : Automate.world) (rel : str) :
  (forall l, Permutation (completion l) l) ->
  In rel (Common.rename_files (dir_files d)) ->
  Automate.is_valid_filename rel = true ->
  upload_ok (Py.path_join (dir_path d) rel) = false ->
  let w' := fst (Automate.process_directory upload_ok completion d target w) in
  let folder := Py.basename (dir_path d) in
  Automate.db w' = Automate.db w
  /\ exists objs,
       Automate.store w'
       = Automate.create_folder folder target (Automate.store w) ++ objs
       /\ Permutation objs
            (map (automate_object (dir_path d) folder target)
               (filter (fun r => Automate.is_valid_filename r
                                 && upload_ok (Py.path_join (dir_path d) r))
                  (Common.rename_files (dir_files d)))).
Proof.
  intros Hperm Hin Hv Hf. cbv zeta.
  rewrite (process_directory_failed upload_ok completion d target w
             (some_upload_fails upload_ok completion Hperm (dir_path d)
                (Common.rename_files (dir_files d)) rel Hin Hv Hf)).
  cbn [fst Automate.db Automate.store]. split; [reflexivity|].
  eexists. split; [reflexivity|].
  apply Permutation_map, Permutation_filter, Hperm.
Qed.

Lemma failed_directory_keeps_uploads_witness :
  let upload_ok := fun p : str => negb (str_eqb p "in/twice/2_jihyo.png") in
  let d := {| dir_path := "in/twice";
              dir_files := ["1_nayeon.jpg" : str; "2_jihyo.png" : str;
                            "3_momo.gif" : str] |} in
  let w := {| Automate.store := [];
              Automate.db := {| Automate.collections := [];
                                Automate.cards := [] |} |} in
  let w' := fst (Automate.process_directory upload_ok (fun l => l) d "girlgroups" w) in
  Automate.db w' = Automate.db w
  /\ exists objs,
       Automate.store w' = Automate.create_folder "twice" "girlgroups" [] ++ objs
       /\ Permutation objs
            [automate_object "in/twice" "twice" "girlgroups" "1_nayeon.jpg";
             automate_object "in/twice" "twice" "girlgroups" "3_momo.gif"].
Proof.
  intros upload_ok d w.
  apply (failed_directory_keeps_uploads upload_ok (fun l => l) d "girlgroups" w
           "2_jihyo.png").
  - intros l. apply Permutation_refl.
  - vm_compute. tauto.
  - reflexivity.
  - reflexivity.
Defined.

(** ** Invariants of the catalog of automate.py *)

Section FreshIdentifiers.

(** Cards of either variant: a type with an identifier and the next
    identifier of a list of them. *)
Variable T : Type.
Variable ident : T -> Z.
Variable next : list T -> Z.
Hypothesis next_spec : forall l, max_plus_one (map ident l) (next l).

Lemma next_above l c : In c l -> ident c < next l.
Proof.
  intros Hc. apply (max_plus_one_lower (map ident l)); [apply next_spec|].
  now apply in_map.
Qed.

(** Cards that each carry the next identifier of the cards before them
    have identifiers above the old ones and distinct from one another. *)
Lemma fresh_identifiers new : forall old,
  (forall a c b, new = a ++ c :: b -> ident c = next (old ++ a)) ->
  (forall c c', In c old -> In c' new -> ident c < ident c')
  /\ (NoDup (map ident old) -> NoDup (map ident (old ++ new))).
Proof.
  induction new as [|c0 new IH]; intros old Hfollow.
  - split; [intros ? ? _ [] | now rewrite app_nil_r].
  - assert (H0 : ident c0 = next old).
    { rewrite (Hfollow [] c0 new eq_refl). now rewrite app_nil_r. }
    destruct (IH (old ++ [c0])) as [Hlt Hnd].
    { intros a c b E. rewrite (Hfollow (c0 :: a) c b); [|now rewrite E].
      now rewrite <- app_assoc. }
    split.
    + intros c c' Hc [<- | Hc'].
      * rewrite H0. now apply next_above.
      * apply Hlt; auto. apply in_or_app. now left.
    + intros Hold.
      replace (old ++ c0 :: new) with ((old ++ [c0]) ++ new)
        by now rewrite <- app_assoc.
      apply Hnd. rewrite map_app. apply NoDup_app; auto.
      * repeat constructor. intros [].
      * intros k Hk [<- | []]. apply in_map_iff in Hk as (c & Hkc & Hc).
        pose proof (next_above old c Hc). lia.
Qed.

End FreshIdentifiers.

Section AutomateCatalog.

Lemma insert_cards_built folder target files : forall cs cs' r,
  Automate.insert_cards folder target files cs = (cs', r) ->
  exists new,
    cs' = cs ++ new
    /\ Forall (fun c => exists file, In file files /\ built_from folder target file c)
         new.
Proof.
  induction files as [|file files IH]; simpl; intros cs cs' r H.
  - injection H as <- _. exists []. split; [now rewrite app_nil_r | constructor].
  - destruct (Automate.level_of file) as [level|] eqn:El.
    + apply IH in H as (new & -> & Hnew). eexists (_ :: new).
      split; [rewrite <- app_assoc; reflexivity|]. constructor.
      * exists file. split; [now left|]. exists level. split; auto.
        now rewrite new_card_id.
      * eapply Forall_impl; [|exact Hnew].
        intros c (f & Hf & Hb). exists f. split; [now right | exact Hb].
    + injection H as <- _. exists []. split; [now rewrite app_nil_r | constructor].
Qed.

Lemma find_collection_none folder cs :
  Automate.find_collection folder cs = None ->
  ~ In folder (map Automate.col_id cs).
Proof.
  unfold Automate.find_collection. intros H Hin.
  apply in_map_iff in Hin as (k & Hk & Hin).
  pose proof (find_none _ _ H k Hin) as Hf. cbv beta in Hf.
  rewrite Hk, str_eqb_refl in Hf. discriminate.
Qed.

Lemma find_collection_some folder cs k :
  Automate.find_collection folder cs = Some k ->
  In k cs /\ Automate.col_id k = folder.
Proof.
  unfold Automate.find_collection. intros H.
  apply find_some in H as [Hin Hk]. now apply str_eqb_eq in Hk.
Qed.

(** The upsert block keeps the collections it finds and leaves one of the
    folder's name among them. *)
Lemma ensure_collection_result folder target cs :
  exists added,
    fst (Automate.ensure_collection folder target cs) = cs ++ added
    /\ (exists k, In k (cs ++ added) /\ Automate.col_id k = folder)
    /\ (NoDup (map Automate.col_id cs) ->
        NoDup (map Automate.col_id (cs ++ added))).
Proof.
  unfold Automate.ensure_collection.
  destruct (Automate.find_collection folder cs) as [k|] eqn:E; cbn [fst].
  - exists []. rewrite app_nil_r. split; [reflexivity|].
    split; [|auto]. exists k. now apply find_collection_some.
  - exists [Automate.new_collection folder target]. split; [reflexivity|]. split.
    + exists (Automate.new_collection folder target).
      split; [apply in_or_app; right; now left | reflexivity].
    + intros Hnd. rewrite map_app. apply NoDup_app; auto.
      * repeat constructor. intros [].
      * intros a Ha [<- | []]. now apply (find_collection_none folder cs E).
Qed.

End AutomateCatalog.

(** X8.  [update_database] keeps card identifiers unique: every card it
    inserts has an identifier above those of all cards present before, and
    if the identifiers were pairwise distinct they still are, whether the
    call ends normally or with an exception. *)
Theorem update_database_keeps_ids_unique
    (directory target : str) (files : list str) (d : Automate.database) :
  let d' := fst (Automate.update_database directory target files d) in
  exists new,
    Automate.cards d' = Automate.cards d ++ new
    /\ (forall c c', In c (Automate.cards d) -> In c' new ->
                     Automate.id c < Automate.id c')
    /\ (NoDup (map Automate.id (Automate.cards d)) ->
        NoDup (map Automate.id (Automate.cards d'))).
Proof.
  cbv zeta. rewrite update_database_unfold. cbn [fst Automate.cards].
  destruct (Automate.insert_cards (Py.basename directory) target files
              (Automate.cards d)) as [cs' r] eqn:E.
  apply insert_cards_follow in E as (new & -> & Hfollow). cbn [fst].
  exists new. split; [reflexivity|].
  apply (fresh_identifiers Automate.card Automate.id Automate.next_id
           automate_next_id_spec new (Automate.cards d) Hfollow).
Qed.

(** X9.  [update_database] keeps the catalog closed under reference: the
    cards it inserts belong to the collection named after the folder, that
    collection is in the store afterwards, and if every card named a stored
    collection before the call, every card does after it. *)
Theorem update_database_keeps_references
    (directory target : str) (files : list str) (d : Automate.database) :
  let d' := fst (Automate.update_database directory target files d) in
  (exists k, In k (Automate.collections d')
             /\ Automate.col_id k = Py.basename directory)
  /\ (forall c, In c (Automate.cards d') -> ~ In c (Automate.cards d) ->
                Automate.col c = Py.basename directory)
  /\ (references_ok d -> references_ok d').
Proof.
  cbv zeta. rewrite update_database_unfold.
  cbn [fst Automate.cards Automate.collections].
  destruct (ensure_collection_result (Py.basename directory) target
              (Automate.collections d)) as (added & Ec & Hk & _).
  destruct (Automate.insert_cards (Py.basename directory) target files
              (Automate.cards d)) as [cs' r] eqn:E.
  apply insert_cards_built in E as (new & -> & Hnew). cbn [fst].
  rewrite Ec.
  assert (Hcol : forall c, In c new -> Automate.col c = Py.basename directory).
  { intros c Hc. rewrite Forall_forall in Hnew.
    destruct (Hnew c Hc) as (f & _ & Hb). now apply built_from_name in Hb. }
  split; [exact Hk|]. split.
  - intros c Hin Hold. apply in_app_or in Hin as [Hin | Hin]; [contradiction|auto].
  - intros Hrefs c Hin. cbn [Automate.cards Automate.collections] in *.
    apply in_app_or in Hin as [Hin | Hin].
    + destruct (Hrefs c Hin) as (k & Hkin & Hkc). exists k.
      split; [apply in_or_app; now left | exact Hkc].
    + destruct Hk as (k & Hkin & Hkc). exists k. split; [exact Hkin|].
      now rewrite (Hcol c Hin).
Qed.

(** X10.  [update_database] never changes or removes a stored collection,
    adds at most the one of the folder, and keeps collection ids unique. *)
Theorem update_database_keeps_collections
    (directory target : str) (files : list str) (d : Automate.database) :
  let d' := fst (Automate.update_database directory target files d) in
  exists added,
    Automate.collections d' = Automate.collections d ++ added
    /\ (added = [] \/ added = [Automate.new_collection (Py.basename directory) target])
    /\ (NoDup (map Automate.col_id (Automate.collections d)) ->
        NoDup (map Automate.col_id (Automate.collections d'))).
Proof.
  cbv zeta. rewrite update_database_unfold. cbn [fst Automate.collections].
  pose proof (ensure_collection_result (Py.basename directory) target
                (Automate.collections d)) as (added & Ec & _ & Hnd).
  exists added. rewrite Ec. split; [reflexivity|]. split; [|exact Hnd].
  unfold Automate.ensure_collection in Ec.
  destruct (Automate.find_collection _ _); cbn [fst] in Ec.
  - left. apply (app_inv_head (Automate.collections d)).
    now rewrite app_nil_r.
  - right. now apply (app_inv_head (Automate.collections d)).
Qed.

(** ** Exceptions inside the catalog step *)

Section CatalogExceptions.

(** The loop of [update_database] over validated names, followed by
    further names. *)
Lemma insert_cards_prefix folder target good : forall cs,
  Forall (fun file => Automate.is_valid_filename file = true) good ->
  exists new,
    Forall2 (built_from folder target) good new
    /\ forall more,
         Automate.insert_cards folder target (good ++ more) cs
         = Automate.insert_cards folder target more (cs ++ new).
Proof.
  induction good as [|file good IH]; intros cs Hv.
  - exists []. split; [constructor|]. intros more. now rewrite app_nil_r.
  - inversion Hv as [|? ? Hfile Hrest]; subst.
    destruct (valid_level file Hfile) as (digits & level & _ & _ & _ & _ & Hlevel).
    destruct (IH (cs ++ [Automate.new_card folder target file level
                           (Automate.next_id cs)]) Hrest)
      as (new & Hbuilt & Hrun).
    eexists (_ :: new). split.
    + constructor; [|exact Hbuilt]. exists level. split; [exact Hlevel|].
      now rewrite new_card_id.
    + intros more. cbn [app Automate.insert_cards]. rewrite Hlevel, Hrun.
      now rewrite <- app_assoc.
Qed.

(** A name of [valid_files] that the walk meets, whose extension is an
    accepted one and whose level does not parse, makes the loop of
    [update_json_files] raise. *)
Lemma add_cards_raises folder target valid_files file walked :
  In file walked ->
  In file valid_files ->
  existsb (str_eqb (Py.lower (snd (Py.splitext file))))
    (Promoauto.ACCEPTED_EXTENSIONS ++ [".gif" : str]) = true ->
  Py.int (hd [] (Py.split "_" (Py.lower (fst (Py.splitext file))))) = None ->
  forall cards_data next_id,
    Promoauto.add_cards folder target valid_files walked cards_data next_id
    = Raise ValueError.
Proof.
  intros Hin Hvf Hext Hint.
  induction walked as [|f walked IH]; [destruct Hin|].
  intros cards_data next_id. cbn [Promoauto.add_cards].
  destruct Hin as [-> | Hin].
  - assert (Hex : existsb (str_eqb file) valid_files = true).
    { apply existsb_exists. exists file. split; [exact Hvf | apply str_eqb_refl]. }
    rewrite Hex. cbn [negb].
    destruct (Py.splitext file) as [file_name file_ext]. cbn [fst snd] in *.
    now rewrite Hext, Hint.
  - specialize (IH Hin). clear Hext Hint.
    destruct (negb (existsb (str_eqb f) valid_files)); [apply IH|].
    destruct (Py.splitext f) as [file_name file_ext].
    destruct (existsb _ _); [|apply IH].
    destruct (Py.int _); [|reflexivity].
    destruct (Promoauto.existing_card _ _ _); apply IH.
Qed.

End CatalogExceptions.

(** X11.  [update_database] has no rollback.  When the level of a name in
    [valid_files], a name made of ASCII characters, does not parse, the
    call raises [CardProcessingError] with code 2, and the collection it
    created and the cards it inserted for the names before that one stay in
    the store. *)
Theorem update_database_no_rollback
    (directory target : str) (good : list str) (bad : str) (rest : list str)
    (d : Automate.database) :
  Forall (fun file => Automate.is_valid_filename file = true) good ->
  ascii_only bad ->
  Automate.level_of bad = None ->
  exists new,
    Automate.update_database directory target (good ++ bad :: rest) d
    = ({| Automate.collections :=
            fst (Automate.ensure_collection (Py.basename directory) target
                   (Automate.collections d));
          Automate.cards := Automate.cards d ++ new |},
       Raise (CardProcessingError 2))
    /\ Forall2 (built_from (Py.basename directory) target) good new.
Proof.
  intros Hgood _ Hbad.
  destruct (insert_cards_prefix (Py.basename directory) target good
              (Automate.cards d) Hgood) as (new & Hbuilt & Hrun).
  exists new. split; [|exact Hbuilt].
  rewrite update_database_unfold, Hrun. cbn [Automate.insert_cards].
  rewrite Hbad. reflexivity.
Qed.

Lemma update_database_no_rollback_witness :
  exists new,
    Automate.update_database "in/twice" "girlgroups"
      (["1_nayeon.jpg" : str] ++ ("cover.jpg" : str) :: ["2_jihyo.png" : str])
      {| Automate.collections := []; Automate.cards := [] |}
    = ({| Automate.collections := [Automate.new_collection "twice" "girlgroups"];
          Automate.cards := [] ++ new |},
       Raise (CardProcessingError 2))
    /\ Forall2 (built_from "twice" "girlgroups") ["1_nayeon.jpg" : str] new.
Proof.
  apply (update_database_no_rollback "in/twice" "girlgroups"
           ["1_nayeon.jpg" : str] "cover.jpg" ["2_jihyo.png" : str]
           {| Automate.collections := []; Automate.cards := [] |}).
  - repeat constructor.
  - reflexivity.
  - reflexivity.
Defined.

(** X12.  [update_json_files] writes all or nothing.  When the walk meets a
    name of [valid_files], made of ASCII characters and with an accepted
    extension, whose level does not parse, the call raises
    [CardProcessingError] with code 2 and both JSON files keep their
    content: neither the new collection nor the cards appended before the
    failure are written. *)
Theorem update_json_files_all_or_nothing
    (d : local_dir) (target : str) (valid_files : list str)
    (f : Promoauto.catalog) (file : str) :
  ascii_only file ->
  In file (map Py.basename (dir_files d)) ->
  In file valid_files ->
  existsb (str_eqb (Py.lower (snd (Py.splitext file))))
    (Promoauto.ACCEPTED_EXTENSIONS ++ [".gif" : str]) = true ->
  Py.int (hd [] (Py.split "_" (Py.lower (fst (Py.splitext file))))) = None ->
  Promoauto.update_json_files d target valid_files f
  = (f, Raise (CardProcessingError 2)).
Proof.
  intros _ Hwalk Hvf Hext Hint. unfold Promoauto.update_json_files.
  destruct (Promoauto.ensure_collection _ _ _) as [collections' flag].
  now rewrite (add_cards_raises (Py.basename (dir_path d)) target valid_files
                 file _ Hwalk Hvf Hext Hint).
Qed.

Lemma update_json_files_all_or_nothing_witness :
  let f := {| Promoauto.cards_data := []; Promoauto.collections_data := [] |} in
  Promoauto.update_json_files
    {| dir_path := "in/twice";
       dir_files := ["1_na_yeon.jpg" : str; "cover.jpg" : str] |}
    "girlgroups" ["1_na_yeon.jpg" : str; "cover.jpg" : str] f
  = (f, Raise (CardProcessingError 2)).
Proof.
  intros f.
  apply (update_json_files_all_or_nothing _ "girlgroups" _ f "cover.jpg").
  - reflexivity.
  - right. left. reflexivity.
  - right. left. reflexivity.
  - reflexivity.
  - reflexivity.
Defined.

(** ** The fields of a card *)

Section CardFields.

Lemma split_not_nil sep s : Py.split sep s <> [].
Proof.
  destruct s as [|c s]; simpl; [discriminate|].
  destruct (Ascii.eqb c sep); [discriminate|].
  destruct (Py.split sep s); discriminate.
Qed.

(** [sep.join(s.split(sep))] is [s]. *)
Lemma join_split sep s : Py.join [sep] (Py.split sep s) = s.
Proof.
  induction s as [|c s IH]; [reflexivity|].
  cbn [Py.split]. pose proof (split_not_nil sep s) as Hne.
  destruct (Ascii.eqb c sep) eqn:E.
  - apply Ascii.eqb_eq in E. subst c.
    destruct (Py.split sep s) as [|w ws]; [congruence|].
    cbn [Py.join app] in *. now rewrite IH.
  - destruct (Py.split sep s) as [|w ws]; [congruence|].
    destruct ws as [|w' ws]; cbn [Py.join app] in *; now rewrite <- IH.
Qed.

Lemma valid_stem path :
  Automate.is_valid_filename path = true ->
  exists d t,
    digits_run d /\ Py.lower (fst (Py.splitext path)) = d ++ "_"%char :: t
    /\ Py.split "_" (Py.lower (fst (Py.splitext path))) = d :: Py.split "_" t.
Proof.
  intros H. apply automate_valid_iff in H as (d & w & e & rest & -> & Hd & _).
  replace (d ++ "_"%char :: w ++ "."%char :: e ++ rest)
    with ((d ++ "_"%char :: w) ++ "."%char :: e ++ rest)
    by (rewrite <- app_assoc; reflexivity).
  destruct (splitext_stem_prefix (d ++ "_"%char :: w) (e ++ rest)) as [t ->].
  rewrite <- !app_assoc. cbn [app].
  exists d, (Py.lower (w ++ t)). split; [exact Hd|].
  assert (E : Py.lower (d ++ "_"%char :: w ++ t) = d ++ "_"%char :: Py.lower (w ++ t)).
  { unfold Py.lower. rewrite map_app. cbn [map].
    fold (Py.lower d). rewrite (lower_digits d (proj2 Hd)). reflexivity. }
  rewrite E. split; [reflexivity|].
  apply split_after_digits, Hd.
Qed.

End CardFields.

(** X13.  The card of a validated file: its name is the lower-cased stem
    without the leading digits and the first underscore, its level is the
    number those digits spell, its collection is the folder and its
    [animated] flag says whether the extension is gif in any casing. *)
Theorem card_fields_of_valid_name (folder target file : str) (n : Z) :
  Automate.is_valid_filename file = true ->
  exists digits level,
    digits_run digits
    /\ Py.int digits = Some level
    /\ Automate.level_of file = Some level
    /\ let c := Automate.new_card folder target file level n in
       Py.lower (fst (Py.splitext file)) = digits ++ "_" ++ Automate.name c
       /\ Automate.level c = level
       /\ Automate.col c = folder
       /\ Automate.animated c = str_eqb (Py.lower (snd (Py.splitext file))) ".gif".
Proof.
  intros Hv.
  destruct (valid_level file Hv) as (digits & level & Hseg & _ & Hint & _ & Hlevel).
  destruct (valid_stem file Hv) as (d & t & Hd & Hlow & Hsplit).
  rewrite Hsplit in Hseg. cbn [hd] in Hseg. subst digits.
  exists d, level. split; [exact Hd|]. split; [exact Hint|].
  split; [exact Hlevel|]. cbv zeta.
  rewrite new_card_name, new_card_col, Hsplit. cbn [tl].
  replace (Py.join "_" (Py.split "_" t)) with t
    by (symmetry; exact (join_split "_" t)).
  split; [exact Hlow|].
  unfold Automate.new_card. destruct (Py.splitext file). split; [reflexivity|].
  split; reflexivity.
Qed.

Lemma card_fields_of_valid_name_witness :
  Automate.is_valid_filename "12_Red_Velvet_Irene.GIF" = true
  /\ exists digits level,
       digits_run digits
       /\ Py.int digits = Some level
       /\ Automate.level_of "12_Red_Velvet_Irene.GIF" = Some level
       /\ let c := Automate.new_card "twice" "girlgroups"
                     "12_Red_Velvet_Irene.GIF" level 7 in
          Py.lower (fst (Py.splitext "12_Red_Velvet_Irene.GIF"))
          = digits ++ "_" ++ Automate.name c
          /\ Automate.level c = level
          /\ Automate.col c = ("twice" : str)
          /\ Automate.animated c
             = str_eqb (Py.lower (snd (Py.splitext "12_Red_Velvet_Irene.GIF"))) ".gif".
Proof.
  split; [reflexivity|].
  apply (card_fields_of_valid_name "twice" "girlgroups"
           "12_Red_Velvet_Irene.GIF" 7).
  reflexivity.
Defined.

(** ** Invariants of the catalog of promoauto.py *)

Section PromoCatalog.

Lemma existing_card_none n folder cards_data :
  Promoauto.existing_card n folder cards_data = None ->
  ~ In (n, folder) (map card_key cards_data).
Proof.
  unfold Promoauto.existing_card. intros H Hin.
  apply in_map_iff in Hin as (c & Hc & Hin).
  pose proof (find_none _ _ H c Hin) as Hf. cbv beta in Hf.
  unfold card_key in Hc. injection Hc as Hn Hcol.
  rewrite Hn, Hcol, !str_eqb_refl in Hf. discriminate.
Qed.

(** The loop of [update_json_files] appends no card whose name is already
    in the collection. *)
Lemma add_cards_keys folder target valid_files walked :
  forall cards_data next_id cards',
  Promoauto.add_cards folder target valid_files walked cards_data next_id
    = Ok cards' ->
  NoDup (map card_key cards_data) -> NoDup (map card_key cards').
Proof.
  induction walked as [|file walked IH]; intros cards_data next_id cards' H Hnd;
    cbn [Promoauto.add_cards] in H.
  - now injection H as <-.
  - destruct (negb (existsb (str_eqb file) valid_files)); [now apply IH in H|].
    destruct (Py.splitext file) as [file_name file_ext].
    destruct (existsb _ _); [|now apply IH in H].
    destruct (Py.int _) as [level|]; [|discriminate].
    destruct (Promoauto.existing_card _ _ _) eqn:E; [now apply IH in H|].
    apply IH in H; auto.
    rewrite map_app. apply NoDup_app; auto.
    + repeat constructor. intros [].
    + intros k Hk [<- | []]. now apply (existing_card_none _ _ _ E).
Qed.

(** The cards the loop appends come from names of [valid_files] that the
    walk met and whose extension is an accepted one. *)
Lemma add_cards_accepted folder target valid_files walked :
  forall cards_data next_id cards',
  Promoauto.add_cards folder target valid_files walked cards_data next_id
    = Ok cards' ->
  exists new,
    cards' = cards_data ++ new
    /\ Forall (fun c => exists file,
                 In file valid_files /\ In file walked
                 /\ In (Py.lower (snd (Py.splitext file)))
                      Promoauto.ACCEPTED_EXTENSIONS
                 /\ promo_built_from folder target file c) new.
Proof.
  induction walked as [|file walked IH]; intros cards_data next_id cards' H;
    cbn [Promoauto.add_cards] in H.
  - injection H as <-. exists []. split; [now rewrite app_nil_r | constructor].
  - assert (Hweak : forall cd n,
      Promoauto.add_cards folder target valid_files walked cd n = Ok cards' ->
      exists new,
        cards' = cd ++ new
        /\ Forall (fun c => exists f,
                     In f valid_files /\ In f (file :: walked)
                     /\ In (Py.lower (snd (Py.splitext f)))
                          Promoauto.ACCEPTED_EXTENSIONS
                     /\ promo_built_from folder target f c) new).
    { intros cd n Hcd. apply IH in Hcd as (new & -> & Hnew).
      exists new. split; auto.
      eapply Forall_impl; [|exact Hnew].
      intros c (f & H1 & H2 & H3 & H4). exists f. simpl. auto. }
    destruct (existsb (str_eqb file) valid_files) eqn:Ein; cbn [negb] in H;
      [|now apply Hweak in H].
    apply existsb_exists in Ein as (f & Hf & Ef). apply str_eqb_eq in Ef. subst f.
    unfold promo_built_from in *.
    destruct (Py.splitext file) as [file_name file_ext] eqn:Esplit.
    destruct (existsb _ _) eqn:Eext; [|now apply Hweak in H].
    destruct (Py.int _) as [level|] eqn:Eint; [|discriminate].
    destruct (Promoauto.existing_card _ _ _); [now apply Hweak in H|].
    apply Hweak in H as (new & -> & Hnew).
    eexists (_ :: new). split; [rewrite <- app_assoc; reflexivity|].
    constructor; auto.
    exists file. split; [assumption|]. split; [now left|].
    rewrite Esplit. cbn [fst snd]. split.
    + apply existsb_exists in Eext as (e & He & Ee). apply str_eqb_eq in Ee.
      subst e. apply in_app_or in He as [He | [<- | []]]; [exact He|].
      right. right. right. left. reflexivity.
    + exists level. split; [assumption|reflexivity].
Qed.

End PromoCatalog.

(** X14.  [update_json_files] keeps card identifiers unique: it only
    appends cards, the cards it appends have identifiers above those of all
    cards loaded, and pairwise distinct identifiers stay pairwise distinct.
    When it raises an exception the catalog is as it was before the
    call. *)
Theorem update_json_files_keeps_ids_unique
    (d : local_dir) (target : str) (valid_files : list str)
    (f : Promoauto.catalog) :
  let f' := fst (Promoauto.update_json_files d target valid_files f) in
  exists new,
    Promoauto.cards_data f' = Promoauto.cards_data f ++ new
    /\ (forall c c', In c (Promoauto.cards_data f) -> In c' new ->
                     Promoauto.id c < Promoauto.id c')
    /\ (NoDup (map Promoauto.id (Promoauto.cards_data f)) ->
        NoDup (map Promoauto.id (Promoauto.cards_data f')))
    /\ (forall e,
          snd (Promoauto.update_json_files d target valid_files f) = Raise e ->
          f' = f /\ new = []).
Proof.
  cbv zeta. unfold Promoauto.update_json_files.
  destruct (Promoauto.ensure_collection _ _ _) as [collections' flag].
  destruct (Promoauto.add_cards _ _ _ _ _ _) as [cards'|e] eqn:E; cbn [fst snd].
  - apply add_cards_follow in E as (new & -> & Hfollow & _).
    exists new. split; [reflexivity|].
    destruct (fresh_identifiers Promoauto.card Promoauto.id Promoauto.first_next_id
                promoauto_next_id_spec new (Promoauto.cards_data f) Hfollow)
      as [Habove Hnd].
    split; [exact Habove|]. split; [exact Hnd|]. discriminate.
  - exists []. rewrite app_nil_r. split; [reflexivity|].
    split; [intros ? ? _ [] | auto].
Qed.

(** X15.  [update_json_files] never puts two cards of one name into one
    collection: if no two cards of the catalog share name and collection
    before the call, none do after it. *)
Theorem update_json_files_keeps_names_unique
    (d : local_dir) (target : str) (valid_files : list str)
    (f : Promoauto.catalog) :
  NoDup (map card_key (Promoauto.cards_data f)) ->
  NoDup (map card_key
           (Promoauto.cards_data
              (fst (Promoauto.update_json_files d target valid_files f)))).
Proof.
  intros Hnd. unfold Promoauto.update_json_files.
  destruct (Promoauto.ensure_collection _ _ _) as [collections' flag].
  destruct (Promoauto.add_cards _ _ _ _ _ _) as [cards'|e] eqn:E; cbn [fst]; auto.
  cbn [Promoauto.cards_data]. now apply add_cards_keys in E.
Qed.

Lemma update_json_files_keeps_names_unique_witness :
  NoDup (map card_key
           (Promoauto.cards_data
              (fst (Promoauto.update_json_files
                      {| dir_path := "in/twice";
                         dir_files := ["1_na_yeon.jpg" : str; "2_na_yeon.jpg" : str] |}
                      "girlgroups" ["1_na_yeon.jpg" : str; "2_na_yeon.jpg" : str]
                      {| Promoauto.cards_data := [];
                         Promoauto.collections_data := [] |})))).
Proof.
  apply update_json_files_keeps_names_unique. constructor.
Defined.

(** X16.  The catalog step of promoauto.py consults [ACCEPTED_EXTENSIONS]
    where the upload step does not: every card [update_json_files] appends
    comes from a name of [valid_files] whose lower-cased extension is one of
    the accepted ones, so a validated file of another extension is uploaded
    and gets no card. *)
Theorem update_json_files_filters_extensions
    (d : local_dir) (target : str) (valid_files : list str)
    (f f' : Promoauto.catalog) (r : result (option bool)) :
  Promoauto.update_json_files d target valid_files f = (f', r) ->
  exists new,
    Promoauto.cards_data f' = Promoauto.cards_data f ++ new
    /\ Forall (fun c => exists file,
                 In file valid_files
                 /\ In (Py.lower (snd (Py.splitext file)))
                      Promoauto.ACCEPTED_EXTENSIONS
                 /\ promo_built_from (Py.basename (dir_path d)) target file c)
         new.
Proof.
  unfold Promoauto.update_json_files.
  destruct (Promoauto.ensure_collection _ _ _) as [collections' flag].
  destruct (Promoauto.add_cards _ _ _ _ _ _) as [cards'|e] eqn:E; intros H;
    injection H as <- _.
  - apply add_cards_accepted in E as (new & -> & Hnew).
    exists new. split; [reflexivity|].
    eapply Forall_impl; [|exact Hnew].
    intros c (file & H1 & _ & H3 & H4). eauto.
  - exists []. split; [now rewrite app_nil_r | constructor].
Qed.

Lemma update_json_files_filters_extensions_witness :
  exists new,
    map Promoauto.name new = ["c_d" : str]
    /\ Forall (fun c => exists file,
                 In file ["1_a_b.txt" : str; "2_c_d.PNG" : str]
                 /\ In (Py.lower (snd (Py.splitext file)))
                      Promoauto.ACCEPTED_EXTENSIONS
                 /\ promo_built_from "twice" "girlgroups" file c) new.
Proof.
  destruct (update_json_files_filters_extensions
              {| dir_path := "in/twice";
                 dir_files := ["1_a_b.txt" : str; "2_c_d.PNG" : str] |}
              "girlgroups" ["1_a_b.txt" : str; "2_c_d.PNG" : str]
              {| Promoauto.cards_data := []; Promoauto.collections_data := [] |}
              _ _ eq_refl) as (new & Hcards & Hnew).
  exists new. split; [|exact Hnew].
  vm_compute in Hcards. rewrite <- Hcards. reflexivity.
Defined.

(** ** The batch driver of automate.py *)

Section BatchDriver.

Variable upload_ok : str -> bool.
Variable completion : list str -> list str.

Lemma extends_refl d : extends d d.
Proof. split; exists []; now rewrite app_nil_r. Qed.

Lemma extends_trans d1 d2 d3 : extends d1 d2 -> extends d2 d3 -> extends d1 d3.
Proof.
  intros [[n1 H1] [a1 G1]] [[n2 H2] [a2 G2]]. split.
  - exists (n1 ++ n2). now rewrite H2, H1, app_assoc.
  - exists (a1 ++ a2). now rewrite G2, G1, app_assoc.
Qed.

Lemma update_database_step directory target files d :
  let d' := fst (Automate.update_database directory target files d) in
  extends d d' /\ (catalog_ok d -> catalog_ok d').
Proof.
  cbv zeta. rewrite update_database_unfold.
  destruct (ensure_collection_result (Py.basename directory) target
              (Automate.collections d)) as (added & Ec & Hk & Hcols).
  destruct (Automate.insert_cards (Py.basename directory) target files
              (Automate.cards d)) as [cs' r] eqn:E.
  pose proof E as E'.
  apply insert_cards_follow in E as (new & -> & Hfollow).
  apply insert_cards_built in E' as (new' & Hnew' & Hbuilt).
  apply app_inv_head in Hnew'. subst new'.
  cbn [fst]. rewrite Ec.
  destruct (fresh_identifiers Automate.card Automate.id Automate.next_id
              automate_next_id_spec new (Automate.cards d) Hfollow) as [_ Hids].
  split; [split; cbn [Automate.cards Automate.collections]; eauto|].
  intros (H1 & H2 & H3).
  split; [exact (Hids H1)|]. split; [exact (Hcols H2)|].
  intros c Hin. cbn [Automate.cards Automate.collections] in *.
  apply in_app_or in Hin as [Hin | Hin].
  - destruct (H3 c Hin) as (k & Hkin & Hkc). exists k.
    split; [apply in_or_app; now left | exact Hkc].
  - destruct Hk as (k & Hkin & Hkc). exists k. split; [exact Hkin|].
    rewrite Forall_forall in Hbuilt. destruct (Hbuilt c Hin) as (f & _ & Hb).
    apply built_from_name in Hb as [_ ->]. exact Hkc.
Qed.

(** The store after [process_directory] is the store before it, or what
    [update_database] made of it. *)
Lemma process_directory_db d target w :
  Automate.db (fst (Automate.process_directory upload_ok completion d target w))
  = Automate.db w
  \/ exists files,
       Automate.db (fst (Automate.process_directory upload_ok completion d target w))
       = fst (Automate.update_database (dir_path d) target files (Automate.db w)).
Proof.
  unfold Automate.process_directory. rewrite automate_upload_files.
  destruct (existsb _ _); [now left|].
  right.
  exists (filter Automate.is_valid_filename
            (completion (Common.rename_files (dir_files d)))).
  destruct (Automate.update_database _ _ _ _) as [d' [b|e]]; reflexivity.
Qed.

Lemma process_directory_step d target w :
  let w' := fst (Automate.process_directory upload_ok completion d target w) in
  extends (Automate.db w) (Automate.db w')
  /\ (catalog_ok (Automate.db w) -> catalog_ok (Automate.db w')).
Proof.
  cbv zeta. destruct (process_directory_db d target w) as [-> | [files ->]].
  - split; [apply extends_refl | auto].
  - apply update_database_step.
Qed.

Lemma process_group_step target dirs : forall w report,
  let w' := fst (Automate.process_group upload_ok completion target dirs w report) in
  extends (Automate.db w) (Automate.db w')
  /\ (catalog_ok (Automate.db w) -> catalog_ok (Automate.db w')).
Proof.
  induction dirs as [|d dirs IH]; intros w report; cbn [Automate.process_group].
  - split; [apply extends_refl | auto].
  - pose proof (process_directory_step d target w) as [Hext Hok].
    destruct (Automate.process_directory upload_ok completion d target w)
      as [w1 [valid_files flag]]. cbn [fst] in *.
    destruct (IH w1 (report ++ [Automate.write_output_file d valid_files target []
                                  (Automate.db w1)])) as [Hext' Hok'].
    split; [eapply extends_trans; eauto | auto].
Qed.

(** The blocks the loop over one group appends. *)
Lemma process_group_report target dirs : forall w report,
  exists blocks,
    snd (Automate.process_group upload_ok completion target dirs w report)
    = report ++ blocks
    /\ map Automate.collection_name blocks
       = map (fun d => Py.basename (dir_path d)) dirs
    /\ Forall (fun b => Automate.group_type b = target
                        /\ Automate.errors b = []
                        /\ Automate.number_of_cards b
                           = Z.of_nat (List.length (Automate.uploaded_files b)))
         blocks.
Proof.
  induction dirs as [|d dirs IH]; intros w report; cbn [Automate.process_group].
  - exists []. rewrite app_nil_r. repeat split. constructor.
  - destruct (Automate.process_directory upload_ok completion d target w)
      as [w1 [valid_files flag]].
    destruct (IH w1 (report ++ [Automate.write_output_file d valid_files target []
                                  (Automate.db w1)]))
      as (blocks & Hrep & Hnames & Hall).
    eexists (_ :: blocks). split; [rewrite Hrep, <- app_assoc; reflexivity|].
    split; [cbn [map]; now rewrite Hnames|].
    constructor; [|exact Hall]. repeat split.
Qed.

Lemma find_first_card_min cs c :
  Automate.find_first_card cs = Some c ->
  In c cs /\ forall c', In c' cs -> Automate.id c <= Automate.id c'.
Proof.
  unfold Automate.find_first_card. revert c.
  induction cs as [|x cs IH]; simpl; intros c H; [discriminate|].
  destruct (Automate.find_one_sorted Z.ltb cs) as [c'|] eqn:E.
  - destruct (IH c' eq_refl) as [Hin Hmin].
    destruct (Automate.id c' <? Automate.id x) eqn:G; injection H as <-.
    + split; auto. intros y [<- | Hy]; auto. lia.
    + split; auto. intros y [<- | Hy]; [lia|].
      pose proof (Hmin y Hy). lia.
  - injection H as <-. apply find_one_sorted_none in E. subst cs.
    split; auto. intros y [<- | []]. lia.
Qed.

End BatchDriver.

(** X17.  [main] appends one block per input directory to the report, the
    girl groups first, then the boy groups, each in the given order, and
    keeps what the report held before.  No block carries an error message
    (the list [error_messages] is only filled on a path that skips the
    report), and each block counts the files it lists. *)
Theorem main_report
    (upload_ok : str -> bool) (completion : list str -> list str)
    (girlgroups boygroups : list local_dir) (w : Automate.world)
    (report : list Automate.report_block) :
  exists blocks,
    snd (Automate.main upload_ok completion girlgroups boygroups w report)
    = report ++ blocks
    /\ map Automate.collection_name blocks
       = map (fun d => Py.basename (dir_path d)) (girlgroups ++ boygroups)
    /\ map Automate.group_type blocks
       = repeat ("girlgroups" : str) (List.length girlgroups)
         ++ repeat ("boygroups" : str) (List.length boygroups)
    /\ Forall (fun b => Automate.errors b = []
                        /\ Automate.number_of_cards b
                           = Z.of_nat (List.length (Automate.uploaded_files b)))
         blocks.
Proof.
  unfold Automate.main.
  destruct (process_group_report upload_ok completion "girlgroups" girlgroups
              w report) as (bg & Hg & Ng & Ag).
  destruct (Automate.process_group upload_ok completion "girlgroups" girlgroups
              w report) as [w1 report1]. cbn [snd] in Hg. subst report1.
  destruct (process_group_report upload_ok completion "boygroups" boygroups
              w1 (report ++ bg)) as (bb & Hb & Nb & Ab).
  exists (bg ++ bb). split; [now rewrite Hb, app_assoc|].
  assert (Htypes : forall t (bs : list Automate.report_block),
            Forall (fun b => Automate.group_type b = t
                             /\ Automate.errors b = []
                             /\ Automate.number_of_cards b
                                = Z.of_nat (List.length (Automate.uploaded_files b)))
              bs ->
            map Automate.group_type bs = repeat t (List.length bs)).
  { intros t bs H. induction H as [|b bs [Hb' _] _ IH]; cbn; [reflexivity|].
    now rewrite Hb', IH. }
  split; [now rewrite !map_app, Ng, Nb|]. split.
  - rewrite map_app, (Htypes _ _ Ag), (Htypes _ _ Ab).
    rewrite <- (length_map Automate.collection_name bg), Ng, length_map.
    rewrite <- (length_map Automate.collection_name bb), Nb, length_map.
    reflexivity.
  - apply Forall_app. split; (eapply Forall_impl; [|eassumption]); cbv beta; tauto.
Qed.

(** X18.  Over a whole run [main] only adds to the store: the cards and
    collections present at the start are still there, unchanged and in
    their order, and if card identifiers and collection ids were unique and
    every card named a stored collection at the start, all of this holds at
    the end, whatever uploads fail on the way. *)
Theorem main_keeps_catalog
    (upload_ok : str -> bool) (completion : list str -> list str)
    (girlgroups boygroups : list local_dir) (w : Automate.world)
    (report : list Automate.report_block) :
  let w' := fst (Automate.main upload_ok completion girlgroups boygroups w report) in
  extends (Automate.db w) (Automate.db w')
  /\ (catalog_ok (Automate.db w) -> catalog_ok (Automate.db w')).
Proof.
  cbv zeta. unfold Automate.main.
  pose proof (process_group_step upload_ok completion "girlgroups" girlgroups
                w report) as [E1 K1].
  destruct (Automate.process_group upload_ok completion "girlgroups" girlgroups
              w report) as [w1 report1]. cbn [fst] in *.
  pose proof (process_group_step upload_ok completion "boygroups" boygroups
                w1 report1) as [E2 K2].
  split; [eapply extends_trans; eauto | auto].
Qed.

(** X19.  In a block of the report, [First Card ID] and [Last Card ID] are
    the least and the greatest identifier among all cards of the block's
    collection that the store holds when the block is written, from this
    run or an earlier one; both are [None] when it holds none. *)
Theorem report_first_last_ids
    (d : local_dir) (valid_files : list str) (target : str)
    (error_messages : list str) (db : Automate.database) :
  let b := Automate.write_output_file d valid_files target error_messages db in
  let mine := filter (fun c => str_eqb (Automate.col c) (Py.basename (dir_path d)))
                (Automate.cards db) in
  (mine = [] ->
   Automate.first_card_id b = None /\ Automate.last_card_id b = None)
  /\ (mine <> [] ->
      exists lo hi,
        Automate.first_card_id b = Some lo /\ Automate.last_card_id b = Some hi
        /\ In lo (map Automate.id mine) /\ In hi (map Automate.id mine)
        /\ forall c, In c (Automate.cards db) ->
                     Automate.col c = Py.basename (dir_path d) ->
                     lo <= Automate.id c <= hi).
Proof.
  cbv zeta. unfold Automate.write_output_file.
  cbn [Automate.first_card_id Automate.last_card_id].
  set (mine := filter _ (Automate.cards db)).
  split.
  - intros ->. split; reflexivity.
  - intros Hne.
    destruct (Automate.find_first_card mine) as [lo|] eqn:Elo.
    2:{ apply find_one_sorted_none in Elo. contradiction. }
    destruct (Automate.find_last_card mine) as [hi|] eqn:Ehi.
    2:{ apply find_one_sorted_none in Ehi. contradiction. }
    apply find_first_card_min in Elo as [Hlo Hmin].
    apply find_last_card_max in Ehi as [Hhi Hmax].
    exists (Automate.id lo), (Automate.id hi). cbn [option_map].
    split; [reflexivity|]. split; [reflexivity|].
    split; [now apply in_map|]. split; [now apply in_map|].
    intros c Hc Hcol.
    assert (Hin : In c mine).
    { apply filter_In. split; [exact Hc|]. now apply str_eqb_eq. }
    split; [apply Hmin | apply Hmax]; exact Hin.
Qed.

(** ** The batch driver of promoauto.py *)

Section PromoDriver.

Variable upload_ok : str -> bool.
Variable completion : list str -> list str.

Lemma index_from_end_out_of_range (A : Type) (l : list A) k :
  (List.length l < k)%nat -> Py.index_from_end l k = None.
Proof.
  intros H. unfold Py.index_from_end.
  destruct (Nat.leb k (List.length l)) eqn:E; auto.
  apply Nat.leb_le in E. lia.
Qed.

(** [write_output_file] when more files were uploaded than the catalog has
    cards. *)
Lemma write_output_file_index_error out input_directory valid_files last_card_id
    flag cards_data target error_messages :
  cards_data <> [] ->
  (List.length cards_data < List.length valid_files)%nat ->
  Promoauto.write_output_file out input_directory valid_files last_card_id flag
    cards_data target error_messages
  = (out ++ block_head target input_directory valid_files,
     Some Promoauto.IndexError).
Proof.
  intros Hne Hlt. unfold Promoauto.write_output_file.
  rewrite (index_from_end_out_of_range _ cards_data _ Hlt).
  destruct cards_data as [|c cs]; [congruence|].
  destruct valid_files as [|v vs]; [simpl in Hlt; lia|].
  reflexivity.
Qed.

(** [update_json_files] hands no flag to its caller. *)
Lemma update_json_files_returns_none d target valid_files f f' flag :
  Promoauto.update_json_files d target valid_files f = (f', Ok flag) ->
  flag = None.
Proof.
  unfold Promoauto.update_json_files.
  destruct (Promoauto.ensure_collection _ _ _) as [collections' added].
  destruct (Promoauto.add_cards _ _ _ _ _ _); intros H; [|discriminate].
  now injection H as _ <-.
Qed.

Lemma process_directory_flag d target promo_prefix w :
  Promoauto.truthy
    (snd (snd (Promoauto.process_directory upload_ok completion d target
                 promo_prefix w))) = false.
Proof.
  unfold Promoauto.process_directory.
  destruct (Promoauto.upload_files _ _ _ _ _ _ _) as [st2 [valid_files|e]];
    [|reflexivity].
  destruct (Promoauto.update_json_files _ _ _ _) as [f' [flag|e]] eqn:E;
    [|reflexivity].
  apply update_json_files_returns_none in E. now subst flag.
Qed.

(** A complete block written for a flag that is not true and an empty list
    of error messages. *)
Lemma write_output_file_plain out input_directory valid_files last_card_id
    flag cards_data target :
  Promoauto.truthy flag = false ->
  exists new,
    fst (Promoauto.write_output_file out input_directory valid_files last_card_id
           flag cards_data target [])
    = out ++ new
    /\ Forall plain_write new.
Proof.
  intros Hflag. unfold Promoauto.write_output_file. rewrite Hflag.
  assert (Hfiles : Forall plain_write (map (fun file => "  " ++ file) valid_files)).
  { apply Forall_forall. intros l Hl.
    apply in_map_iff in Hl as (x & <- & _). split; reflexivity. }
  assert (Hhead : Forall plain_write
            ([ "Group Type: " ++ target;
               "Collection Name: " ++ Py.basename input_directory;
               "Number of Cards: "
                 ++ Py.str_of_int (Z.of_nat (List.length valid_files));
               "Uploaded Files:" : str ]
             ++ map (fun file => "  " ++ file) valid_files)).
  { apply Forall_app. split; [|exact Hfiles].
    repeat constructor. }
  match goal with
  | |- context [match ?x with Some _ => _ | None => _ end] => destruct x as [first|]
  end; cbn [fst].
  - eexists. split; [apply eq_sym, app_assoc|].
    apply Forall_app. split; [exact Hhead|].
    cbn [map app]. repeat constructor.
  - eexists. split; [reflexivity | exact Hhead].
Qed.

Lemma process_group_plain target promo_prefix actual dirs : forall w out,
  exists new,
    snd (fst (Promoauto.process_group upload_ok completion target promo_prefix
                actual dirs w out))
    = out ++ new
    /\ Forall plain_write new.
Proof.
  induction dirs as [|d dirs IH]; intros w out; cbn [Promoauto.process_group].
  - exists []. split; [now rewrite app_nil_r | constructor].
  - pose proof (process_directory_flag d actual promo_prefix w) as Hflag.
    destruct (Promoauto.process_directory upload_ok completion d actual
                promo_prefix w) as [w' [valid_files flag]].
    cbn [snd] in Hflag.
    destruct (write_output_file_plain out (dir_path d) valid_files
                (option_map Promoauto.id
                   (Py.index_from_end (Promoauto.cards_data (Promoauto.files w')) 1))
                flag (Promoauto.cards_data (Promoauto.files w')) target Hflag)
      as (new1 & Hout & Hplain).
    destruct (Promoauto.write_output_file _ _ _ _ _ _ _ _) as [out' raised].
    cbn [fst] in Hout. subst out'.
    destruct raised as [e|].
    + exists new1. split; [reflexivity | exact Hplain].
    + destruct (IH w' (out ++ new1)) as (new2 & Hout2 & Hplain2).
      exists (new1 ++ new2). split; [now rewrite Hout2, app_assoc|].
      apply Forall_app. now split.
Qed.

Lemma process_groups_plain targets input_directories : forall w out,
  exists new,
    snd (fst (Promoauto.process_groups upload_ok completion targets
                input_directories w out))
    = out ++ new
    /\ Forall plain_write new.
Proof.
  induction targets as [|t targets IH]; intros w out;
    cbn [Promoauto.process_groups].
  - exists []. split; [now rewrite app_nil_r | constructor].
  - match goal with
    | |- context [Promoauto.process_group ?u ?c ?a ?b ?e ?ds ?x ?y] =>
        destruct (process_group_plain a b e ds x y) as (new1 & Hout & Hplain);
        destruct (Promoauto.process_group u c a b e ds x y) as [[w' out'] raised]
    end.
    cbn [fst snd] in Hout. subst out'.
    destruct raised as [e|].
    + exists new1. split; [reflexivity | exact Hplain].
    + destruct (IH w' (out ++ new1)) as (new2 & Hout2 & Hplain2).
      exists (new1 ++ new2). split; [now rewrite Hout2, app_assoc|].
      apply Forall_app. now split.
Qed.

End PromoDriver.

(** X20.  The report writer of promoauto.py indexes [cards.json] from the
    end by the number of uploaded files, unless the catalog is empty.  When
    the first directory of the first group leaves a catalog that holds at
    least one card and fewer cards than the directory uploaded files (files
    of one name, or of an extension the catalog step skips), that is an
    [IndexError] outside of any handler: the run ends there with the head
    of the block written, and no later directory of any group is
    processed. *)
Theorem main_aborts_on_index_error
    (upload_ok : str -> bool) (completion : list str -> list str)
    (input_directories : str -> list local_dir)
    (d : local_dir) (rest : list local_dir)
    (w w' : Promoauto.world) (out valid_files : list str) (flag : option bool) :
  input_directories "girlgroups" = d :: rest ->
  Promoauto.process_directory upload_ok completion d "girlgroups" "" w
    = (w', (valid_files, flag)) ->
  Promoauto.cards_data (Promoauto.files w') <> [] ->
  (List.length (Promoauto.cards_data (Promoauto.files w'))
   < List.length valid_files)%nat ->
  Promoauto.main upload_ok completion input_directories w out
  = (w', out ++ block_head "girlgroups" (dir_path d) valid_files,
     Some Promoauto.IndexError).
Proof.
  intros Hdirs Hpd Hne Hlt. unfold Promoauto.main.
  cbn [Promoauto.process_groups].
  replace (Py.contains "promo" "girlgroups") with false by reflexivity.
  replace (Py.replace_str "promo_" "" "girlgroups") with ("girlgroups" : str)
    by reflexivity.
  rewrite Hdirs. cbn [Promoauto.process_group]. rewrite Hpd.
  now rewrite (write_output_file_index_error out (dir_path d) valid_files _ flag
                 _ "girlgroups" [] Hne Hlt).
Qed.

Lemma main_aborts_on_index_error_witness :
  let dirs := fun t : str =>
    if str_eqb t "girlgroups"
    then [ {| dir_path := "in/gg/twice";
              dir_files := ["1_na_yeon.jpg" : str; "2_na_yeon.png" : str] |};
           {| dir_path := "in/gg/exo"; dir_files := ["1_kai_x.jpg" : str] |} ]
    else [] in
  let w := {| Promoauto.store := [];
              Promoauto.files := {| Promoauto.cards_data := [];
                                    Promoauto.collections_data := [] |} |} in
  exists w',
    Promoauto.main (fun _ => true) (fun l => l) dirs w []
    = (w',
       ["Group Type: girlgroups" : str; "Collection Name: twice" : str;
        "Number of Cards: 2" : str; "Uploaded Files:" : str;
        "  1_na_yeon.jpg" : str; "  2_na_yeon.png" : str],
       Some Promoauto.IndexError)
    /\ map Promoauto.name (Promoauto.cards_data (Promoauto.files w'))
       = ["na_yeon" : str].
Proof.
  intros dirs w. eexists. split.
  - apply (main_aborts_on_index_error (fun _ => true) (fun l => l) dirs
             {| dir_path := "in/gg/twice";
                dir_files := ["1_na_yeon.jpg" : str; "2_na_yeon.png" : str] |}
             [ {| dir_path := "in/gg/exo"; dir_files := ["1_kai_x.jpg" : str] |} ]
             w _ [] ["1_na_yeon.jpg" : str; "2_na_yeon.png" : str] None).
    + reflexivity.
    + vm_compute. reflexivity.
    + discriminate.
    + cbn. lia.
  - reflexivity.
Defined.

(** X21.  [main] of promoauto.py never writes that a collection was added
    and never writes the header of the errors: [process_directory] hands
    [main] no true flag (the catalog step returns nothing) and [main]
    passes an empty list of messages, so none of the strings that the calls
    of [f.write] append to the report starts with ["New collection"] or
    with ["Errors:"], also for a collection created in that run. *)
Theorem promoauto_report_is_plain
    (upload_ok : str -> bool) (completion : list str -> list str)
    (input_directories : str -> list local_dir)
    (w : Promoauto.world) (out : list str) :
  (forall d target promo_prefix w0,
      Promoauto.truthy
        (snd (snd (Promoauto.process_directory upload_ok completion d target
                     promo_prefix w0))) = false)
  /\ exists new,
       snd (fst (Promoauto.main upload_ok completion input_directories w out))
       = out ++ new
       /\ Forall plain_write new.
Proof.
  split; [apply process_directory_flag|].
  unfold Promoauto.main. apply process_groups_plain.
Qed.

(** ** Files that share a stem *)

Section SharedStem.

Lemma Forall2_in_left (A B : Type) (R : A -> B -> Prop) l1 l2 x :
  Forall2 R l1 l2 -> In x l1 -> exists y, In y l2 /\ R x y.
Proof.
  induction 1 as [|a b l1 l2 Hab HF IH]; intros Hin; [destruct Hin|].
  destruct Hin as [-> | Hin].
  - exists b. split; [now left | exact Hab].
  - destruct (IH Hin) as (y & Hy & Hxy). exists y. split; [now right | exact Hxy].
Qed.

Lemma id_range_above start n k : In k (id_range start n) -> start <= k.
Proof.
  unfold id_range. intros H. apply in_map_iff in H as (i & <- & _). lia.
Qed.

Lemma id_range_NoDup n : forall start, NoDup (id_range start n).
Proof.
  induction n as [|n IH]; intros start.
  - constructor.
  - rewrite id_range_succ. constructor; [|apply IH].
    intros H. apply id_range_above in H. lia.
Qed.

(** Two different files of an upload list get two cards with different
    identifiers. *)
Lemma built_cards_of_two_files folder target (files : list str)
    (new : list Automate.card) rel1 rel2 :
  Forall2 (built_from folder target) files new ->
  NoDup (map Automate.id new) ->
  In rel1 files -> In rel2 files -> rel1 <> rel2 ->
  exists c1 c2,
    In c1 new /\ In c2 new
    /\ built_from folder target rel1 c1 /\ built_from folder target rel2 c2
    /\ Automate.id c1 <> Automate.id c2.
Proof.
  intros HF Hnd H1 H2 Hne.
  apply in_split in H1 as (p & q & ->).
  apply Forall2_app_inv_l in HF as (p' & t & Fp & HF & ->).
  inversion HF as [|x c1 q0 q' B1 Fq]; subst.
  assert (Hc1 : forall c, In c (p' ++ q') -> Automate.id c1 <> Automate.id c).
  { intros c Hc E. rewrite map_app in Hnd. cbn [map] in Hnd.
    apply NoDup_remove_2 in Hnd. apply Hnd.
    rewrite <- map_app, E. now apply in_map. }
  apply in_app_or in H2 as [H2 | [H2 | H2]]; [|congruence|].
  - destruct (Forall2_in_left _ _ _ _ _ _ Fp H2) as (c2 & Hc2 & B2).
    exists c1, c2. split; [apply in_or_app; right; now left|].
    split; [apply in_or_app; now left|]. split; [exact B1|]. split; [exact B2|].
    apply Hc1, in_or_app. now left.
  - destruct (Forall2_in_left _ _ _ _ _ _ Fq H2) as (c2 & Hc2 & B2).
    exists c1, c2. split; [apply in_or_app; right; now left|].
    split; [apply in_or_app; right; now right|].
    split; [exact B1|]. split; [exact B2|].
    apply Hc1, in_or_app. now right.
Qed.

Lemma built_from_url folder target rel1 rel2 c1 c2 :
  fst (Py.splitext rel1) = fst (Py.splitext rel2) ->
  built_from folder target rel1 c1 -> built_from folder target rel2 c2 ->
  Automate.url c1 = Automate.url c2 /\ Automate.name c1 = Automate.name c2.
Proof.
  intros Hstem (l1 & L1 & ->) (l2 & L2 & ->).
  unfold Automate.level_of in L1, L2. unfold Automate.new_card.
  destruct (Py.splitext rel1) as [s1 e1], (Py.splitext rel2) as [s2 e2].
  cbn [fst] in Hstem. subst s2. rewrite L1 in L2. injection L2 as <-.
  split; reflexivity.
Qed.

Lemma path_join_injective a b b' :
  Py.path_join a b = Py.path_join a b' -> b = b'.
Proof.
  unfold Py.path_join. destruct (rev a) as [|c r]; auto.
  destruct (Ascii.eqb c "/"); intros H.
  - now apply app_inv_head in H.
  - apply app_inv_head in H. now injection H.
Qed.

End SharedStem.

(** X22.  The key of an upload forgets a static extension.  When a
    directory holds two validly named files of one stem and two different
    extensions other than gif (["1_a.png"] and ["1_a.jpeg"], say) and the
    storage accepts the uploads, the two local files are written to one and
    the same key, and the catalog gets two cards with different identifiers
    and the same name and url. *)
Theorem same_stem_files_share_key_and_url
    (upload_ok : str -> bool) (completion : list str -> list str)
    (d : local_dir) (target : str) (w : Automate.world) (rel1 rel2 : str) :
  (forall l, Permutation (completion l) l) ->
  (forall p, upload_ok p = true) ->
  In rel1 (Common.rename_files (dir_files d)) ->
  In rel2 (Common.rename_files (dir_files d)) ->
  rel1 <> rel2 ->
  Automate.is_valid_filename rel1 = true ->
  Automate.is_valid_filename rel2 = true ->
  fst (Py.splitext rel1) = fst (Py.splitext rel2) ->
  str_eqb (Py.lower (snd (Py.splitext rel1))) ".gif" = false ->
  str_eqb (Py.lower (snd (Py.splitext rel2))) ".gif" = false ->
  let w' := fst (Automate.process_directory upload_ok completion d target w) in
  (exists o1 o2,
      In o1 (Automate.store w') /\ In o2 (Automate.store w')
      /\ s3_key o1 = s3_key o2 /\ s3_body o1 <> s3_body o2)
  /\ (exists c1 c2,
        In c1 (Automate.cards (Automate.db w'))
        /\ In c2 (Automate.cards (Automate.db w'))
        /\ Automate.id c1 <> Automate.id c2
        /\ Automate.url c1 = Automate.url c2
        /\ Automate.name c1 = Automate.name c2).
Proof.
  intros Hperm Hok H1 H2 Hne V1 V2 Hstem G1 G2. cbv zeta.
  assert (Hex : existsb (upload_fails Automate.is_valid_filename upload_ok (dir_path d))
                  (tasks_of completion d) = false).
  { apply existsb_never. intros x. unfold upload_fails.
    rewrite Hok. apply andb_false_r. }
  destruct (process_directory_uploaded upload_ok completion d target w Hex)
    as (new & Hpd & Hids & Hbuilt).
  rewrite Hpd. cbn [fst Automate.store Automate.db Automate.cards].
  assert (Htask : forall rel, In rel (Common.rename_files (dir_files d)) ->
                              In rel (tasks_of completion d)).
  { intros rel Hin. unfold tasks_of.
    eapply Permutation_in; [apply Permutation_sym, Hperm | exact Hin]. }
  split.
  - exists (automate_object (dir_path d) (Py.basename (dir_path d)) target rel1),
           (automate_object (dir_path d) (Py.basename (dir_path d)) target rel2).
    assert (Hobj : forall rel, In rel (Common.rename_files (dir_files d)) ->
                     Automate.is_valid_filename rel = true ->
                     In (automate_object (dir_path d) (Py.basename (dir_path d))
                           target rel)
                        (store_after upload_ok completion d target (Automate.store w))).
    { intros rel Hin Hv. unfold store_after. apply in_or_app. right.
      apply in_map, filter_In. split; [now apply Htask|].
      now rewrite Hv, Hok. }
    split; [now apply Hobj|]. split; [now apply Hobj|]. split.
    + unfold automate_object, Automate.s3_path. cbn [s3_key].
      destruct (Py.splitext rel1) as [s1 e1], (Py.splitext rel2) as [s2 e2].
      cbn [fst snd] in *. subst s2. now rewrite G1, G2.
    + cbn [automate_object s3_body]. intros E. injection E as E.
      now apply path_join_injective in E.
  - assert (Hvf : forall rel, In rel (Common.rename_files (dir_files d)) ->
                    Automate.is_valid_filename rel = true ->
                    In rel (filter Automate.is_valid_filename (tasks_of completion d))).
    { intros rel Hin Hv. apply filter_In. split; [now apply Htask | exact Hv]. }
    assert (Hnd : NoDup (map Automate.id new))
      by (rewrite Hids; apply id_range_NoDup).
    destruct (built_cards_of_two_files _ _ _ _ rel1 rel2 Hbuilt Hnd
                (Hvf _ H1 V1) (Hvf _ H2 V2) Hne)
      as (c1 & c2 & I1 & I2 & B1 & B2 & Hid).
    destruct (built_from_url _ _ _ _ _ _ Hstem B1 B2) as [Hurl Hname].
    exists c1, c2.
    split; [apply in_or_app; now right|].
    split; [apply in_or_app; now right|]. auto.
Qed.

Lemma same_stem_files_share_key_and_url_witness :
  let d := {| dir_path := "in/twice";
              dir_files := ["1_momo.png" : str; "1_momo.jpeg" : str] |} in
  let w := {| Automate.store := [];
              Automate.db := {| Automate.collections := [];
                                Automate.cards := [] |} |} in
  let w' := fst (Automate.process_directory (fun _ => true) (fun l => l) d
                   "girlgroups" w) in
  exists c1 c2,
    In c1 (Automate.cards (Automate.db w'))
    /\ In c2 (Automate.cards (Automate.db w'))
    /\ Automate.id c1 <> Automate.id c2
    /\ Automate.url c1 = Automate.url c2
    /\ Automate.name c1 = Automate.name c2.
Proof.
  intros d w.
  apply (same_stem_files_share_key_and_url (fun _ => true) (fun l => l) d
           "girlgroups" w "1_momo.png" "1_momo.jpeg").
  - intros l. apply Permutation_refl.
  - reflexivity.
  - vm_compute. tauto.
  - vm_compute. tauto.
  - discriminate.
  - reflexivity.
  - reflexivity.
  - reflexivity.
  - reflexivity.
  - reflexivity.
Defined.

(** ** The level in the url *)

Section LevelRendering.

Import Decimal.

Lemma digit_uint c : Py.is_digit c = true ->
  forall u, exists u', uint_of_char c (Some u) = Some u'.
Proof.
  destruct c as [[] [] [] [] [] [] [] []]; vm_compute; intros H u;
    try discriminate; eexists; reflexivity.
Qed.

Lemma digits_uint s :
  forallb Py.is_digit s = true ->
  exists u, NilEmpty.uint_of_string (string_of_list_ascii s) = Some u.
Proof.
  induction s as [|c s IH]; cbn [forallb string_of_list_ascii NilEmpty.uint_of_string];
    intros H.
  - eauto.
  - apply andb_true_iff in H as [Hc Hs]. destruct (IH Hs) as [u ->].
    apply digit_uint, Hc.
Qed.

Ltac digit_step IH :=
  cbn [Py.digits_val Pos.of_uint_acc Pos.of_uint];
  match goal with
  | |- context [Py.is_digit ?c] => change (Py.is_digit c) with true
  end;
  cbv iota;
  match goal with
  | |- context [Py.digit_val ?c] =>
      let v := eval vm_compute in (Py.digit_val c) in
      change (Py.digit_val c) with v
  end.

(** The digits read with a positive accumulator. *)
Lemma digits_val_acc s : forall u p,
  NilEmpty.uint_of_string (string_of_list_ascii s) = Some u ->
  Py.digits_val (Zpos p) s = Some (Zpos (Pos.of_uint_acc u p)).
Proof.
  induction s as [|c s IH]; intros u p H;
    cbn [string_of_list_ascii NilEmpty.uint_of_string] in H.
  - injection H as <-. reflexivity.
  - destruct (NilEmpty.uint_of_string (string_of_list_ascii s)) as [u'|];
      [|discriminate].
    apply uint_of_char_spec in H.
    destruct H as [[-> ->] | [[-> ->] | [[-> ->] | [[-> ->] | [[-> ->]
                 | [[-> ->] | [[-> ->] | [[-> ->] | [[-> ->] | [-> ->]]]]]]]]]];
      digit_step IH;
      match goal with
      | |- Py.digits_val ?z s = Some (Zpos (Pos.of_uint_acc u' ?q)) =>
          replace z with (Zpos q) by lia; apply IH; reflexivity
      end.
Qed.

(** The digits read from zero: the number of the decimal numeral. *)
Lemma digits_val_of_uint s : forall u,
  NilEmpty.uint_of_string (string_of_list_ascii s) = Some u ->
  Py.digits_val 0 s = Some (Z.of_N (Pos.of_uint u)).
Proof.
  induction s as [|c s IH]; intros u H;
    cbn [string_of_list_ascii NilEmpty.uint_of_string] in H.
  - injection H as <-. reflexivity.
  - destruct (NilEmpty.uint_of_string (string_of_list_ascii s)) as [u'|] eqn:E;
      [|discriminate].
    apply uint_of_char_spec in H.
    destruct H as [[-> ->] | [[-> ->] | [[-> ->] | [[-> ->] | [[-> ->]
                 | [[-> ->] | [[-> ->] | [[-> ->] | [[-> ->] | [-> ->]]]]]]]]]];
      digit_step IH;
      [ change (10 * 0 + 0) with 0; now apply IH
      | match goal with
        | |- Py.digits_val ?z s = Some (Z.of_N (Npos (Pos.of_uint_acc u' ?q))) =>
            change z with (Zpos q); change (Z.of_N (Npos (Pos.of_uint_acc u' q)))
              with (Zpos (Pos.of_uint_acc u' q));
            now apply digits_val_acc
        end .. ].
Qed.

Lemma canonical_uint s u :
  canonical_digits s ->
  NilEmpty.uint_of_string (string_of_list_ascii s) = Some u ->
  unorm u = u /\ u <> Nil.
Proof.
  intros [_ [-> | (c & s' & -> & Hc)]] H.
  - cbn in H. injection H as <-. split; [reflexivity | discriminate].
  - cbn [string_of_list_ascii NilEmpty.uint_of_string] in H.
    destruct (NilEmpty.uint_of_string (string_of_list_ascii s')) as [u'|];
      [|discriminate].
    apply uint_of_char_spec in H.
    destruct H as [[-> ->] | [[-> ->] | [[-> ->] | [[-> ->] | [[-> ->]
                 | [[-> ->] | [[-> ->] | [[-> ->] | [[-> ->] | [-> ->]]]]]]]]]];
      try congruence; split; (reflexivity || discriminate).
Qed.

(** [str(int(s))] is [s] for a numeral without leading zeros. *)
Lemma str_of_int_digits s n :
  canonical_digits s -> Py.digits_val 0 s = Some n -> Py.str_of_int n = s.
Proof.
  intros Hcan Hval.
  destruct (digits_uint s (proj1 Hcan)) as [u Hu].
  rewrite (digits_val_of_uint s u Hu) in Hval. injection Hval as <-.
  destruct (canonical_uint s u Hcan Hu) as [Hnorm Hnil].
  unfold Py.str_of_int.
  change (Z.of_N (Pos.of_uint u)) with (Z.of_int (Pos u)).
  rewrite DecimalZ.to_of. cbn [norm]. rewrite Hnorm.
  cbn [NilZero.string_of_int]. unfold NilZero.string_of_uint.
  rewrite <- (list_ascii_of_string_of_list_ascii s).
  f_equal. apply NilEmpty.sus in Hu. rewrite <- Hu. now destruct u.
Qed.

Lemma int_of_digits d : digits_run d -> Py.int d = Py.digits_val 0 d.
Proof.
  intros [Hn Hd]. unfold Py.int. rewrite (strip_digits d Hd).
  destruct d as [|c d]; [congruence|].
  pose proof Hd as Hd'. simpl in Hd'. apply andb_true_iff in Hd' as [Hc _].
  destruct (digit_not_sign c Hc) as [-> ->]. reflexivity.
Qed.

End LevelRendering.

(** X23.  When the url of a card is right.  For a validated file with a
    name made of ASCII characters, whose stem has no upper-case letter (as
    after [rename_files]), whose level is written in the digits [0-9]
    without a leading zero and whose extension is not gif, the [url] and
    [shorturl] of its card are the two hosts followed by the key under
    which [upload_file] stored the file. *)
Theorem card_url_names_the_stored_object (folder target file : str) (n : Z) :
  ascii_only file ->
  Automate.is_valid_filename file = true ->
  Py.lower (fst (Py.splitext file)) = fst (Py.splitext file) ->
  canonical_digits (hd [] (Py.split "_" (fst (Py.splitext file)))) ->
  str_eqb (Py.lower (snd (Py.splitext file))) ".gif" = false ->
  exists level,
    Automate.level_of file = Some level
    /\ Automate.url (Automate.new_card folder target file level n)
       = "https://hyejoo.sfo2.digitaloceanspaces.com/"
         ++ Automate.s3_path folder target file
    /\ Automate.shorturl (Automate.new_card folder target file level n)
       = "https://cards.hyejoobot.com/" ++ Automate.s3_path folder target file.
Proof.
  intros _ Hv Hlow Hcan Hgif.
  destruct (valid_level file Hv) as (digits & level & Hseg & Hrun & Hint & _ & Hlevel).
  destruct (valid_stem file Hv) as (d & t & Hd & Hstem & Hsplit).
  rewrite Hsplit in Hseg. cbn [hd] in Hseg. subst digits.
  rewrite Hlow in Hstem, Hsplit. rewrite Hsplit in Hcan. cbn [hd] in Hcan.
  rewrite (int_of_digits d Hd) in Hint.
  pose proof (str_of_int_digits d level Hcan Hint) as Hstr.
  exists level. split; [exact Hlevel|].
  unfold Automate.new_card, Automate.s3_path.
  destruct (Py.splitext file) as [stem ext]. cbn [fst snd] in *.
  rewrite Hgif, Hlow, Hsplit, Hstr. cbn [tl Automate.url Automate.shorturl].
  replace (Py.join "_" (Py.split "_" t)) with t
    by (symmetry; exact (join_split "_" t)).
  rewrite Hstem. split; cbn; rewrite <- !app_assoc; reflexivity.
Qed.

Lemma card_url_names_the_stored_object_witness :
  Automate.is_valid_filename "12_red_velvet.png" = true
  /\ exists level,
       Automate.level_of "12_red_velvet.png" = Some level
       /\ Automate.url (Automate.new_card "twice" "girlgroups"
                          "12_red_velvet.png" level 0)
          = "https://hyejoo.sfo2.digitaloceanspaces.com/"
            ++ Automate.s3_path "twice" "girlgroups" "12_red_velvet.png"
       /\ Automate.shorturl (Automate.new_card "twice" "girlgroups"
                               "12_red_velvet.png" level 0)
          = "https://cards.hyejoobot.com/"
            ++ Automate.s3_path "twice" "girlgroups" "12_red_velvet.png".
Proof.
  split; [reflexivity|].
  apply (card_url_names_the_stored_object "twice" "girlgroups"
           "12_red_velvet.png" 0).
  - reflexivity.
  - reflexivity.
  - reflexivity.
  - split; [reflexivity|]. right. exists "1"%char, ["2"%char].
    split; [reflexivity | discriminate].
  - reflexivity.
Defined.

(** ** A failed upload in promoauto.py *)

Section PromoUploadFailure.

Variable upload_ok : str -> bool.
Variable completion : list str -> list str.
Hypothesis completion_perm : forall l, Permutation (completion l) l.

Lemma promo_process_directory_failed d target promo_prefix w rel :
  In rel (Common.rename_files (dir_files d)) ->
  Promoauto.is_valid_filename rel = true ->
  upload_ok (Py.path_join (dir_path d) rel) = false ->
  exists st',
    Promoauto.process_directory upload_ok completion d target promo_prefix w
    = ({| Promoauto.store := st'; Promoauto.files := Promoauto.files w |},
       ([], Some false)).
Proof.
  intros Hin Hv Hf. unfold Promoauto.process_directory.
  pose proof (promoauto_upload_files upload_ok completion (dir_path d)
                (Common.rename_files (dir_files d)) (Py.basename (dir_path d))
                (promo_prefix ++ target)
                (Promoauto.create_folder (Py.basename (dir_path d))
                   (promo_prefix ++ target) (Promoauto.store w))) as Hup.
  destruct (Promoauto.upload_files _ _ _ _ _ _ _) as [st2 uploaded].
  cbn [snd] in Hup. subst uploaded.
  assert (Hex : existsb (upload_fails Promoauto.is_valid_filename upload_ok (dir_path d))
                  (completion (Common.rename_files (dir_files d))) = true).
  { apply existsb_exists. exists rel. split.
    - eapply Permutation_in; [apply Permutation_sym, completion_perm | exact Hin].
    - unfold upload_fails. now rewrite Hv, Hf. }
  rewrite Hex. eauto.
Qed.

End PromoUploadFailure.

(** X24.  A failed upload in promoauto.py leaves no trace in the report.
    When the upload of one validly named file of a directory fails,
    [process_directory] returns [([], False)] with both JSON files
    untouched, and [main] writes for that directory the block of a
    directory without files (zero cards, no first card, the collection
    "updated", no error line) and goes on with the next directory. *)
Theorem promoauto_upload_failure_report
    (upload_ok : str -> bool) (completion : list str -> list str)
    (target promo_prefix actual : str) (d : local_dir) (rest : list local_dir)
    (w : Promoauto.world) (out : list str) (rel : str) :
  (forall l, Permutation (completion l) l) ->
  In rel (Common.rename_files (dir_files d)) ->
  Promoauto.is_valid_filename rel = true ->
  upload_ok (Py.path_join (dir_path d) rel) = false ->
  exists st',
    let w' := {| Promoauto.store := st'; Promoauto.files := Promoauto.files w |} in
    Promoauto.process_directory upload_ok completion d actual promo_prefix w
    = (w', ([], Some false))
    /\ Promoauto.process_group upload_ok completion target promo_prefix actual
         (d :: rest) w out
       = Promoauto.process_group upload_ok completion target promo_prefix actual
           rest w'
           (out
            ++ [ "Group Type: " ++ target;
                 "Collection Name: " ++ Py.basename (dir_path d);
                 "Number of Cards: 0" : str;
                 "Uploaded Files:" : str;
                 "First Card ID: None" : str;
                 "Last Card ID: "
                   ++ Py.str_of_optional_int
                        (option_map Promoauto.id
                           (Py.index_from_end
                              (Promoauto.cards_data (Promoauto.files w)) 1));
                 [] : str;
                 "Collection '" ++ Py.basename (dir_path d) ++ "' updated.";
                 [] : str ]).
Proof.
  intros Hperm Hin Hv Hf.
  destruct (promo_process_directory_failed upload_ok completion Hperm d actual
              promo_prefix w rel Hin Hv Hf) as (st' & Hpd).
  exists st'. cbv zeta. split; [exact Hpd|].
  cbn [Promoauto.process_group]. rewrite Hpd.
  cbn [Promoauto.files]. unfold Promoauto.write_output_file.
  destruct (Promoauto.cards_data (Promoauto.files w)) as [|c cs];
    cbn [map app List.length Promoauto.truthy option_map];
    rewrite <- !app_assoc; reflexivity.
Qed.

Lemma promoauto_upload_failure_report_witness :
  let w := {| Promoauto.store := [];
              Promoauto.files := {| Promoauto.cards_data := [];
                                    Promoauto.collections_data := [] |} |} in
  exists st',
    Promoauto.process_directory (fun _ => false) (fun l => l)
      {| dir_path := "in/twice"; dir_files := ["1_na_yeon.jpg" : str] |}
      "girlgroups" "" w
    = ({| Promoauto.store := st'; Promoauto.files := Promoauto.files w |},
       ([], Some false)).
Proof.
  intros w.
  destruct (promoauto_upload_failure_report (fun _ => false) (fun l => l)
              "girlgroups" "" "girlgroups"
              {| dir_path := "in/twice"; dir_files := ["1_na_yeon.jpg" : str] |}
              [] w [] "1_na_yeon.jpg") as (st' & H & _).
  - intros l. apply Permutation_refl.
  - vm_compute. tauto.
  - reflexivity.
  - reflexivity.
  - exists st'. exact H.
Defined.
